(** * series-pipeline: episode splitter, glossary and translation QA

    A shallow embedding of the core of the localization pipeline:

    - [processors/glossary_manager.py]   (module [GlossaryManager])
    - [stage_02_translate.py]            (module [NameConsistency])
    - [processors/translation_qa.py]     (module [TranslationQA])
    - [stage_02a_translation_qa.py]      (module [Stage2a])
    - [processors/llm_episode_splitter.py] (modules [Re] and [Splitter])

    Python [str] values are lists of Unicode code points, Python [int]
    values are [Z] (or [nat] for lengths and indexes), dictionaries whose
    iteration order is observable are insertion-ordered association
    lists, and every call into the language-model backend is a function
    parameter of the definition that performs it. *)

From Stdlib Require Import String Ascii.
From Stdlib Require Import ZArith List Bool Lia Arith Permutation.
From Stdlib Require Import Floats.
Import ListNotations.

Set Implicit Arguments.

(* ===================================================================== *)
(** * Python strings *)
(* ===================================================================== *)

Module PyStr.

(** A Python [str]: a sequence of code points. *)
Definition pystr := list Z.

(** Decoding of the UTF-8 bytes of a literal of this file into code
    points; only used to write string constants readably. *)
Fixpoint utf8_decode (bs : list Z) : pystr :=
  match bs with
  | [] => []
  | b :: r =>
    if (b <? 128)%Z then b :: utf8_decode r
    else if (b <? 224)%Z then
      match r with
      | b1 :: r1 => (Z.land b 31 * 64 + Z.land b1 63)%Z :: utf8_decode r1
      | _ => []
      end
    else if (b <? 240)%Z then
      match r with
      | b1 :: b2 :: r2 =>
        (Z.land b 15 * 4096 + Z.land b1 63 * 64 + Z.land b2 63)%Z
          :: utf8_decode r2
      | _ => []
      end
    else
      match r with
      | b1 :: b2 :: b3 :: r3 =>
        (Z.land b 7 * 262144 + Z.land b1 63 * 4096
         + Z.land b2 63 * 64 + Z.land b3 63)%Z :: utf8_decode r3
      | _ => []
      end
  end.

Definition py (s : string) : pystr :=
  utf8_decode (map (fun a => Z.of_N (N_of_ascii a)) (list_ascii_of_string s)).

(** [a == b] on strings. *)
Fixpoint str_eqb (a b : pystr) : bool :=
  match a, b with
  | [], [] => true
  | x :: a', y :: b' => (x =? y)%Z && str_eqb a' b'
  | _, _ => false
  end.

(** [s.startswith(p)]. *)
Fixpoint startswith (p s : pystr) : bool :=
  match p, s with
  | [], _ => true
  | x :: p', y :: s' => (x =? y)%Z && startswith p' s'
  | _ :: _, [] => false
  end.

(** [sub in s]. *)
Fixpoint contains (sub s : pystr) : bool :=
  startswith sub s ||
  match s with
  | [] => false
  | _ :: s' => contains sub s'
  end.

(** [s.find(sub)]: the lowest index of an occurrence, [None] for -1. *)
Fixpoint find (sub s : pystr) : option nat :=
  if startswith sub s then Some 0
  else match s with
       | [] => None
       | _ :: s' => option_map S (find sub s')
       end.

(** [s.rfind(sub, lo, hi)]: the highest index [i] with [lo <= i],
    [i + len(sub) <= hi] at which [sub] occurs. *)
Fixpoint rfind_from (sub s : pystr) (idx lo hi : nat) : option nat :=
  match s with
  | [] =>
    if (lo <=? idx) && (idx + length sub <=? hi) && startswith sub s
    then Some idx else None
  | _ :: s' =>
    match rfind_from sub s' (S idx) lo hi with
    | Some i => Some i
    | None =>
      if (lo <=? idx) && (idx + length sub <=? hi) && startswith sub s
      then Some idx else None
    end
  end.

Definition rfind (sub s : pystr) (lo hi : nat) : option nat :=
  rfind_from sub s 0 lo (Nat.min hi (length s)).

(** [s[a:b]] for non-negative [a] and [b]. *)
Definition slice (s : pystr) (a b : nat) : pystr :=
  firstn (b - a) (skipn a s).

(** [s.replace(old, new)] for a non-empty [old]: every non-overlapping
    occurrence, left to right. [fuel] bounds the scan by the length. *)
Fixpoint replace_ne (fuel : nat) (old new s : pystr) : pystr :=
  match fuel with
  | O => s
  | S f =>
    match s with
    | [] => []
    | c :: s' =>
      if startswith old s
      then new ++ replace_ne f old new (skipn (length old) s)
      else c :: replace_ne f old new s'
    end
  end.

(** [s.replace('', new)] puts [new] before every character and at the
    end. *)
Fixpoint replace_empty (new s : pystr) : pystr :=
  match s with
  | [] => new
  | c :: s' => new ++ c :: replace_empty new s'
  end.

Definition replace (old new s : pystr) : pystr :=
  match old with
  | [] => replace_empty new s
  | _ :: _ => replace_ne (length s) old new s
  end.

(** [s.replace(old, new, 1)]: the first occurrence only. *)
Fixpoint replace_first_ne (old new s : pystr) : pystr :=
  if startswith old s then new ++ skipn (length old) s
  else match s with
       | [] => []
       | c :: s' => c :: replace_first_ne old new s'
       end.

Definition replace_first (old new s : pystr) : pystr :=
  match old with
  | [] => new ++ s
  | _ :: _ => replace_first_ne old new s
  end.

(** [str.isspace] of one character, which is also what [\s] tests in a
    [str] pattern and what [strip] and [split()] remove. *)
Definition isspace (c : Z) : bool :=
  ((9 <=? c) && (c <=? 13) || (28 <=? c) && (c <=? 32)
   || (c =? 133) || (c =? 160) || (c =? 5760)
   || (8192 <=? c) && (c <=? 8202)
   || (c =? 8232) || (c =? 8233) || (c =? 8239) || (c =? 8287)
   || (c =? 12288))%Z.

Fixpoint lstrip_by (p : Z -> bool) (s : pystr) : pystr :=
  match s with
  | [] => []
  | c :: s' => if p c then lstrip_by p s' else s
  end.

Definition rstrip_by (p : Z -> bool) (s : pystr) : pystr :=
  rev (lstrip_by p (rev s)).

(** [s.lstrip()], [s.rstrip()], [s.strip()]. *)
Definition lstrip (s : pystr) : pystr := lstrip_by isspace s.
Definition rstrip (s : pystr) : pystr := rstrip_by isspace s.
Definition strip (s : pystr) : pystr := rstrip (lstrip s).

(** The byte order mark, and [s.lstrip] of that one character. *)
Definition BOM : Z := 65279.
Definition lstrip_bom (s : pystr) : pystr := lstrip_by (Z.eqb BOM) s.

(** [s.split(sep)] for a one-character separator. *)
Fixpoint split_char (sep : Z) (s : pystr) : list pystr :=
  match s with
  | [] => [[]]
  | c :: s' =>
    if (c =? sep)%Z then [] :: split_char sep s'
    else match split_char sep s' with
         | [] => [[c]]
         | w :: ws => (c :: w) :: ws
         end
  end.

(** [s.split(sep, 1)] for a one-character separator. *)
Fixpoint split_char_once (sep : Z) (s : pystr) : list pystr :=
  match s with
  | [] => [[]]
  | c :: s' =>
    if (c =? sep)%Z then [[]; s']
    else match split_char_once sep s' with
         | [] => [[c]]
         | w :: ws => (c :: w) :: ws
         end
  end.

(** [s.split()]: the maximal runs of non-space characters. *)
Fixpoint split_ws_aux (cur : pystr) (s : pystr) : list pystr :=
  match s with
  | [] => match cur with [] => [] | _ => [rev cur] end
  | c :: s' =>
    if isspace c
    then match cur with
         | [] => split_ws_aux [] s'
         | _ => rev cur :: split_ws_aux [] s'
         end
    else split_ws_aux (c :: cur) s'
  end.

Definition split_ws (s : pystr) : list pystr := split_ws_aux [] s.

(** [sep.join(parts)]. *)
Fixpoint join (sep : pystr) (parts : list pystr) : pystr :=
  match parts with
  | [] => []
  | [p] => p
  | p :: ps => p ++ sep ++ join sep ps
  end.

Definition NL : Z := 10.
Definition lines_of (s : pystr) : list pystr := split_char NL s.
Definition unlines (ls : list pystr) : pystr := join [NL] ls.

(** [str.lower] on strings of ASCII characters; the definitions that
    call [str.lower] take it as a parameter. *)
Definition ascii_lower (s : pystr) : pystr :=
  map (fun c => if ((65 <=? c) && (c <=? 90))%Z then (c + 32)%Z else c) s.

(** Membership of a string in a list or set of strings. *)
Definition mem (s : pystr) (l : list pystr) : bool :=
  existsb (str_eqb s) l.

End PyStr.

Import PyStr.

(* ===================================================================== *)
(** * Glossary terms *)
(* ===================================================================== *)

(** A glossary term is a Python dictionary. The record has one field per
    key that the code reads or writes; a key that is absent reads as the
    default the code passes to [dict.get] (the empty string, the empty
    list) and the provenance keys written by the name-consistency pass
    are optional. *)
Record term := mkTerm {
  original : pystr;
  translation : pystr;
  category : pystr;
  first_appearance : pystr;
  context : pystr;
  known_wrong_variants : list pystr;
  corrected_from : option pystr;        (* '_corrected_from' *)
  matched_first_name : option pystr;    (* '_matched_first_name' *)
  matched_foreign_name : option pystr;  (* '_matched_foreign_name' *)
  name_replaced : option pystr          (* '_name_replaced' *)
}.

Definition originals (ts : list term) : list pystr := map original ts.

(* ===================================================================== *)
(** * processors/glossary_manager.py *)
(* ===================================================================== *)

Module GlossaryManager.

(** [self.glossary_data]. *)
Record glossary_data := mkGlossary {
  series_name : pystr;
  source_language : pystr;
  target_language : pystr;
  created_date : pystr;
  last_updated : pystr;
  terms : list term
}.

(** [GlossaryManager()] without a path. *)
Definition fresh : glossary_data := mkGlossary [] [] [] [] [] [].

(** [create]; [now] is [datetime.now().isoformat()], and [init_terms] is
    the optional [terms] argument ([terms or []]). *)
Definition create (now series src tgt : pystr)
    (init_terms : option (list term)) (g : glossary_data) : glossary_data :=
  mkGlossary series src tgt now now
    match init_terms with
    | Some ts => ts
    | None => []
    end.

(** [find_term]: the first term whose original is the given one. *)
Fixpoint find_in (orig : pystr) (ts : list term) : option term :=
  match ts with
  | [] => None
  | t :: ts' => if str_eqb (original t) orig then Some t else find_in orig ts'
  end.

Definition find_term (g : glossary_data) (orig : pystr) : option term :=
  find_in orig (terms g).

(** [add_term]. A found entry is a dictionary with keys, hence true in
    [if existing:], and the method returns before touching the list. *)
Definition add_term (orig trans cat first_app ctx : pystr)
    (g : glossary_data) : glossary_data :=
  match find_term g orig with
  | Some _ => g
  | None =>
    let term_entry := mkTerm orig trans cat first_app ctx [] None None None None in
    mkGlossary (series_name g) (source_language g) (target_language g)
      (created_date g) (last_updated g) (terms g ++ [term_entry])
  end.

(** [get_all_originals] and [filter_new_terms]. *)
Definition get_all_originals (g : glossary_data) : list pystr :=
  originals (terms g).

Definition filter_new_terms (g : glossary_data) (cands : list term) : list term :=
  filter (fun t => negb (mem (original t) (get_all_originals g))) cands.

(** A call of the public interface, and a sequence of calls on one
    manager. *)
Inductive call :=
| Create (now series src tgt : pystr) (init_terms : option (list term))
| AddTerm (orig trans cat first_app ctx : pystr).

Definition step (g : glossary_data) (c : call) : glossary_data :=
  match c with
  | Create now series src tgt init => create now series src tgt init g
  | AddTerm o t c f x => add_term o t c f x g
  end.

Definition run (calls : list call) (g : glossary_data) : glossary_data :=
  fold_left step calls g.

(** The initial terms handed to a [create] call have distinct originals. *)
Definition distinct_init (c : call) : Prop :=
  match c with
  | Create _ _ _ _ (Some ts) => NoDup (originals ts)
  | _ => True
  end.

End GlossaryManager.

(* ===================================================================== *)
(** * Insertion-ordered dictionaries and IEEE doubles *)
(* ===================================================================== *)

Module PyDict.

(** A [dict] keyed by strings whose iteration order matters: assignment
    to a present key keeps the key's position, a new key goes last. *)
Definition dict (V : Type) := list (pystr * V).

Fixpoint dict_set {V : Type} (k : pystr) (v : V) (d : dict V) : dict V :=
  match d with
  | [] => [(k, v)]
  | (k', v') :: d' =>
    if str_eqb k' k then (k, v) :: d' else (k', v') :: dict_set k v d'
  end.

Fixpoint dict_get {V : Type} (k : pystr) (d : dict V) : option V :=
  match d with
  | [] => None
  | (k', v') :: d' => if str_eqb k' k then Some v' else dict_get k d'
  end.

Definition dict_keys {V : Type} (d : dict V) : list pystr := map fst d.

(** A key of a JSON object, as the code can tell: the key is absent,
    its value is [null], or it has a value. [d[k]] raises [KeyError]
    for the first; [d.get(k)] is [None] for the first two. *)
Inductive field (A : Type) :=
| Absent
| Null
| Val (a : A).
Arguments Absent {A}.
Arguments Null {A}.
Arguments Val {A} a.

(** [d.get(k)]. *)
Definition get {A : Type} (f : field A) : option A :=
  match f with
  | Val a => Some a
  | Absent | Null => None
  end.

(** The truth value of [d.get(k)] for a Boolean. *)
Definition truthy_field (f : field bool) : bool :=
  match f with
  | Val true => true
  | _ => false
  end.

End PyDict.

Import PyDict.

Module PyFloat.

(** [float(n)] for a length or an index. *)
Definition of_nat (n : nat) : float :=
  PrimFloat.of_uint63 (Uint63.of_Z (Z.of_nat n)).

(** [int(x)] for a finite double: truncation towards zero. *)
Definition to_int (x : float) : Z :=
  match Prim2SF x with
  | SpecFloat.S754_finite s m e =>
    let v := if (0 <=? e)%Z then (Z.pos m * 2 ^ e)%Z
             else (Z.pos m / 2 ^ (- e))%Z in
    if s then (- v)%Z else v
  | _ => 0%Z
  end.

End PyFloat.

(* ===================================================================== *)
(** * stage_02_translate.py: enforce_name_consistency *)
(* ===================================================================== *)

Module NameConsistency.

(** [korean_surnames]: fifty one-character family names. *)
Definition korean_surnames : list Z :=
  py "김이박최정강조윤장임한오서신권황안송류전홍고문양손배백허유남심노하곽성차주우구민진나지엄변채원천방공".

Definition is_surname (c : Z) : bool := existsb (Z.eqb c) korean_surnames.

Definition CHARACTER : pystr := py "character".
Definition JAPANESE : pystr := py "japanese".
Definition TAIWANESE : pystr := py "taiwanese".
Definition KATAKANA_DOT : Z := 12539.   (* U+30FB *)
Definition MIDDLE_DOT : Z := 183.       (* U+00B7 *)
Definition SPACE : Z := 32.
Definition ARROW : pystr := py " → ".

(** The two dictionaries filled by the first loop. *)
Record name_maps := mkMaps {
  full_name_map : dict (pystr * pystr);
  first_name_map : dict pystr
}.

Definition record_full_name (orig first_name first_name_translation : pystr)
    (m : name_maps) : name_maps :=
  mkMaps (dict_set orig (first_name, first_name_translation) (full_name_map m))
         (dict_set first_name first_name_translation (first_name_map m)).

(** Body of the first loop, for one term. *)
Definition first_pass_step (target_lang : pystr) (m : name_maps) (t : term)
    : name_maps :=
  if negb (str_eqb (category t) CHARACTER) then m
  else if negb (3 <=? length (original t)) then m
  else
    match original t with
    | [] => m
    | potential_surname :: first_name =>
      if negb (is_surname potential_surname) then m
      else if negb (2 <=? length first_name) then m
      else if str_eqb target_lang JAPANESE then
        if contains [KATAKANA_DOT] (translation t) then
          match split_char_once KATAKANA_DOT (translation t) with
          | [_; first_name_translation] =>
            record_full_name (original t) first_name first_name_translation m
          | _ => m
          end
        else m
      else if str_eqb target_lang TAIWANESE then
        if 3 <=? length (translation t) then
          let first_name_translation := skipn 1 (translation t) in
          match first_name_translation with
          | [] => m
          | _ :: _ =>
            record_full_name (original t) first_name first_name_translation m
          end
        else m
      else m
    end.

(** [' ' in original and len(original.split()) >= 2]. *)
Definition is_multi_part (orig : pystr) : bool :=
  contains [SPACE] orig && (2 <=? length (split_ws orig)).

(** Body of the second loop (names with spaces), for one term. *)
Definition foreign_pass_step (target_lang : pystr) (fm : dict pystr) (t : term)
    : dict pystr :=
  if negb (str_eqb (category t) CHARACTER) then fm
  else if negb (is_multi_part (original t)) then fm
  else
    match split_ws (original t) with
    | [] => fm
    | short_name :: _ =>
      if str_eqb target_lang JAPANESE then
        if contains [KATAKANA_DOT] (translation t) then
          match split_char KATAKANA_DOT (translation t) with
          | short_translation :: _ => dict_set short_name short_translation fm
          | [] => fm
          end
        else fm
      else if str_eqb target_lang TAIWANESE then
        if contains [MIDDLE_DOT] (translation t)
           || contains [KATAKANA_DOT] (translation t) then
          let sep := if contains [MIDDLE_DOT] (translation t)
                     then MIDDLE_DOT else KATAKANA_DOT in
          match split_char sep (translation t) with
          | short_translation :: _ => dict_set short_name short_translation fm
          | [] => fm
          end
        else if contains [SPACE] (translation t) then
          match split_ws (translation t) with
          | short_translation :: _ => dict_set short_name short_translation fm
          | [] => fm
          end
        else fm
      else fm
    end.

(** [original_translations]: the translations of the character terms
    before any correction. *)
Definition original_translations_step (ot : dict pystr) (t : term) : dict pystr :=
  if str_eqb (category t) CHARACTER
  then dict_set (original t) (translation t) ot else ot.

(** [full_names]: the keys of [full_name_map] and every original with
    several space-separated parts, whatever its category. *)
Definition full_names_of (m : name_maps) (terms : list term) : list pystr :=
  dict_keys (full_name_map m)
  ++ originals (filter (fun t => is_multi_part (original t)) terms).

(** The writes to a term when it is corrected. *)
Definition fix_foreign (t : term) (correct : pystr) : term :=
  mkTerm (original t) correct (category t) (first_appearance t) (context t)
    (known_wrong_variants t)
    (Some (translation t)) (matched_first_name t) (Some (original t))
    (name_replaced t).

Definition fix_first_name (t : term) (first_name correct : pystr) : term :=
  mkTerm (original t) correct (category t) (first_appearance t) (context t)
    (known_wrong_variants t)
    (Some (translation t)) (Some first_name) (matched_foreign_name t)
    (name_replaced t).

Definition fix_replaced (t : term) (new_translation wrong correct : pystr) : term :=
  mkTerm (original t) new_translation (category t) (first_appearance t)
    (context t) (known_wrong_variants t)
    (Some (translation t)) (matched_first_name t) (matched_foreign_name t)
    (Some (wrong ++ ARROW ++ correct)).

(** ['一' <= c <= '鿿' for every c]. *)
Definition all_cjk (s : pystr) : bool :=
  forallb (fun c => (19968 <=? c) && (c <=? 40959))%Z s.

(** [int(name_pos / len(original) * len(current_translation))], in
    double precision as Python computes it. *)
Definition expected_position (name_pos len_original len_current : nat) : nat :=
  let pos_ratio :=
    if 0 <? len_original
    then PrimFloat.div (PyFloat.of_nat name_pos) (PyFloat.of_nat len_original)
    else PrimFloat.zero in
  Z.to_nat (PyFloat.to_int (PrimFloat.mul pos_ratio (PyFloat.of_nat len_current))).

(** The scan [for i in range(len(search_region) - 1)] from index [i] for
    [n] more iterations: the first window that has the length of the
    correct name, differs from it and is made of ideographs only. *)
Fixpoint scan_region (search_region correct : pystr) (i n : nat) : option (nat * pystr) :=
  match n with
  | O => None
  | S n' =>
    let potential_name := slice search_region i (i + length correct) in
    if (length potential_name =? length correct)
       && negb (str_eqb potential_name correct)
       && all_cjk potential_name
    then Some (i, potential_name)
    else scan_region search_region correct (S i) n'
  end.

(** The positional fallback for a compound term (Taiwanese only). *)
Definition positional_fix (t : term) (first_name correct : pystr) : term * bool :=
  let cur := translation t in
  match find first_name (original t) with
  | None => (t, false)
  | Some name_pos =>
    let expected_pos := expected_position name_pos (length (original t)) (length cur) in
    let search_start := expected_pos - 2 in
    let search_end := Nat.min (length cur) (expected_pos + length correct + 2) in
    let search_region := slice cur search_start search_end in
    match scan_region search_region correct 0 (length search_region - 1) with
    | None => (t, false)
    | Some (i, potential_name) =>
      let actual_start := search_start + i in
      let new_translation :=
        firstn actual_start cur ++ correct
        ++ skipn (actual_start + length correct) cur in
      if negb (str_eqb new_translation cur)
      then (fix_replaced t new_translation potential_name correct, true)
      else (t, false)
    end
  end.

(** The loop over [first_name_map.items()], which stops at the first
    given name that occurs in the term's original. *)
Fixpoint first_name_loop (target_lang : pystr) (ot : dict pystr)
    (items : dict pystr) (t : term) : term * bool :=
  match items with
  | [] => (t, false)
  | (first_name, correct) :: rest =>
    if contains first_name (original t) then
      if str_eqb (original t) first_name then
        if negb (str_eqb (translation t) correct)
        then (fix_first_name t first_name correct, true)
        else (t, false)
      else
        let wrong := match dict_get first_name ot with
                     | Some w => w
                     | None => []
                     end in
        if negb (str_eqb wrong []) && negb (str_eqb wrong correct)
           && contains wrong (translation t) then
          let new_translation := replace wrong correct (translation t) in
          if negb (str_eqb new_translation (translation t))
          then (fix_replaced t new_translation wrong correct, true)
          else (t, false)
        else if str_eqb target_lang TAIWANESE && (2 <=? length correct) then
          positional_fix t first_name correct
        else (t, false)
    else first_name_loop target_lang ot rest t
  end.

(** Body of the correcting loop, for one term: the corrected term and
    whether [corrections_made] was incremented. *)
Definition correct_term (target_lang : pystr) (m : name_maps)
    (fm ot : dict pystr) (full_names : list pystr) (t : term) : term * bool :=
  if mem (original t) full_names then (t, false)
  else
    match dict_get (original t) fm with
    | Some correct =>
      if negb (str_eqb (translation t) correct)
      then (fix_foreign t correct, true)
      else first_name_loop target_lang ot (first_name_map m) t
    | None => first_name_loop target_lang ot (first_name_map m) t
    end.

Definition build_name_maps (target_lang : pystr) (terms : list term) : name_maps :=
  fold_left (first_pass_step target_lang) terms (mkMaps [] []).

Definition build_foreign_map (target_lang : pystr) (terms : list term) : dict pystr :=
  fold_left (foreign_pass_step target_lang) terms [].

Definition build_original_translations (terms : list term) : dict pystr :=
  fold_left original_translations_step terms [].

Definition corrected_terms (terms : list term) (target_lang : pystr)
    : list (term * bool) :=
  let m := build_name_maps target_lang terms in
  let fm := build_foreign_map target_lang terms in
  let ot := build_original_translations terms in
  let full_names := full_names_of m terms in
  map (correct_term target_lang m fm ot full_names) terms.

(** [enforce_name_consistency(terms, target_lang)]: the term list after
    the in-place corrections, in the input order. *)
Definition enforce_name_consistency (terms : list term) (target_lang : pystr)
    : list term :=
  map fst (corrected_terms terms target_lang).

(** [corrections_made]. *)
Definition corrections_made (terms : list term) (target_lang : pystr) : nat :=
  length (filter snd (corrected_terms terms target_lang)).


(** A character term with the keys that term extraction writes. *)
Definition character_term (orig trans : pystr) : term :=
  mkTerm orig trans CHARACTER [] [] [] None None None None.

End NameConsistency.

(* ===================================================================== *)
(** * Regular expressions as the [re] module runs them *)
(* ===================================================================== *)

Module Re.

(** The Unicode decimal digits (category Nd, Unicode 14): each entry is
    the code point of a zero, followed by the digits one to nine. [\d]
    in a [str] pattern and [int] accept exactly these. *)
Definition decimal_zeros : list Z :=
  [48; 1632; 1776; 1984; 2406; 2534; 2662; 2790; 2918; 3046; 3174; 3302;
   3430; 3558; 3664; 3792; 3872; 4160; 4240; 6112; 6160; 6470; 6608; 6784;
   6800; 6992; 7088; 7232; 7248; 42528; 43216; 43264; 43472; 43504; 43600;
   44016; 65296; 66720; 68912; 69734; 69872; 69942; 70096; 70384; 70736;
   70864; 71248; 71360; 71472; 71904; 72016; 72784; 73040; 73120; 92768;
   92864; 93008; 120782; 120792; 120802; 120812; 120822; 123200; 123632;
   125264; 130032]%Z.

Fixpoint digit_value_in (zeros : list Z) (c : Z) : option Z :=
  match zeros with
  | [] => None
  | z :: zs =>
    if ((z <=? c) && (c <=? z + 9))%Z then Some (c - z)%Z
    else digit_value_in zs c
  end.

Definition digit_value (c : Z) : option Z := digit_value_in decimal_zeros c.

Definition isdecimal (c : Z) : bool :=
  match digit_value c with Some _ => true | None => false end.

(** The value of a non-empty run of digits with single underscores
    allowed between digits. *)
Fixpoint int_digits (acc : Z) (after_digit : bool) (s : pystr) : option Z :=
  match s with
  | [] => if after_digit then Some acc else None
  | c :: s' =>
    match digit_value c with
    | Some d => int_digits (acc * 10 + d)%Z true s'
    | None =>
      if (c =? 95)%Z && after_digit            (* '_' *)
      then match s' with
           | [] => None
           | _ => int_digits acc false s'
           end
      else None
    end
  end.

(** [int(s)] for a string: [None] stands for [ValueError]. *)
Definition py_int (s : pystr) : option Z :=
  match strip s with
  | [] => None
  | c :: s' =>
    if (c =? 45)%Z then option_map Z.opp (int_digits 0 false s')
    else if (c =? 43)%Z then int_digits 0 false s'
    else int_digits 0 false (c :: s')
  end.

(** One-character classes: a character, a range, [\d], [\s], and
    any character but a newline (the dot, and the class that excludes
    the newline). *)
Inductive cls :=
| CChar (c : Z)
| CRange (lo hi : Z)
| CDigit
| CSpace
| CNotNewline.

Definition cls_mem (p : cls) (c : Z) : bool :=
  match p with
  | CChar x => (x =? c)%Z
  | CRange lo hi => ((lo <=? c) && (c <=? hi))%Z
  | CDigit => isdecimal c
  | CSpace => isspace c
  | CNotNewline => negb (c =? NL)%Z
  end.

(** Patterns. [Chr p] is a one-character class, [Group] is the capturing
    group number 1, [Star] is the greedy [*]; the other repetition
    operators are written with these below. *)
Inductive re :=
| Eps
| Chr (p : cls)
| Seq (a b : re)
| Alt (a b : re)
| Star (a : re)
| Group (a : re)
| Bol
| Eol.

(** The backtracking matcher, in continuation-passing style: [pos] is
    the index of the next character, [s] the text from there on and
    [cap] the span of group 1 so far. Alternatives are tried in the
    order of the [re] module: left before right, one more iteration
    before leaving a [Star]. An iteration that consumes nothing ends
    the repetition. *)
Fixpoint run {A : Type} (r : re) (pos : nat) (s : pystr)
    (cap : option (nat * nat))
    (k : nat -> pystr -> option (nat * nat) -> option A) : option A :=
  match r with
  | Eps => k pos s cap
  | Chr p =>
    match s with
    | c :: s' => if cls_mem p c then k (S pos) s' cap else None
    | [] => None
    end
  | Seq a b => run a pos s cap (fun pos' s' cap' => run b pos' s' cap' k)
  | Alt a b =>
    match run a pos s cap k with
    | Some x => Some x
    | None => run b pos s cap k
    end
  | Star a =>
    (fix loop (fuel : nat) (pos : nat) (s : pystr) (cap : option (nat * nat))
       : option A :=
       match fuel with
       | O => k pos s cap
       | S fuel' =>
         match run a pos s cap
                 (fun pos' s' cap' =>
                    if pos <? pos' then loop fuel' pos' s' cap' else None) with
         | Some x => Some x
         | None => k pos s cap
         end
       end) (length s) pos s cap
  | Group a => run a pos s cap (fun pos' s' _ => k pos' s' (Some (pos, pos')))
  | Bol => if pos =? 0 then k pos s cap else None
  | Eol =>
    match s with
    | [] => k pos s cap
    | [c] => if (c =? NL)%Z then k pos s cap else None
    | _ => None
    end
  end.

(** Whether the pattern has a group 1 at all: [match.group(1)] raises
    [IndexError] when it has none. *)
Fixpoint has_group (r : re) : bool :=
  match r with
  | Seq a b | Alt a b => has_group a || has_group b
  | Star a => has_group a
  | Group _ => true
  | _ => false
  end.

(** A match object: [start()], [end()] and the span of group 1 if the
    group took part in the match. *)
Record match_obj := mkMatch {
  m_start : nat;
  m_end : nat;
  m_cap : option (nat * nat)
}.

Definition group0 (text : pystr) (m : match_obj) : pystr :=
  slice text (m_start m) (m_end m).

Definition group1 (text : pystr) (m : match_obj) : option pystr :=
  option_map (fun se => slice text (fst se) (snd se)) (m_cap m).

(** A match that starts at index [start]. *)
Definition match_at (r : re) (text : pystr) (start : nat) : option match_obj :=
  run r start (skipn start text) None
    (fun pos' _ cap => Some (mkMatch start pos' cap)).

(** [re.match(r, text)]. *)
Definition py_match (r : re) (text : pystr) : option match_obj :=
  match_at r text 0.

(** [re.search(r, text)] from index [start] on: the leftmost match. *)
Fixpoint search_from (r : re) (text : pystr) (start n : nat) : option match_obj :=
  match match_at r text start with
  | Some m => Some m
  | None =>
    match n with
    | O => None
    | S n' => search_from r text (S start) n'
    end
  end.

Definition search (r : re) (text : pystr) : option match_obj :=
  search_from r text 0 (length text).

(** [re.finditer(r, text)]: the successive non-overlapping matches. The
    patterns of this development never match the empty string; after an
    empty match the scan moves on by one character. *)
Fixpoint finditer_from (r : re) (text : pystr) (start fuel : nat) : list match_obj :=
  match fuel with
  | O => []
  | S fuel' =>
    if length text <? start then []
    else
      match search_from r text start (length text - start) with
      | None => []
      | Some m =>
        let next := if m_start m <? m_end m then m_end m else S (m_end m) in
        m :: finditer_from r text next fuel'
      end
  end.

Definition finditer (r : re) (text : pystr) : list match_obj :=
  finditer_from r text 0 (S (length text)).

(** [re.findall(r, text)]: group 1 of every match if the pattern has
    one (the empty string if it took no part), else the whole match. *)
Definition findall (r : re) (text : pystr) : list pystr :=
  map (fun m =>
         if has_group r
         then match group1 text m with Some g => g | None => [] end
         else group0 text m)
      (finditer r text).

(** [re.sub(r, '', text)]: the text without the matched spans. *)
Fixpoint remove_spans (text : pystr) (from : nat) (ms : list match_obj) : pystr :=
  match ms with
  | [] => skipn from text
  | m :: ms' => slice text from (m_start m) ++ remove_spans text (m_end m) ms'
  end.

Definition sub_empty (r : re) (text : pystr) : pystr :=
  remove_spans text 0 (finditer r text).

(** Pattern syntax. *)
Definition chr (c : Z) : re := Chr (CChar c).
Definition range (lo hi : Z) : re := Chr (CRange lo hi).
Definition digit : re := Chr CDigit.                            (* \d *)
Definition space : re := Chr CSpace.                            (* \s *)
Definition dot : re := Chr CNotNewline.                         (* . *)
Definition not_nl : re := Chr CNotNewline.                      (* [^\n] *)
Definition plus (a : re) : re := Seq a (Star a).                (* a+ *)
Definition opt (a : re) : re := Alt a Eps.                      (* a? *)

Fixpoint lit (s : pystr) : re :=
  match s with
  | [] => Eps
  | c :: s' => Seq (chr c) (lit s')
  end.

Fixpoint seq (rs : list re) : re :=
  match rs with
  | [] => Eps
  | r :: rs' => Seq r (seq rs')
  end.

Definition digits3 : re := seq [digit; digit; digit].           (* \d{3} *)

End Re.

(* ===================================================================== *)
(** * processors/translation_qa.py *)
(* ===================================================================== *)

Module TranslationQA.

Definition KOREAN : pystr := py "korean".
Definition LANGUAGE_MIXING : pystr := py "language_mixing".
Definition UNTRANSLATED_TERM : pystr := py "untranslated_term".
Definition GLOSSARY_MISMATCH : pystr := py "glossary_mismatch".
Definition ERROR : pystr := py "error".
Definition WARNING : pystr := py "warning".

(** [KOREAN_ONOMATOPOEIA]. *)
Definition KOREAN_ONOMATOPOEIA : list pystr :=
  [py "킁킁"; py "쿵"; py "쾅"; py "짝짝"; py "딩동"; py "띵동";
   py "뚝뚝"; py "졸졸"; py "철썩"; py "쨍그랑"; py "빵"; py "펑";
   py "탁"; py "딱"; py "쩝쩝"; py "찍찍"; py "끽끽"; py "끼익";
   py "삐걱"; py "덜컹"; py "쿵쿵"; py "쾅쾅"; py "두근두근";
   py "콩닥콩닥"; py "훗"; py "흥"; py "헉"; py "엉엉"; py "흑흑";
   py "앙앙"; py "깔깔"; py "히히"; py "호호"; py "끄덕끄덕"; py "푸하하";
   py "껄껄"; py "키득키득"; py "끙끙"; py "쩝"; py "푸"; py "헐";
   py "엥"; py "에잇"; py "살금살금"; py "후다닥"; py "뚜벅뚜벅";
   py "터벅터벅"; py "휘청휘청"; py "비틀비틀"; py "아장아장"; py "뒤뚱뒤뚱";
   py "사뿐사뿐"].

(** [SIMILAR_CHARACTERS]: a correct character and the characters it is
    confused with. *)
Definition SIMILAR_CHARACTERS : list (pystr * pystr) :=
  [(py "賢", py "炫玄鉉泫眩");
   (py "俊", py "浚峻駿濬");
   (py "敏", py "民珉旻玟憫");
   (py "趙", py "曹兆朝");
   (py "輝", py "煇暉徽揮");
   (py "仁", py "仁寅認");
   (py "秀", py "洙壽修守");
   (py "赫", py "赫爀嚇");
   (py "允", py "尹潤倫");
   (py "濟", py "済祭制");
   (py "雅", py "亞娥芽")].

Definition similar_of (c : Z) : option pystr := dict_get [c] SIMILAR_CHARACTERS.

(** Truth value of a string, and of an optional string. *)
Definition truthy (s : pystr) : bool :=
  match s with [] => false | _ :: _ => true end.

Definition truthy_opt (s : option pystr) : bool :=
  match s with Some (_ :: _) => true | _ => false end.

Definition QUOTE : Z := 34.
Definition quoted (s : pystr) : pystr := QUOTE :: s ++ [QUOTE].

(** [QAIssue]. *)
Record QAIssue := mkIssue {
  issue_type : pystr;
  severity : pystr;
  text : pystr;
  message : pystr;
  position : option nat;
  expected : option pystr;
  issue_context : option pystr
}.

(** [QAResult] with its two counting properties. *)
Record QAResult := mkResult {
  passed : bool;
  issues : list QAIssue;
  episode_number : option Z
}.

Definition is_error (i : QAIssue) : bool := str_eqb (severity i) ERROR.
Definition is_warning (i : QAIssue) : bool := str_eqb (severity i) WARNING.

Definition error_count (r : QAResult) : nat := length (filter is_error (issues r)).
Definition warning_count (r : QAResult) : nat := length (filter is_warning (issues r)).

(** The attributes of a [TranslationQAValidator]. *)
Record validator := mkValidator {
  source_lang : pystr;
  target_lang : pystr;
  glossary : list term;                (* glossary['terms'] *)
  skip_language_mixing : bool;
  term_map : dict pystr;
  char_terms : list term;
  known_variants : dict pystr
}.

(** [_normalize_language]; [lower] is [str.lower]. *)
Definition normalize_language (lower : pystr -> pystr) (lang : pystr) : pystr :=
  let lang_map :=
    [(py "korean", py "korean"); (py "japanese", py "japanese");
     (py "taiwanese", py "chinese"); (py "traditional_chinese", py "chinese");
     (py "chinese", py "chinese"); (py "mandarin", py "chinese")] in
  match dict_get (lower lang) lang_map with
  | Some l => l
  | None => lower lang
  end.

(** One round of the loop of [_build_lookup_tables]. *)
Record tables := mkTables {
  t_term_map : dict pystr;
  t_char_terms : list term;
  t_known_variants : dict pystr
}.

Definition add_variants (trans : pystr) (variants : list pystr) (kv : dict pystr)
    : dict pystr :=
  fold_left (fun kv variant =>
               if truthy variant && negb (str_eqb variant trans)
               then dict_set variant trans kv else kv)
            variants kv.

Definition lookup_step (tb : tables) (t : term) : tables :=
  if truthy (original t) && truthy (translation t) then
    mkTables
      (dict_set (original t) (translation t) (t_term_map tb))
      (if str_eqb (category t) NameConsistency.CHARACTER
       then t_char_terms tb ++ [t] else t_char_terms tb)
      (add_variants (translation t) (known_wrong_variants t) (t_known_variants tb))
  else tb.

Definition build_lookup_tables (terms : list term) : tables :=
  fold_left lookup_step terms (mkTables [] [] []).

(** [TranslationQAValidator(source_lang, target_lang, glossary,
    skip_language_mixing)]. *)
Definition new_validator (lower : pystr -> pystr) (src tgt : pystr)
    (terms : list term) (skip : option bool) : validator :=
  let tb := build_lookup_tables terms in
  mkValidator src tgt terms
    match skip with
    | Some b => b
    | None => str_eqb (normalize_language lower src) (normalize_language lower tgt)
    end
    (t_term_map tb) (t_char_terms tb) (t_known_variants tb).

(** The Hangul syllable pattern [[가-힯]+]. *)
Definition korean_pattern : Re.re := Re.plus (Re.range 44032 55215).

Definition MSG_ONOMATOPOEIA : pystr := py "의성어/의태어 유지됨 (스타일 선택): ".
Definition MSG_KOREAN_FOUND : pystr := py "소스 언어(한국어) 발견: ".
Definition MSG_UNTRANSLATED : pystr := py "번역되지 않은 용어: ".
Definition MSG_WRONG_VARIANT : pystr := py "잘못된 번역 변형: ".
Definition MSG_MISMATCH : pystr := py "용어 불일치: ".
Definition MSG_ARROW : pystr := py " → ".
Definition MSG_NEEDED : pystr := py " 사용 필요".

(** [text[max(0, pos - before) : min(len(text), pos + n + after)]]. *)
Definition context_around (txt : pystr) (pos n margin : nat) : pystr :=
  slice txt (pos - margin) (Nat.min (length txt) (pos + n + margin)).

(** The issue reported for one match of the Hangul pattern. *)
Definition mixing_issue (txt : pystr) (m : Re.match_obj) : QAIssue :=
  let korean_text := Re.group0 txt m in
  let pos := Re.m_start m in
  let ctx := context_around txt pos (length korean_text) 30 in
  if mem korean_text KOREAN_ONOMATOPOEIA
  then mkIssue LANGUAGE_MIXING WARNING korean_text
         (MSG_ONOMATOPOEIA ++ quoted korean_text) (Some pos) None (Some ctx)
  else mkIssue LANGUAGE_MIXING ERROR korean_text
         (MSG_KOREAN_FOUND ++ quoted korean_text) (Some pos) None (Some ctx).

(** [check_language_mixing]. *)
Definition check_language_mixing (v : validator) (txt : pystr) : list QAIssue :=
  if negb (str_eqb (source_lang v) KOREAN) then []
  else map (mixing_issue txt) (Re.finditer korean_pattern txt).

(** The start indexes found by the [text.find(sub, pos)] loop. *)
Fixpoint occurrences_from (fuel : nat) (sub txt : pystr) (pos : nat) : list nat :=
  match fuel with
  | O => []
  | S fuel' =>
    match find sub (skipn pos txt) with
    | None => []
    | Some i => (pos + i) :: occurrences_from fuel' sub txt (pos + i + length sub)
    end
  end.

(** [_get_similar_alternatives]: the renderings with one character
    replaced by a confusable one. The source collects them in a [set];
    here they are listed in the order of generation, each one once. *)
Fixpoint alternatives_from (pre post : pystr) : list pystr :=
  match post with
  | [] => []
  | c :: post' =>
    match similar_of c with
    | Some alts =>
      map (fun alt_char => pre ++ alt_char :: post')
          (filter (fun alt_char => negb (alt_char =? c)%Z) alts)
    | None => []
    end ++ alternatives_from (pre ++ [c]) post'
  end.

Fixpoint dedup (l : list pystr) : list pystr :=
  match l with
  | [] => []
  | x :: l' => x :: filter (fun y => negb (str_eqb x y)) (dedup l')
  end.

Definition get_similar_alternatives (s : pystr) : list pystr :=
  dedup (alternatives_from [] s).

(** [check_glossary_consistency]: its three loops. *)
Definition untranslated_issues (v : validator) (txt : pystr) : list QAIssue :=
  flat_map (fun kv : pystr * pystr =>
              let (orig, exp) := kv in
              if contains orig txt
              then [mkIssue UNTRANSLATED_TERM ERROR orig
                      (MSG_UNTRANSLATED ++ quoted orig ++ MSG_ARROW ++ quoted exp)
                      None (Some exp) None]
              else [])
           (term_map v).

Definition variant_issues (v : validator) (txt : pystr) : list QAIssue :=
  flat_map (fun kv : pystr * pystr =>
              let (wrong_variant, correct) := kv in
              if contains wrong_variant txt
              then map (fun pos =>
                          mkIssue GLOSSARY_MISMATCH ERROR wrong_variant
                            (MSG_WRONG_VARIANT ++ quoted wrong_variant ++ MSG_ARROW
                             ++ quoted correct ++ MSG_NEEDED)
                            (Some pos) (Some correct)
                            (Some (context_around txt pos (length wrong_variant) 20)))
                       (occurrences_from (S (length txt)) wrong_variant txt 0)
              else [])
           (known_variants v).

Definition similar_issues (v : validator) (txt : pystr) : list QAIssue :=
  flat_map (fun t : term =>
              let exp := translation t in
              flat_map (fun alt =>
                          if contains alt txt && negb (str_eqb alt exp)
                          then
                            let pos := match find alt txt with
                                       | Some p => p
                                       | None => 0
                                       end in
                            [mkIssue GLOSSARY_MISMATCH ERROR alt
                               (MSG_MISMATCH ++ quoted alt ++ MSG_ARROW
                                ++ quoted exp ++ MSG_NEEDED)
                               None (Some exp)
                               (Some (context_around txt pos (length alt) 20))]
                          else [])
                       (get_similar_alternatives exp))
           (char_terms v).

Definition check_glossary_consistency (v : validator) (txt : pystr) : list QAIssue :=
  untranslated_issues v txt ++ variant_issues v txt ++ similar_issues v txt.

(** [validate]. *)
Definition validate (v : validator) (txt : pystr) (episode : option Z) : QAResult :=
  if skip_language_mixing v then mkResult true [] episode
  else
    let found := check_language_mixing v txt ++ check_glossary_consistency v txt in
    mkResult (length (filter is_error found) =? 0) found episode.

(** What the loop of a fix pass did with one issue: applied a
    replacement (to the working text [before], giving [after]), kept the
    issue as unfixed, or skipped it because its text did not occur in
    the working text. The log is not part of what [auto_fix] returns; it
    is there to state what happened to each issue. *)
Inductive outcome :=
| Fixed (before after : pystr)
| Unfixed
| Skipped (working : pystr).

Definition is_fixed (e : QAIssue * outcome) : bool :=
  match snd e with Fixed _ _ => true | _ => false end.
Definition is_unfixed (e : QAIssue * outcome) : bool :=
  match snd e with Unfixed => true | _ => false end.
Definition is_skipped (e : QAIssue * outcome) : bool :=
  match snd e with Skipped _ => true | _ => false end.

(** The answer of [llm_processor.execute] to a [translate_segment]
    request: an exception, or a result whose ['output'] is the given
    string (empty when the result or its output is missing or empty). *)
Inductive llm_response :=
| Raises
| Returns (output : pystr).

Section AutoFix.

(** The backend: its state, and the call that translates a Korean
    segment for a target language, given the context and the glossary. *)
Variable llm_state : Type.
Variable llm_execute :
  llm_state -> pystr -> pystr -> pystr -> list term -> llm_response * llm_state.

(** The variables of a fix loop. *)
Record fix_state := mkFix {
  fixed_text : pystr;
  fixed_count : nat;
  unfixed_issues : list QAIssue;
  fix_log : list (QAIssue * outcome)
}.

(** The literal replacement shared by the [glossary_mismatch] and the
    [untranslated_term] branches. *)
Definition replace_step (st : fix_state) (i : QAIssue) (exp : pystr) : fix_state :=
  if contains (text i) (fixed_text st) then
    let after := replace (text i) exp (fixed_text st) in
    mkFix after (S (fixed_count st)) (unfixed_issues st)
          (fix_log st ++ [(i, Fixed (fixed_text st) after)])
  else
    mkFix (fixed_text st) (fixed_count st) (unfixed_issues st)
          (fix_log st ++ [(i, Skipped (fixed_text st))]).

Definition expected_or_empty (i : QAIssue) : pystr :=
  match expected i with Some e => e | None => [] end.

(** Body of the first loop of [auto_fix]: the state, and the
    [language_mixing] issues collected for the backend. *)
Definition direct_step (acc : fix_state * list QAIssue) (i : QAIssue)
    : fix_state * list QAIssue :=
  let (st, mixing) := acc in
  if str_eqb (issue_type i) GLOSSARY_MISMATCH && truthy_opt (expected i) then
    (replace_step st i (expected_or_empty i), mixing)
  else if str_eqb (issue_type i) LANGUAGE_MIXING && str_eqb (severity i) ERROR then
    (st, mixing ++ [i])
  else if str_eqb (issue_type i) UNTRANSLATED_TERM && truthy_opt (expected i) then
    (replace_step st i (expected_or_empty i), mixing)
  else
    (mkFix (fixed_text st) (fixed_count st) (unfixed_issues st ++ [i])
           (fix_log st ++ [(i, Unfixed)]), mixing).

(** The target language name sent to the backend. *)
Definition backend_target (v : validator) : pystr :=
  let target_lang_map :=
    [(py "japanese", py "japanese"); (py "traditional_chinese", py "taiwanese");
     (py "taiwanese", py "taiwanese")] in
  match dict_get (target_lang v) target_lang_map with
  | Some t => t
  | None => target_lang v
  end.

Definition has_korean (s : pystr) : bool :=
  match Re.search korean_pattern s with Some _ => true | None => false end.

(** Body of the loop of [_fix_language_mixing]. *)
Definition mixing_step (v : validator) (acc : fix_state * llm_state) (i : QAIssue)
    : fix_state * llm_state :=
  let (st, llm) := acc in
  let korean_text := text i in
  let ctx := match issue_context i with Some c => c | None => [] end in
  if negb (contains korean_text (fixed_text st)) then
    (mkFix (fixed_text st) (fixed_count st) (unfixed_issues st)
           (fix_log st ++ [(i, Skipped (fixed_text st))]), llm)
  else
    let (resp, llm') := llm_execute llm korean_text (backend_target v) ctx (glossary v) in
    let keep := mkFix (fixed_text st) (fixed_count st) (unfixed_issues st ++ [i])
                      (fix_log st ++ [(i, Unfixed)]) in
    match resp with
    | Raises => (keep, llm')
    | Returns output =>
      if truthy output then
        let translated := strip output in
        if negb (has_korean translated) then
          let after := replace_first korean_text translated (fixed_text st) in
          (mkFix after (S (fixed_count st)) (unfixed_issues st)
                 (fix_log st ++ [(i, Fixed (fixed_text st) after)]), llm')
        else (keep, llm')
      else (keep, llm')
    end.

(** [_fix_language_mixing(text, issues, llm_processor)]. *)
Definition fix_language_mixing (v : validator) (txt : pystr)
    (todo : list QAIssue) (llm : llm_state) : fix_state * llm_state :=
  fold_left (mixing_step v) todo (mkFix txt 0 [] [], llm).

(** [auto_fix(text, issues, llm_processor)] with its log;
    [llm_processor] is [None] or a backend. *)
Definition auto_fix_run (v : validator) (txt : pystr) (todo : list QAIssue)
    (llm : option llm_state) : fix_state * option llm_state :=
  let (st, mixing) := fold_left direct_step todo (mkFix txt 0 [] [], []) in
  match mixing, llm with
  | _ :: _, Some l =>
    let (mst, l') := fix_language_mixing v (fixed_text st) mixing l in
    (mkFix (fixed_text mst) (fixed_count st + fixed_count mst)
           (unfixed_issues st ++ unfixed_issues mst)
           (fix_log st ++ fix_log mst), Some l')
  | _ :: _, None =>
    (mkFix (fixed_text st) (fixed_count st) (unfixed_issues st ++ mixing)
           (fix_log st ++ map (fun i => (i, Unfixed)) mixing), None)
  | [], _ => (st, llm)
  end.

(** The triple that [auto_fix] returns. *)
Definition auto_fix (v : validator) (txt : pystr) (todo : list QAIssue)
    (llm : option llm_state) : pystr * nat * list QAIssue :=
  let st := fst (auto_fix_run v txt todo llm) in
  (fixed_text st, fixed_count st, unfixed_issues st).

(** The issues that [auto_fix] can replace literally, and those it
    hands to the backend. *)
Definition has_literal_fix (i : QAIssue) : bool :=
  (str_eqb (issue_type i) GLOSSARY_MISMATCH
   || str_eqb (issue_type i) UNTRANSLATED_TERM)
  && truthy_opt (expected i).

Definition is_mixing_error (i : QAIssue) : bool :=
  str_eqb (issue_type i) LANGUAGE_MIXING && str_eqb (severity i) ERROR.

(** What a log entry says about its issue. A fix was applied to a
    working text [before] that contained the issue's text, and [after]
    is either that text with every occurrence replaced by the expected
    text, for an issue with a literal fix, or that text with the first
    occurrence replaced by the stripped, non-empty, Hangul-free answer
    of the backend for this segment, for a language-mixing error. An
    issue kept as unfixed has no literal fix. A skipped issue's text was
    absent from the working text. *)
Definition entry_ok (v : validator) (e : QAIssue * outcome) : Prop :=
  let i := fst e in
  match snd e with
  | Fixed before after =>
    contains (text i) before = true /\
    ((has_literal_fix i = true /\
      after = replace (text i) (expected_or_empty i) before)
     \/
     (is_mixing_error i = true /\
      exists llm llm' output,
        llm_execute llm (text i) (backend_target v)
          match issue_context i with Some c => c | None => [] end
          (glossary v) = (Returns output, llm') /\
        truthy output = true /\
        has_korean (strip output) = false /\
        after = replace_first (text i) (strip output) before))
  | Unfixed => has_literal_fix i = false
  | Skipped working =>
    contains (text i) working = false /\
    (has_literal_fix i = true \/ is_mixing_error i = true)
  end.

(** The working text through a log: every entry was made on the text
    that the entries before it had produced, from [txt] to [final]. *)
Fixpoint log_chain (txt : pystr) (log : list (QAIssue * outcome))
    (final : pystr) : Prop :=
  match log with
  | [] => final = txt
  | (_, Fixed before after) :: rest =>
    before = txt /\ log_chain after rest final
  | (_, Unfixed) :: rest => log_chain txt rest final
  | (_, Skipped working) :: rest =>
    working = txt /\ log_chain txt rest final
  end.

(** The counters and the text of a fix loop that started on [txt] agree
    with its log. *)
Definition log_consistent (v : validator) (txt : pystr) (st : fix_state) : Prop :=
  fixed_count st = length (filter is_fixed (fix_log st)) /\
  unfixed_issues st = map fst (filter is_unfixed (fix_log st)) /\
  Forall (entry_ok v) (fix_log st) /\
  log_chain txt (fix_log st) (fixed_text st).

(** Invariant of the first loop: the logged issues and the collected
    ones, which are language-mixing errors, are the issues seen so
    far. *)
Definition direct_inv (v : validator) (txt : pystr)
    (acc : fix_state * list QAIssue) (seen : list QAIssue) : Prop :=
  log_consistent v txt (fst acc) /\
  Permutation (map fst (fix_log (fst acc)) ++ snd acc) seen /\
  Forall (fun i => is_mixing_error i = true) (snd acc).

(** Invariant of the second loop, over language-mixing errors. *)
Definition mixing_inv (v : validator) (txt : pystr)
    (acc : fix_state * llm_state) (seen : list QAIssue) : Prop :=
  Forall (fun i => is_mixing_error i = true) seen ->
  log_consistent v txt (fst acc) /\ map fst (fix_log (fst acc)) = seen.

End AutoFix.

End TranslationQA.

(* ===================================================================== *)
(** * stage_02a_translation_qa.py: the retry loop of run_stage_2a *)
(* ===================================================================== *)

Module Stage2a.
Import TranslationQA.

(** An entry of [LANGUAGE_CONFIG]. *)
Record language_config := mkConfig {
  cfg_source_lang : pystr;
  cfg_target_lang : pystr;
  cfg_skip_language_mixing : bool
}.

Definition LANGUAGE_CONFIG : list (pystr * language_config) :=
  [(py "korean", mkConfig (py "korean") (py "korean") true);
   (py "japanese", mkConfig (py "korean") (py "japanese") false);
   (py "taiwanese", mkConfig (py "korean") (py "traditional_chinese") false)].

(** A translated episode file as [json.load] gives it: an object with
    an integer ['episode_number'] (0 when the key is absent) and a
    string ['content'] (the empty string when it is absent), and whether
    the file can be opened for writing. *)
Record episode_file := mkFile {
  file_episode_number : Z;
  file_content : pystr;
  file_writable : bool
}.

(** An entry of [episodes], the sorted list of the folder's
    episode_*.json files: a file that the loop opens and parses as such
    an object, or a file that it cannot open or parse. The exception of
    the latter is caught by the [try] of the loop, which reports the
    file and goes on with the next one. *)
Inductive episode_entry :=
| Unreadable
| Readable (f : episode_file).

(** The files of [episodes] that the loop reads. *)
Definition readable_files (entries : list episode_entry) : list episode_file :=
  flat_map (fun e => match e with
                     | Unreadable => []
                     | Readable f => [f]
                     end) entries.

(** What one pass of the [while] loop leaves in [lang_results],
    [lang_errors], [lang_warnings] and [lang_fixed]. *)
Record pass_summary := mkPass {
  lang_results : list QAResult;
  lang_errors : nat;
  lang_warnings : nat;
  lang_fixed : nat
}.

Section RetryLoop.

Variable llm_state : Type.
Variable llm_execute :
  llm_state -> pystr -> pystr -> pystr -> list term -> llm_response * llm_state.

(** The arguments of [run_stage_2a] that the loop reads, with the loaded
    glossary and the language's configuration. *)
Variable auto_fix_enabled : bool.
Variable max_retries : nat.
Variable glossary_terms : list term.
Variable config : language_config.

(** The variables of the [for episode_file in episodes] loop. *)
Record pass_state := mkPassState {
  summary : pass_summary;
  written : list episode_entry;          (* the files, as rewritten so far *)
  backend : option llm_state
}.

(** Body of the loop over the episode files, with its [try]: a file
    that cannot be read leaves the counters as they are; a fixed text
    that cannot be written back is not counted in [lang_fixed], the
    result and its errors and warnings having been counted before. *)
Definition episode_step (v : validator) (st : pass_state) (e : episode_entry)
    : pass_state :=
  match e with
  | Unreadable => mkPassState (summary st) (written st ++ [e]) (backend st)
  | Readable f =>
    let result := validate v (file_content f) (Some (file_episode_number f)) in
    let s := summary st in
    let errors := lang_errors s + error_count result in
    let warnings := lang_warnings s + warning_count result in
    let results := lang_results s ++ [result] in
    match auto_fix_enabled, issues result with
    | true, _ :: _ =>
      let (fx, backend') :=
        auto_fix_run llm_execute v (file_content f) (issues result) (backend st) in
      if (0 <? fixed_count fx) && file_writable f then
        mkPassState (mkPass results errors warnings (lang_fixed s + fixed_count fx))
                    (written st
                     ++ [Readable (mkFile (file_episode_number f) (fixed_text fx)
                                          (file_writable f))])
                    backend'
      else
        mkPassState (mkPass results errors warnings (lang_fixed s))
                    (written st ++ [e]) backend'
    | _, _ =>
      mkPassState (mkPass results errors warnings (lang_fixed s))
                  (written st ++ [e]) (backend st)
    end
  end.

(** One pass: a new validator, then every episode file in turn. *)
Definition validation_pass (files : list episode_entry) (llm : option llm_state)
    : pass_state :=
  let v := new_validator ascii_lower (cfg_source_lang config)
             (cfg_target_lang config) glossary_terms
             (Some (cfg_skip_language_mixing config)) in
  fold_left (episode_step v) files (mkPassState (mkPass [] 0 0 0) [] llm).

(** The state of the retry loop: the passes made so far, oldest first
    (so that [retry_count] is their number), [cumulative_fixed], the
    files and the backend. *)
Record loop_state := mkLoop {
  passes : list pass_summary;
  cumulative_fixed : nat;
  files_now : list episode_entry;
  backend_now : option llm_state
}.

Definition retry_count (st : loop_state) : nat := length (passes st).

(** [while retry_count < max_retries]: [budget] is what is left of
    [max_retries]. The three [break]s are the three [true] branches. *)
Fixpoint retry_loop (budget : nat) (st : loop_state) : loop_state :=
  match budget with
  | O => st
  | S budget' =>
    let p := validation_pass (files_now st) (backend_now st) in
    let s := summary p in
    let st' := mkLoop (passes st ++ [s]) (cumulative_fixed st + lang_fixed s)
                      (written p) (backend p) in
    let lang_passed := lang_errors s =? 0 in
    if lang_passed then st'
    else if negb auto_fix_enabled then st'
    else if (lang_fixed s =? 0) && (0 <? lang_errors s) then st'
    else retry_loop budget' st'
  end.

Definition run_retries (files : list episode_entry) (llm : option llm_state)
    : loop_state :=
  retry_loop max_retries (mkLoop [] 0 files llm).

(** The entry of [all_results] for the language: the figures of the last
    pass, [cumulative_fixed] and the number of passes. With a
    [max_retries] of zero no pass is made and the function fails on the
    unbound [lang_results]: [None]. *)
Record language_report := mkReport {
  report_results : list QAResult;
  report_error_count : nat;
  report_warning_count : nat;
  report_fixed_count : nat;
  report_passed : bool;
  report_retries : nat
}.

Definition language_result (files : list episode_entry) (llm : option llm_state)
    : option language_report :=
  let st := run_retries files llm in
  match rev (passes st) with
  | [] => None
  | s :: _ =>
    Some (mkReport (lang_results s) (lang_errors s) (lang_warnings s)
                   (cumulative_fixed st) (lang_errors s =? 0) (retry_count st))
  end.

End RetryLoop.

End Stage2a.

(* ===================================================================== *)
(** * processors/llm_episode_splitter.py *)
(* ===================================================================== *)

Module Splitter.
Import Re.

(** A pattern as the code holds it: the source text, which the code
    tests and compares as a string, and what [re.compile] makes of it
    ([None] when compilation raises [re.error]). *)
Record regex := mkRegex {
  source : pystr;
  compiled : option re
}.

Definition STAR3 : pystr := py "* * *".
Definition DOLLAR : Z := 36.
Definition HASH : Z := 35.
Definition SLASH : Z := 47.
Definition FULLSTOP : Z := 46.
Definition HWA : Z := 54868.      (* 화 *)
Definition DAI : Z := 31532.      (* 第 *)
Definition WA : Z := 35441.       (* 話 *)
Definition JE : Z := 51228.       (* 제 *)

(** [KNOWN_PATTERNS], in the order of the dictionary. *)
Definition KNOWN_PATTERNS : list (pystr * regex) :=
  [(py "#N화",
    mkRegex (py "^#(\d+)화\s*$")
      (Some (seq [Bol; chr HASH; Group (plus digit); chr HWA; Star space; Eol])));
   (py "$N화",
    mkRegex (py "^\$(\d+)화\s*$")
      (Some (seq [Bol; chr DOLLAR; Group (plus digit); chr HWA; Star space; Eol])));
   (py "$NNN",
    mkRegex (py "^\$(\d{3})")
      (Some (seq [Bol; chr DOLLAR; Group digits3])));
   (py "* * *$NNN",
    mkRegex (py "^\* \* \*\$(\d{3})")
      (Some (seq [Bol; lit STAR3; chr DOLLAR; Group digits3])));
   (py "$NNN+* * *$NNN",
    mkRegex (py "^(?:\* \* \*)?\$(\d{3})")
      (Some (seq [Bol; opt (lit STAR3); chr DOLLAR; Group digits3])));
   (py "第N話",
    mkRegex (py "^第(\d+)話\s*$")
      (Some (seq [Bol; chr DAI; Group (plus digit); chr WA; Star space; Eol])));
   (py "제N화",
    mkRegex (py "^제(\d+)화\s*$")
      (Some (seq [Bol; chr JE; Group (plus digit); chr HWA; Star space; Eol])));
   (py "N. Title (N)",
    mkRegex (py "^(\d+)\. .+ \(\d+\)")
      (Some (seq [Bol; Group (plus digit); chr FULLSTOP; chr 32; plus dot;
                  chr 32; chr 40; plus digit; chr 41])));
   (py "NN. Title",
    mkRegex (py "^(\d+)\. .+")
      (Some (seq [Bol; Group (plus digit); chr FULLSTOP; chr 32; plus dot])));
   (py "//N",
    mkRegex (py "^//(\d+)\s*$")
      (Some (seq [Bol; chr SLASH; chr SLASH; Group (plus digit); Star space; Eol])))].

(** [INLINE_EPISODE_PATTERN]. *)
Definition INLINE_EPISODE_PATTERN : regex :=
  mkRegex (py "\$(\d{3})") (Some (seq [chr DOLLAR; Group digits3])).

(** [TRAILING_EPISODE_PATTERNS], compiled. *)
Definition TRAILING_EPISODE_PATTERNS : list re :=
  let nl_s := [chr NL; Star space] in
  [seq (nl_s ++ [chr HASH; plus digit; chr HWA; Star space; Eol]);
   seq (nl_s ++ [chr DOLLAR; digits3; Star space; Eol]);
   seq (nl_s ++ [lit STAR3; chr DOLLAR; digits3]);
   seq (nl_s ++ [lit STAR3; Star space; Eol]);
   seq (nl_s ++ [chr DAI; plus digit; chr WA; Star space; Eol]);
   seq (nl_s ++ [chr JE; plus digit; chr HWA; Star space; Eol]);
   seq (nl_s ++ [plus digit; chr HWA; Star space; Eol]);
   seq (nl_s ++ [chr SLASH; chr SLASH; plus digit; Star space; Eol]);
   seq (nl_s ++ [plus digit; chr FULLSTOP; Star space; plus not_nl; Eol])].

(** The loop of [clean_trailing_episode_marker]: the first pattern
    found cuts the content. *)
Fixpoint cut_first_marker (patterns : list re) (cleaned : pystr) : pystr :=
  match patterns with
  | [] => cleaned
  | p :: ps =>
    match search p cleaned with
    | Some m => rstrip (firstn (m_start m) cleaned)
    | None => cut_first_marker ps cleaned
    end
  end.

(** [clean_trailing_episode_marker]. *)
Definition clean_trailing_episode_marker (content : pystr) : pystr :=
  cut_first_marker TRAILING_EPISODE_PATTERNS (rstrip content).

(** An episode dictionary. *)
Record episode := mkEpisode {
  number : Z;
  title : option pystr;
  content : pystr
}.

(** An entry of [pattern_info['patterns']], a JSON object. *)
Record pattern_entry := mkEntry {
  entry_separator_pattern : field pystr;
  entry_pattern_examples : field (list pystr);
  entry_pattern_regex : field regex
}.

(** [special_episodes], when it is a JSON object:
    [special.get('epilogue')]. *)
Record special := mkSpecial {
  sp_epilogue : option pystr
}.

(** [pattern_info], a JSON object: the dictionary that direct detection
    builds, or the one parsed from the backend's answer. Every key can
    be absent or null; a value that is there has the type that the
    prompt's response format gives it. The keys that the code only
    passes through ('language', 'notes', the prologue and extras hints)
    are left out. *)
Record pattern_info := mkInfo {
  is_multi_episode : field bool;
  patterns : field (list pattern_entry);
  primary_pattern : field pystr;
  separator_pattern : field pystr;
  pattern_examples : field (list pystr);
  pattern_regex : field regex;
  estimated_episodes : field Z;
  confidence : field Z;
  special_episodes : field special;
  use_inline_split : field bool
}.

(** [line.strip().lstrip(BOM)]. *)
Definition strip_line (line : pystr) : pystr := lstrip_bom (strip line).

(** The matches of one known pattern over the lines: [match.group(0)]
    of every line that matches. *)
Definition line_matches (r : re) (lines : list pystr) : list pystr :=
  flat_map (fun line =>
              let line_stripped := strip_line line in
              match py_match r line_stripped with
              | Some m => [group0 line_stripped m]
              | None => []
              end) lines.

(** [pattern_counts] and [pattern_examples]: one entry, in the order of
    [KNOWN_PATTERNS], for every pattern that matched some line. *)
Definition count_known_patterns (lines : list pystr)
    : dict (nat * list pystr) :=
  flat_map (fun kv : pystr * regex =>
              match compiled (snd kv) with
              | Some r =>
                match line_matches r lines with
                | [] => []
                | ms => [(fst kv, (length ms, firstn 5 ms))]
                end
              | None => []
              end) KNOWN_PATTERNS.

Definition pattern_count (name : pystr) (counts : dict (nat * list pystr))
    : option nat := option_map fst (dict_get name counts).

(** [max(pattern_counts.values())], 0 for an empty dictionary. *)
Definition max_count (counts : dict (nat * list pystr)) : nat :=
  fold_left (fun acc kv => Nat.max acc (fst (snd kv))) counts 0.

(** [max(pattern_counts, key=pattern_counts.get)]: the first key, in
    dictionary order, whose count is the largest. *)
Fixpoint best_of (counts : dict (nat * list pystr))
    (best : pystr * (nat * list pystr)) : pystr * (nat * list pystr) :=
  match counts with
  | [] => best
  | kv :: rest =>
    if fst (snd best) <? fst (snd kv) then best_of rest kv else best_of rest best
  end.

(** The number of distinct values in a list of integers. *)
Fixpoint distinct (l : list Z) : list Z :=
  match l with
  | [] => []
  | x :: l' => x :: filter (fun y => negb (x =? y)%Z) (distinct l')
  end.

Definition INLINE_NAME : pystr := py "$NNN (inline)".
Definition COMBINED_NAME : pystr := py "$NNN+* * *$NNN".
Definition NNN_NAME : pystr := py "$NNN".
Definition STAR_NNN_NAME : pystr := py "* * *$NNN".

Definition known_regex (name : pystr) : option regex := dict_get name KNOWN_PATTERNS.

Definition is_known (name : option pystr) : bool :=
  match name with
  | Some n => match known_regex n with Some _ => true | None => false end
  | None => false
  end.

Definition truthy_list {A : Type} (l : list A) : bool :=
  match l with [] => false | _ :: _ => true end.

(** [KNOWN_PATTERNS[name]] as a value of a dictionary; the names that
    direct detection looks up are keys. *)
Definition known_field (name : pystr) : field regex :=
  match known_regex name with
  | Some r => Val r
  | None => Absent
  end.

(** The dictionary that direct detection returns for one pattern; only
    the inline one has the key 'use_inline_split'. *)
Definition direct_info (name : pystr) (examples : list pystr) (r : field regex)
    (estimated : nat) (inline : bool) : pattern_info :=
  mkInfo (Val true) (Val [mkEntry (Val name) (Val examples) r]) (Val name)
         Absent Absent r (Val (Z.of_nat estimated)) (Val 95%Z)
         (Val (mkSpecial None)) (if inline then Val true else Absent).

(** [_detect_known_pattern_directly]. The comparison
    [inline_count > max_line_start_count * 1.5] is made on integers,
    doubled; it is exact in double precision for any count that fits. *)
Definition detect_known_pattern_directly (text : pystr) : option pattern_info :=
  let lines := lines_of text in
  let counts := count_known_patterns lines in
  let inline_matches :=
    match compiled INLINE_EPISODE_PATTERN with
    | Some r => findall r text
    | None => []
    end in
  let inline_count :=
    length (distinct (flat_map (fun m => match py_int m with
                                         | Some z => [z]
                                         | None => []
                                         end) inline_matches)) in
  let max_line_start_count := max_count counts in
  if truthy_list inline_matches && (3 * max_line_start_count <? 2 * inline_count)
  then
    Some (direct_info INLINE_NAME
            (map (fun m => DOLLAR :: m) (firstn 5 inline_matches))
            (Val INLINE_EPISODE_PATTERN) inline_count true)
  else
    match counts with
    | [] => None
    | first :: rest =>
      match pattern_count NNN_NAME counts, pattern_count STAR_NNN_NAME counts with
      | Some n1, Some n2 =>
        let ex1 := match dict_get NNN_NAME counts with
                   | Some e => snd e | None => [] end in
        let ex2 := match dict_get STAR_NNN_NAME counts with
                   | Some e => snd e | None => [] end in
        Some (direct_info COMBINED_NAME (firstn 5 (ex1 ++ ex2))
                (known_field COMBINED_NAME) (n1 + n2) false)
      | _, _ =>
        let best := best_of rest first in
        let count := fst (snd best) in
        if count <? 3 then None
        else Some (direct_info (fst best) (snd (snd best))
                     (known_field (fst best)) count false)
      end
    end.


(** ** Splitting *)

(** The result of a call: a value, an exception, or the end of the
    recursion budget that bounds the regex/LLM fallback cycle. *)
Inductive res (A : Type) :=
| Ok (a : A)
| Raise
| OutOfFuel.
Arguments Ok {A} a.
Arguments Raise {A}.
Arguments OutOfFuel {A}.

(** What the backend answers, after JSON parsing. Detection: an
    exception (or unusable JSON), or a pattern dictionary. Titles: an
    exception, or the ['results'] list. Splitting: an exception,
    malformed JSON ([JSONDecodeError]), or the ['episodes'] list. *)
Inductive detect_response :=
| DetectRaises
| DetectReturns (info : pattern_info).

Record title_item := mkItem {
  item_idx : option Z;
  item_title : option pystr;
  item_title_line_idx : option Z
}.

Inductive titles_response :=
| TitlesRaises
| TitlesReturns (results : list title_item).

Inductive split_response :=
| SplitRaises
| SplitMalformed
| SplitReturns (episodes : list episode).

(** An entry of [episode_samples]. *)
Record title_sample := mkSample {
  sample_idx : nat;
  sample_number : Z;
  sample_first_lines : list pystr
}.

Definition truthy (s : pystr) : bool :=
  match s with [] => false | _ :: _ => true end.

Definition truthy_opt (s : option pystr) : bool :=
  match s with Some (_ :: _) => true | _ => false end.

Definition truthy_regex (r : option regex) : bool :=
  match r with Some x => truthy (source x) | None => false end.

Definition single_episode (text : pystr) : list episode :=
  [mkEpisode 1 None text].

(** [episodes = [ep for ep in episodes if ep['content'].strip()]]. *)
Definition drop_empty (eps : list episode) : list episode :=
  filter (fun ep => truthy (strip (content ep))) eps.

(** The state of a line loop: [episodes], [current_episode] and
    [current_content]. *)
Record line_state := mkLines {
  done_episodes : list episode;
  current_episode : option Z;
  current_content : list pystr
}.

(** "Save previous episode". *)
Definition save_previous (st : line_state) : list episode :=
  match current_episode st with
  | Some n =>
    done_episodes st
    ++ [mkEpisode n None
          (clean_trailing_episode_marker (strip (unlines (current_content st))))]
  | None => done_episodes st
  end.

(** The episode number of a separator line: [int(match.group(1))], or,
    for a pattern without a group, the first run of digits of the match;
    without digits the loop goes on ([continue]). *)
Inductive number_result :=
| Number (z : Z)
| NoNumber
| NumberRaises.

Definition episode_number (r : re) (line_stripped : pystr) (m : match_obj)
    : number_result :=
  if has_group r then
    match group1 line_stripped m with
    | Some g => match py_int g with
                | Some z => Number z
                | None => NumberRaises
                end
    | None => NumberRaises
    end
  else
    match findall (plus digit) (group0 line_stripped m) with
    | d :: _ => match py_int d with
                | Some z => Number z
                | None => NumberRaises
                end
    | [] => NoNumber
    end.

(** The new episode opened by a separator line, with the text that
    follows the separator on the same line. *)
Definition open_episode (eps : list episode) (z : Z) (line_stripped : pystr)
    (m : match_obj) : line_state :=
  let remaining_text := strip (skipn (m_end m) line_stripped) in
  mkLines eps (Some z) (if truthy remaining_text then [remaining_text] else []).

Definition accumulate (st : line_state) (line : pystr) : line_state :=
  match current_episode st with
  | Some _ => mkLines (done_episodes st) (current_episode st)
                      (current_content st ++ [line])
  | None => st
  end.

(** Body of the line loop of [_regex_split]; [None] is an exception. *)
Definition single_step (r : re) (st : line_state) (line : pystr)
    : option line_state :=
  let line_stripped := strip_line line in
  match py_match r line_stripped with
  | Some m =>
    let eps := save_previous st in
    match episode_number r line_stripped m with
    | Number z => Some (open_episode eps z line_stripped m)
    | NoNumber => Some (mkLines eps (current_episode st) (current_content st))
    | NumberRaises => None
    end
  | None => Some (accumulate st line)
  end.

(** The inner loop of [_multi_pattern_regex_split] over the compiled
    patterns: the state and [matched]. *)
Fixpoint try_patterns (rs : list re) (line_stripped : pystr) (st : line_state)
    : option (line_state * bool) :=
  match rs with
  | [] => Some (st, false)
  | r :: rs' =>
    match py_match r line_stripped with
    | Some m =>
      let eps := save_previous st in
      match episode_number r line_stripped m with
      | Number z => Some (open_episode eps z line_stripped m, true)
      | NoNumber =>
        try_patterns rs' line_stripped
          (mkLines eps (current_episode st) (current_content st))
      | NumberRaises => None
      end
    | None => try_patterns rs' line_stripped st
    end
  end.

Definition multi_step (rs : list re) (st : line_state) (line : pystr)
    : option line_state :=
  match try_patterns rs (strip_line line) st with
  | Some (st', true) => Some st'
  | Some (st', false) => Some (accumulate st' line)
  | None => None
  end.

Fixpoint line_loop (step : line_state -> pystr -> option line_state)
    (lines : list pystr) (st : line_state) : option line_state :=
  match lines with
  | [] => Some st
  | line :: rest =>
    match step st line with
    | Some st' => line_loop step rest st'
    | None => None
    end
  end.

(** The episodes of the single-pattern loop, the last one saved only if
    it has collected lines; [inl] is the return of the whole text as one
    episode when there are none, which skips special episodes and
    titles. *)
Definition single_pattern_episodes (r : re) (text : pystr)
    : option (list episode + list episode) :=
  let text := lstrip_bom text in
  match line_loop (single_step r) (lines_of text) (mkLines [] None []) with
  | None => None
  | Some st =>
    let eps := match current_content st with
               | [] => done_episodes st
               | _ :: _ => save_previous st
               end in
    Some match eps with
         | [] => inl (single_episode text)
         | _ :: _ => inr eps
         end
  end.

(** The episodes of the multi-pattern loop, emptied of blank episodes,
    before special episodes and titles. *)
Definition multi_pattern_episodes (rs : list re) (text : pystr)
    : option (list episode + list episode) :=
  let text := lstrip_bom text in
  match line_loop (multi_step rs) (lines_of text) (mkLines [] None []) with
  | None => None
  | Some st =>
    Some match save_previous st with
         | [] => inl (single_episode text)
         | eps => inr (drop_empty eps)
         end
  end.

(** The pattern filter of [_multi_pattern_regex_split].
    [p.get('separator_pattern', '')] is [None] for a null, on which
    [startswith] raises [AttributeError]. *)
Definition separator_or_empty (p : pattern_entry) : option pystr :=
  match entry_separator_pattern p with
  | Absent => Some []
  | Null => None
  | Val sp => Some sp
  end.

Definition is_specific_name (sp : pystr) : bool :=
  startswith [DOLLAR] sp || startswith [HASH] sp || startswith [SLASH; SLASH] sp
  || contains [HWA] sp || contains [WA] sp
  || contains (py "Chapter") sp || contains (py "Episode") sp.

(** [has_specific_pattern = any(...)]: the scan stops at the first
    specific pattern; [None] is the exception of a null separator met
    before that. *)
Fixpoint has_specific_pattern (patterns_list : list pattern_entry) : option bool :=
  match patterns_list with
  | [] => Some false
  | p :: rest =>
    match separator_or_empty p with
    | None => None
    | Some sp =>
      if is_specific_name sp then Some true else has_specific_pattern rest
    end
  end.

Definition GENERIC_NUMBER_SOURCE : pystr := py "^(\d+)$".

Definition is_generic (p : pattern_entry) : bool :=
  match get (entry_pattern_regex p) with
  | Some r => str_eqb (source r) GENERIC_NUMBER_SOURCE
  | None => false
  end
  || match get (entry_separator_pattern p) with
     | Some sp => str_eqb sp (py "N")
     | None => false
     end.

Definition usable_patterns (specific : bool) (patterns_list : list pattern_entry)
    : list pattern_entry :=
  if specific then
    match filter (fun p => negb (is_generic p)) patterns_list with
    | [] => patterns_list
    | filtered => filtered
    end
  else patterns_list.

(** The patterns that compile; an entry without a pattern, with a null
    one or with one that does not compile is passed over. *)
Definition compile_all (patterns_list : list pattern_entry) : list re :=
  flat_map (fun p => match get (entry_pattern_regex p) with
                     | Some r => match compiled r with
                                 | Some c => [c]
                                 | None => []
                                 end
                     | None => []
                     end) patterns_list.

(** [_inline_split]: the pattern, the end of an episode's text, and the
    episodes before special episodes and titles. *)
Definition inline_split_pattern : re :=
  seq [opt (lit STAR3); chr DOLLAR; Group digits3].

Definition trailing_scene_break : re :=
  seq [Star space; lit STAR3; Star space; Eol].

Definition inline_content_end (text : pystr) (content_start : nat)
    (next : option match_obj) : nat :=
  match next with
  | Some next_match =>
    let prefix_check := slice text (m_start next_match - 10) (m_start next_match) in
    if contains STAR3 prefix_check then
      match rfind STAR3 text content_start (m_start next_match) with
      | Some asterisk_pos => asterisk_pos
      | None => m_start next_match
      end
    else m_start next_match
  | None => length text
  end.

Fixpoint inline_episodes_of (text : pystr) (matches : list match_obj)
    : option (list episode) :=
  match matches with
  | [] => Some []
  | m :: rest =>
    match option_map py_int (group1 text m) with
    | Some (Some ep_num) =>
      let content_start := m_end m in
      let content_end := inline_content_end text content_start (hd_error rest) in
      let content := strip (slice text content_start content_end) in
      let content := clean_trailing_episode_marker content in
      let content := strip (sub_empty trailing_scene_break content) in
      option_map (cons (mkEpisode ep_num None content)) (inline_episodes_of text rest)
    | _ => None
    end
  end.

Definition inline_episodes (text : pystr) : option (list episode + list episode) :=
  let text := lstrip_bom text in
  match finditer inline_split_pattern text with
  | [] => Some (inl (single_episode text))
  | matches => option_map (fun eps => inr (drop_empty eps))
                          (inline_episodes_of text matches)
  end.

(** [text[i:i+chunk_size] for i in range(0, len(text), chunk_size)]. *)
Fixpoint chunks_of (fuel chunk_size : nat) (text : pystr) : list pystr :=
  match fuel with
  | O => []
  | S fuel' =>
    match text with
    | [] => []
    | _ :: _ => firstn chunk_size text :: chunks_of fuel' chunk_size (skipn chunk_size text)
    end
  end.

Definition MAX_CHARS : Z := 100000.

Fixpoint renumber (i : Z) (eps : list episode) : list episode :=
  match eps with
  | [] => []
  | ep :: rest => mkEpisode i (title ep) (content ep) :: renumber (i + 1) rest
  end.

(** ** Titles and special episodes *)

Definition set_title (t : pystr) (ep : episode) : episode :=
  mkEpisode (number ep) (Some t) (content ep).

(** [lst[idx]] as an update: [None] is [IndexError]. *)
Definition py_index (n : nat) (idx : Z) : option nat :=
  if ((0 <=? idx) && (idx <? Z.of_nat n))%Z then Some (Z.to_nat idx)
  else if ((idx <? 0) && (- Z.of_nat n <=? idx))%Z then Some (Z.to_nat (Z.of_nat n + idx))
  else None.

Fixpoint update_nth {A : Type} (n : nat) (f : A -> A) (l : list A) : list A :=
  match l, n with
  | [], _ => []
  | x :: l', O => f x :: l'
  | x :: l', S n' => x :: update_nth n' f l'
  end.

(** The first [k] non-blank lines, stripped ([k] is 3 in the code). *)
Fixpoint first_lines (k : nat) (lines : list pystr) : list pystr :=
  match k with
  | O => []
  | S k' =>
    match lines with
    | [] => []
    | line :: rest =>
      if truthy (strip line) then strip line :: first_lines k' rest
      else first_lines k rest
    end
  end.

Definition needs_title (ep : episode) : bool :=
  negb (truthy_opt (title ep)) && truthy (strip (content ep)).

Fixpoint title_samples_from (i : nat) (eps : list episode) : list title_sample :=
  match eps with
  | [] => []
  | ep :: rest =>
    (if needs_title ep
     then [mkSample i (number ep) (first_lines 3 (lines_of (content ep)))]
     else [])
    ++ title_samples_from (S i) rest
  end.

(** Blank the non-blank line number [k], counting from [count]. *)
Fixpoint blank_title_line (k count : Z) (lines : list pystr) : list pystr :=
  match lines with
  | [] => []
  | line :: rest =>
    if truthy (strip line) then
      if (count =? k)%Z then [] :: rest
      else line :: blank_title_line k (count + 1) rest
    else line :: blank_title_line k count rest
  end.

Fixpoint drop_blank_lines (lines : list pystr) : list pystr :=
  match lines with
  | [] => []
  | line :: rest => if truthy (strip line) then lines else drop_blank_lines rest
  end.

Definition promote_title (t : pystr) (k : Z) (ep : episode) : episode :=
  let lines := drop_blank_lines (blank_title_line k 0 (lines_of (content ep))) in
  mkEpisode (number ep) (Some t) (strip (unlines lines)).

(** The loop over the backend's results; an index out of range ends it
    (the exception is caught around the loop) and what was done so far
    stays. *)
Fixpoint apply_titles (items : list title_item) (eps : list episode) : list episode :=
  match items with
  | [] => eps
  | it :: rest =>
    match item_idx it, item_title it, item_title_line_idx it with
    | Some idx, Some (c :: t), Some k =>
      match py_index (length eps) idx with
      | Some n => apply_titles rest (update_nth n (promote_title (c :: t) k) eps)
      | None => eps
      end
    | _, _, _ => apply_titles rest eps
    end
  end.

Section WithBackend.

Variable llm_state : Type.

(** [str.lower], and the three calls of the model: pattern detection
    (sample, file name, number of sample lines), title extraction and
    splitting. *)
Variable lower : pystr -> pystr.
Variable llm_detect : llm_state -> pystr -> pystr -> nat -> detect_response * llm_state.
Variable llm_titles : llm_state -> list title_sample -> titles_response * llm_state.
Variable llm_split : llm_state -> pystr -> pattern_info -> split_response * llm_state.

(** [_handle_special_episodes]: [None] is the [AttributeError] of
    [special.get] on a null ['special_episodes'], which is reached only
    when there are episodes. *)
Definition handle_special_episodes (eps : list episode) (info : pattern_info)
    : option (list episode) :=
  match eps with
  | [] => Some eps
  | _ :: _ =>
    match special_episodes info with
    | Null => None
    | Absent => Some eps
    | Val sp =>
      match sp_epilogue sp, rev eps with
      | Some (c :: e), last :: before =>
        if contains (lower (c :: e)) (lower (firstn 100 (content last)))
        then Some (rev (set_title (c :: e) last :: before))
        else Some eps
      | _, _ => Some eps
      end
    end
  end.

(** [_extract_titles_from_episodes]. *)
Definition extract_titles_from_episodes (eps : list episode) (st : llm_state)
    : list episode * llm_state :=
  match title_samples_from 0 eps with
  | [] => (eps, st)
  | samples =>
    match llm_titles st samples with
    | (TitlesRaises, st') => (eps, st')
    | (TitlesReturns items, st') => (apply_titles items eps, st')
    end
  end.

(** The end of the three regex splits: special episodes, then
    titles. *)
Definition finish (eps : list episode) (info : pattern_info) (st : llm_state)
    : res (list episode) * llm_state :=
  match handle_special_episodes eps info with
  | None => (Raise, st)
  | Some eps1 =>
    let (eps', st') := extract_titles_from_episodes eps1 st in
    (Ok eps', st')
  end.

(** [_inline_split]. *)
Definition inline_split (text : pystr) (info : pattern_info) (st : llm_state)
    : res (list episode) * llm_state :=
  match inline_episodes text with
  | None => (Raise, st)
  | Some (inl eps) => (Ok eps, st)
  | Some (inr eps) => finish eps info st
  end.

Inductive splitter := RegexSplit | LLMSplit.

(** The pattern of the single-pattern branch of [_regex_split]:
    [pattern_info['patterns'][0]['pattern_regex']] when 'patterns' is a
    non-empty list, where [None] is the [KeyError] of an entry without
    the key, else [pattern_info.get('pattern_regex')]. *)
Definition single_pattern_of (info : pattern_info) : option (option regex) :=
  match patterns info with
  | Val (p :: _) =>
    match entry_pattern_regex p with
    | Absent => None
    | Null => Some None
    | Val r => Some (Some r)
    end
  | _ => Some (get (pattern_regex info))
  end.

(** ['patterns' in pattern_info and len(pattern_info['patterns']) > 1];
    [None] is the [TypeError] of [len] on a null. *)
Definition more_than_one {A : Type} (l : field (list A)) : option bool :=
  match l with
  | Absent => Some false
  | Null => None
  | Val l => Some (1 <? length l)
  end.

(** The examples that [_llm_split] puts in its prompt, before its
    [try]: [None] is the [TypeError] of a null ['patterns'], of a null
    ['pattern_examples'] of an entry, or, without 'patterns', of a null
    ['pattern_examples']. *)
Fixpoint all_examples (ps : list pattern_entry) : option (list pystr) :=
  match ps with
  | [] => Some []
  | p :: rest =>
    match entry_pattern_examples p with
    | Null => None
    | Absent => all_examples rest
    | Val ex => option_map (app ex) (all_examples rest)
    end
  end.

Definition prompt_examples (info : pattern_info) : option (list pystr) :=
  match patterns info with
  | Absent =>
    match pattern_examples info with
    | Absent => Some []
    | Null => None
    | Val ex => Some ex
    end
  | Null => None
  | Val ps => option_map (firstn 5) (all_examples ps)
  end.

(** The chunk loop of [_chunked_llm_split] around a splitting
    function. *)
Fixpoint split_chunks
    (split : pystr -> llm_state -> res (list episode) * llm_state)
    (chunks : list pystr) (acc : list episode) (st : llm_state)
    : res (list episode) * llm_state :=
  match chunks with
  | [] => (Ok (renumber 1 acc), st)
  | chunk :: rest =>
    match split chunk st with
    | (Ok eps, st') => split_chunks split rest (acc ++ eps) st'
    | (Raise, st') => (Raise, st')
    | (OutOfFuel, st') => (OutOfFuel, st')
    end
  end.

(** [_regex_split] (with [_multi_pattern_regex_split]) and [_llm_split]
    (with [_chunked_llm_split]), which call each other. *)
Fixpoint split_by (fuel : nat) (which : splitter) (text : pystr)
    (info : pattern_info) (st : llm_state) {struct fuel}
    : res (list episode) * llm_state :=
  match fuel with
  | O => (OutOfFuel, st)
  | S fuel' =>
    match which with
    | RegexSplit =>
      match more_than_one (patterns info) with
      | None => (Raise, st)
      | Some true =>
        match get (patterns info) with
        | None | Some [] => split_by fuel' LLMSplit text info st
        | Some patterns_list =>
          match has_specific_pattern patterns_list with
          | None => (Raise, st)
          | Some specific =>
            match compile_all (usable_patterns specific patterns_list) with
            | [] => split_by fuel' LLMSplit text info st
            | rs =>
              match multi_pattern_episodes rs text with
              | None => (Raise, st)
              | Some (inl eps) => (Ok eps, st)
              | Some (inr eps) => finish eps info st
              end
            end
          end
        end
      | Some false =>
        match single_pattern_of info with
        | None => (Raise, st)
        | Some (Some pattern) =>
          if truthy (source pattern) then
            match compiled pattern with
            | None => (Raise, st)
            | Some r =>
              match single_pattern_episodes r text with
              | None => (Raise, st)
              | Some (inl eps) => (Ok eps, st)
              | Some (inr eps) => finish eps info st
              end
            end
          else split_by fuel' LLMSplit text info st
        | Some None => split_by fuel' LLMSplit text info st
        end
      end
    | LLMSplit =>
      if (MAX_CHARS <? Z.of_nat (length text))%Z then
        split_chunks (fun chunk st => split_by fuel' LLMSplit chunk info st)
          (chunks_of (length text) (Z.to_nat MAX_CHARS) text) [] st
      else
        match prompt_examples info with
        | None => (Raise, st)
        | Some _ =>
          let on_exception st :=
            if truthy_regex (get (pattern_regex info))
            then split_by fuel' RegexSplit text info st
            else (Ok (single_episode text), st) in
          match llm_split st text info with
          | (SplitRaises, st') => on_exception st'
          | (SplitMalformed, st') =>
            match split_by fuel' RegexSplit text info st' with
            | (Raise, st'') => on_exception st''
            | other => other
            end
          | (SplitReturns eps, st') =>
            let cleaned :=
              map (fun ep => if truthy (content ep)
                             then mkEpisode (number ep) (title ep)
                                    (clean_trailing_episode_marker (content ep))
                             else ep) eps in
            let (eps', st'') := extract_titles_from_episodes cleaned st' in
            (Ok eps', st'')
          end
        end
    end
  end.

End WithBackend.

(** ** Validation and the entry points *)

(** The warnings of [_validate_split], without their wording. *)
Inductive warning :=
| CountMismatch (estimated actual : Z)
| LargeGap (a b : Z)
| VeryShort (n : nat)
| ContentLoss.

Record validation := mkValidation {
  validation_confidence : Z;
  validation_warnings : list warning
}.

(** Check 1: [abs(actual - estimated) / estimated * 100 > 20] for a
    positive estimate. This check and checks 3 and 4 compare quotients
    of lengths with a constant; they are written without division,
    which gives the result of the double-precision computation for
    every length that a text can have. *)
Definition count_mismatch (estimated actual : Z) : bool :=
  ((0 <? estimated) && (20 * estimated <? 100 * Z.abs (actual - estimated)))%Z.

(** Check 2: the gaps above 2 between consecutive numbers. *)
Fixpoint large_gaps (numbers : list Z) : list warning :=
  match numbers with
  | a :: (b :: _) as rest =>
    (if (2 <? b - a)%Z then [LargeGap a b] else []) ++ large_gaps rest
  | _ => []
  end.

(** Check 3: the episodes under 20 words, more than a tenth of all. *)
Definition very_short_count (eps : list episode) : nat :=
  length (filter (fun ep => length (split_ws (content ep)) <? 20) eps).

Definition too_many_short (eps : list episode) : bool :=
  length eps <? 10 * very_short_count eps.

(** Check 4: less than 80% of the characters preserved. *)
Definition total_chars (eps : list episode) : nat :=
  fold_left (fun acc ep => acc + length (content ep)) eps 0.

Definition content_lost (eps : list episode) (original_text : pystr) : bool :=
  if 0 <? length original_text
  then 100 * total_chars eps <? 80 * length original_text
  else true.

(** [pattern_info.get('estimated_episodes', actual)]: an absent key
    takes the number of episodes, and [None] is a null. *)
Definition estimated_or (info : pattern_info) (actual : Z) : option Z :=
  match estimated_episodes info with
  | Absent => Some actual
  | Null => None
  | Val e => Some e
  end.

(** [_validate_split]. [None] is the [TypeError] of [estimated > 0] on
    a null ['estimated_episodes']. *)
Definition validate_split (eps : list episode) (info : pattern_info)
    (original_text : pystr) : option validation :=
  let actual := Z.of_nat (length eps) in
  match estimated_or info actual with
  | None => None
  | Some estimated =>
    let w1 := if count_mismatch estimated actual
              then [CountMismatch estimated actual] else [] in
    let w2 := large_gaps (map number eps) in
    let w3 := if too_many_short eps then [VeryShort (very_short_count eps)] else [] in
    let w4 := if content_lost eps original_text then [ContentLoss] else [] in
    let confidence :=
      (100 - 10 * Z.of_nat (length w1) - 5 * Z.of_nat (length w2)
       - 5 * Z.of_nat (length w3) - 10 * Z.of_nat (length w4))%Z in
    Some (mkValidation (Z.max confidence 70) (w1 ++ w2 ++ w3 ++ w4))
  end.

Inductive method := Single | Inline | Regex | LLM.

(** What [process] returns: the episodes, the value of
    'is_multi_episode', the method and, of the metadata, the count, the
    confidence and the warnings. *)
Record output := mkOutput {
  out_episodes : list episode;
  out_is_multi_episode : option bool;
  out_method : method;
  out_total_episodes : nat;
  out_confidence : Z;
  out_warnings : list warning
}.

(** The dictionary returned when detection fails. *)
Definition fallback_info : pattern_info :=
  mkInfo (Val false) Absent Absent Null (Val []) Null (Val 1%Z) (Val 50%Z)
         (Val (mkSpecial None)) Absent.

Definition EMPTY_REGEX : regex := mkRegex [] (Some Eps).

Section EntryPoints.

Variable llm_state : Type.
Variable lower : pystr -> pystr.
Variable llm_detect : llm_state -> pystr -> pystr -> nat -> detect_response * llm_state.
Variable llm_titles : llm_state -> list title_sample -> titles_response * llm_state.
Variable llm_split : llm_state -> pystr -> pattern_info -> split_response * llm_state.

(** [_detect_pattern]: direct detection, else the backend on the first
    [sample_lines] lines. An answer with the key 'patterns' is returned
    as it is; one without it, in the old single-pattern format, is
    converted. Every exception gives the single-episode fallback: a
    failing backend, a null 'patterns' (its length is logged), a missing
    'confidence' (it is logged) and, in the old format, a missing
    'separator_pattern'. *)
Definition convert_old_format (info : pattern_info) : pattern_info :=
  mkInfo (is_multi_episode info)
    (Val [mkEntry (separator_pattern info)
            match pattern_examples info with
            | Absent => Val []
            | other => other
            end
            match pattern_regex info with
            | Absent => Val EMPTY_REGEX
            | other => other
            end])
    (separator_pattern info) (separator_pattern info) (pattern_examples info)
    (pattern_regex info) (estimated_episodes info) (confidence info)
    (special_episodes info) (use_inline_split info).

Definition detect_pattern (text filename : pystr) (sample_lines : nat)
    (st : llm_state) : pattern_info * llm_state :=
  match detect_known_pattern_directly text with
  | Some direct_pattern => (direct_pattern, st)
  | None =>
    let sample_text := unlines (firstn sample_lines (lines_of text)) in
    match llm_detect st sample_text filename sample_lines with
    | (DetectRaises, st') => (fallback_info, st')
    | (DetectReturns info, st') =>
      match patterns info, separator_pattern info, confidence info with
      | Null, _, _ => (fallback_info, st')
      | Val _, _, Absent => (fallback_info, st')
      | Val _, _, _ => (info, st')
      | Absent, Absent, _ => (fallback_info, st')
      | Absent, _, Absent => (fallback_info, st')
      | Absent, _, _ => (convert_old_format info, st')
      end
    end
  end.

(** [not pattern_info['is_multi_episode']]: [None] is the [KeyError]
    of a missing key. *)
Definition is_multi (info : pattern_info) : option bool :=
  match is_multi_episode info with
  | Absent => None
  | Null => Some false
  | Val b => Some b
  end.

(** The end of [process], once the splitting function has returned:
    the validation, the smaller of the two confidences and the pattern
    display. [confidence] is that of the branch taken, [None] for a
    missing or null ['confidence']; the validation fails on a null
    'estimated_episodes' and the display on a null 'patterns'. *)
Definition report (info : pattern_info) (text : pystr) (how : method)
    (confidence : option Z) (split : res (list episode) * llm_state)
    : res output * llm_state :=
  match split with
  | (Ok eps, st2) =>
    match confidence, validate_split eps info text,
          more_than_one (patterns info) with
    | Some c, Some v, Some _ =>
      (Ok (mkOutput eps (get (is_multi_episode info)) how (length eps)
             (Z.min c (validation_confidence v))
             (validation_warnings v)), st2)
    | _, _, _ => (Raise, st2)
    end
  | (Raise, st2) => (Raise, st2)
  | (OutOfFuel, st2) => (OutOfFuel, st2)
  end.

(** [process]; [fuel] is the recursion budget of the splitting
    functions, and [int(confidence * 0.9)] is the integer quotient of
    nine times the confidence by ten, rounded towards zero. *)
Definition process (fuel : nat) (text filename : pystr) (sample_lines : nat)
    (st : llm_state) : res output * llm_state :=
  if negb (truthy text) then (Raise, st)
  else
    let (info, st1) := detect_pattern text filename sample_lines st in
    match is_multi info with
    | None => (Raise, st1)
    | Some false =>
      report info text Single (Some 100%Z) (Ok (single_episode text), st1)
    | Some true =>
      if truthy_field (use_inline_split info) then
        report info text Inline (get (confidence info))
          (inline_split lower llm_titles text info st1)
      else if is_known (get (primary_pattern info))
              || is_known (get (separator_pattern info)) then
        report info text Regex (get (confidence info))
          (split_by lower llm_titles llm_split fuel RegexSplit text info st1)
      else
        report info text LLM
          (option_map (fun c => Z.quot (9 * c) 10) (get (confidence info)))
          (split_by lower llm_titles llm_split fuel LLMSplit text info st1)
    end.

(** [validate] of the splitter: episodes exist and the confidence is at
    least 70 (every episode of this model has its number and content). *)
Definition validate_output (o : output) : bool :=
  truthy_list (out_episodes o) && (70 <=? out_confidence o)%Z.

(** [BaseProcessor.execute]: [process], then [validate], whose failure
    raises [ValueError]. *)
Definition execute (fuel : nat) (text filename : pystr) (sample_lines : nat)
    (st : llm_state) : res output * llm_state :=
  match process fuel text filename sample_lines st with
  | (Ok o, st') => if validate_output o then (Ok o, st') else (Raise, st')
  | other => other
  end.

End EntryPoints.

(** The confidence that [process] takes from the branch it follows,
    before validation; [None] when the branch cannot be chosen or its
    confidence is missing or null. *)
Definition tier_confidence (info : pattern_info) : option Z :=
  match is_multi info with
  | None => None
  | Some false => Some 100%Z
  | Some true =>
    if truthy_field (use_inline_split info) then get (confidence info)
    else if is_known (get (primary_pattern info))
            || is_known (get (separator_pattern info))
         then get (confidence info)
    else option_map (fun c => Z.quot (9 * c) 10) (get (confidence info))
  end.

(** The number of lines that a compiled pattern matches. *)
Definition matching_lines (r : re) (text : pystr) : nat :=
  length (line_matches r (lines_of text)).

End Splitter.

(* ===================================================================== *)
(** * processors/glossary_manager.py: lookups and updates *)
(* ===================================================================== *)

Module GlossaryUpdates.
Import GlossaryManager.

(** The keyword arguments of [update_term], for the keys of a term
    entry: a key that is not passed is [None]. *)
Record term_fields := mkFields {
  set_original : option pystr;
  set_translation : option pystr;
  set_category : option pystr;
  set_first_appearance : option pystr;
  set_context : option pystr
}.

Definition or_keep (new : option pystr) (old : pystr) : pystr :=
  match new with Some v => v | None => old end.

(** [term.update(kwargs)]. *)
Definition apply_fields (k : term_fields) (t : term) : term :=
  mkTerm (or_keep (set_original k) (original t))
         (or_keep (set_translation k) (translation t))
         (or_keep (set_category k) (category t))
         (or_keep (set_first_appearance k) (first_appearance t))
         (or_keep (set_context k) (context t))
         (known_wrong_variants t) (corrected_from t) (matched_first_name t)
         (matched_foreign_name t) (name_replaced t).

(** The loop of [update_term]: the first term with the given original
    is updated; [None] when there is none. *)
Fixpoint update_in (orig : pystr) (k : term_fields) (ts : list term)
    : option (list term) :=
  match ts with
  | [] => None
  | t :: ts' =>
    if str_eqb (original t) orig then Some (apply_fields k t :: ts')
    else option_map (cons t) (update_in orig k ts')
  end.

(** [update_term(original, **kwargs)]: the returned flag and the
    glossary afterwards. *)
Definition update_term (orig : pystr) (k : term_fields) (g : glossary_data)
    : bool * glossary_data :=
  match update_in orig k (terms g) with
  | Some ts =>
    (true, mkGlossary (series_name g) (source_language g) (target_language g)
             (created_date g) (last_updated g) ts)
  | None => (false, g)
  end.

(** [get_translation], [get_terms_by_category], [get_term_count]. *)
Definition get_translation (g : glossary_data) (orig : pystr) : option pystr :=
  option_map translation (find_term g orig).

Definition get_terms_by_category (g : glossary_data) (cat : pystr) : list term :=
  filter (fun t => str_eqb (category t) cat) (terms g).

Definition get_term_count (g : glossary_data) : nat := length (terms g).

(** Adding every term of a list with [add_term], as the glossary
    builder does with the terms it has translated. *)
Definition add_all (ts : list term) (g : glossary_data) : glossary_data :=
  fold_left (fun g t => add_term (original t) (translation t) (category t)
                          (first_appearance t) (context t) g) ts g.

End GlossaryUpdates.

(* ===================================================================== *)
(** * stage_02_translate.py: what a correction may change *)
(* ===================================================================== *)

Module NameConsistencySpec.
Import NameConsistency.

(** The relation between a term and what the correcting loop returns
    for it: the original, the category and the context are kept; a
    counted correction changes the translation and records the old one
    in '_corrected_from'; otherwise the term is returned as it is. *)
Definition correction_of (t : term) (r : term * bool) : Prop :=
  original (fst r) = original t /\
  category (fst r) = category t /\
  context (fst r) = context t /\
  (snd r = true ->
     translation (fst r) <> translation t /\
     corrected_from (fst r) = Some (translation t)) /\
  (snd r = false -> fst r = t).

(** A character term that the first loop of the Taiwanese or Japanese
    branch records as a full name. *)
Definition recorded_full_name (target_lang : pystr) (t : term) : Prop :=
  category t = CHARACTER /\
  3 <= length (original t) /\
  (exists c rest, original t = c :: rest /\ is_surname c = true) /\
  ((target_lang = TAIWANESE /\ 3 <= length (translation t)) \/
   (target_lang = JAPANESE /\ contains [KATAKANA_DOT] (translation t) = true)).

End NameConsistencySpec.

(* ===================================================================== *)
(** * llm_episode_splitter.py: notions used to state its properties *)
(* ===================================================================== *)

Module SplitterSpec.
Import Splitter.

(** What [_validate_split] deducts from the confidence when it appends
    a warning. *)
Definition penalty (w : warning) : Z :=
  match w with
  | CountMismatch _ _ => 10
  | LargeGap _ _ => 5
  | VeryShort _ => 5
  | ContentLoss => 10
  end.

Definition total_penalty (ws : list warning) : Z :=
  fold_right (fun w acc => (penalty w + acc)%Z) 0%Z ws.

(** An episode after post-processing: the same number, and either the
    same episode or one with a non-empty title. *)
Definition only_titled (e e' : episode) : Prop :=
  number e' = number e /\
  (e' = e \/ exists c t, title e' = Some (c :: t)).

(** ** Direct detection, in the words of the specification *)

(** The matches of a known pattern at the start of the lines, and
    their number. *)
Definition matches_of (text : pystr) (rx : regex) : list pystr :=
  match compiled rx with
  | Some c => line_matches c (lines_of text)
  | None => []
  end.

Definition line_start_matches (text name : pystr) : list pystr :=
  match known_regex name with
  | Some rx => matches_of text rx
  | None => []
  end.

Definition line_start_count (text name : pystr) : nat :=
  length (line_start_matches text name).

(** The largest number of lines that a known pattern matches, and the
    best-matching pattern: the first one, in the order of
    [KNOWN_PATTERNS], that matches that many lines. *)
Definition best_line_start_count (text : pystr) : nat :=
  list_max (map (fun kv => length (matches_of text (snd kv))) KNOWN_PATTERNS).

Definition best_matching_pattern (text : pystr) : option pystr :=
  option_map fst
    (List.find (fun kv => length (matches_of text (snd kv))
                          =? best_line_start_count text)
               KNOWN_PATTERNS).

(** The inline '$NNN' markers of the text and the number of distinct
    episode numbers among them. *)
Definition inline_markers (text : pystr) : list pystr :=
  match compiled INLINE_EPISODE_PATTERN with
  | Some r => Re.findall r text
  | None => []
  end.

Definition inline_episode_count (text : pystr) : nat :=
  length (distinct (flat_map (fun m => match Re.py_int m with
                                       | Some z => [z]
                                       | None => []
                                       end) (inline_markers text))).

(** The inline reading is preferred when there are markers and their
    distinct numbers exceed one and a half times the best line-start
    count. *)
Definition inline_preferred (text : pystr) : bool :=
  truthy_list (inline_markers text)
  && (3 * best_line_start_count text <? 2 * inline_episode_count text).

(** The decision of the direct tier: the inline reading when it is
    preferred; else the combined pattern whenever '$NNN' and
    '* * *$NNN' each match a line; else the best-matching pattern if it
    matches at least three lines; else nothing. *)
Definition direct_detection_spec (text : pystr) : option pattern_info :=
  if inline_preferred text then
    Some (direct_info INLINE_NAME
            (map (fun m => DOLLAR :: m) (firstn 5 (inline_markers text)))
            (Val INLINE_EPISODE_PATTERN) (inline_episode_count text) true)
  else if (1 <=? line_start_count text NNN_NAME)
          && (1 <=? line_start_count text STAR_NNN_NAME) then
    Some (direct_info COMBINED_NAME
            (firstn 5 (firstn 5 (line_start_matches text NNN_NAME)
                       ++ firstn 5 (line_start_matches text STAR_NNN_NAME)))
            (known_field COMBINED_NAME)
            (line_start_count text NNN_NAME
             + line_start_count text STAR_NNN_NAME) false)
  else
    match best_matching_pattern text with
    | Some name =>
      if 3 <=? best_line_start_count text then
        Some (direct_info name (firstn 5 (line_start_matches text name))
                (known_field name) (best_line_start_count text) false)
      else None
    | None => None
    end.

(** The episodes that a line loop has opened so far: those saved and
    the current one. *)
Definition opened (st : line_state) : nat :=
  length (done_episodes st)
  + match current_episode st with Some _ => 1 | None => 0 end.

Section Chunked.

Variable llm_state : Type.

(** [_chunked_llm_split], around the function that splits one chunk. *)
Definition chunked_llm_split
    (split : pystr -> llm_state -> res (list episode) * llm_state)
    (text : pystr) (chunk_size : nat) (st : llm_state)
    : res (list episode) * llm_state :=
  split_chunks split (chunks_of (length text) chunk_size text) [] st.

End Chunked.

(** The numbers 1, 2, ..., [n]. *)
Definition one_to (n : nat) : list Z := map Z.of_nat (seq 1 n).

End SplitterSpec.

(* ===================================================================== *)
(** * Summaries: batch_validate, the language loop of run_stage_2a and
      generate_qa_report *)
(* ===================================================================== *)

Module Reports.
Import TranslationQA Stage2a.

(** [QAResult.has_critical_issues]. *)
Definition has_critical_issues (r : QAResult) : bool :=
  existsb is_error (issues r).

(** An element of the [episodes] argument of [batch_validate]:
    [ep['content']] and [ep.get('episode_number')]. *)
Record batch_episode := mkBatchEpisode {
  be_content : pystr;
  be_episode_number : option Z
}.

(** The dictionary that [batch_validate] returns. An empty list of
    episodes gives the integer 0 as ['pass_rate'], here the double
    zero. *)
Record batch_summary := mkBatch {
  batch_results : list QAResult;
  passed_count : nat;
  failed_count : nat;
  total_issues : nat;
  pass_rate : float
}.

(** The counters of the loop of [batch_validate]. *)
Record batch_state := mkBatchState {
  bs_results : list QAResult;
  bs_passed : nat;
  bs_failed : nat;
  bs_issues : nat
}.

Definition batch_step (v : validator) (st : batch_state) (ep : batch_episode)
    : batch_state :=
  let result := validate v (be_content ep) (be_episode_number ep) in
  mkBatchState (bs_results st ++ [result])
    (if passed result then bs_passed st + 1 else bs_passed st)
    (if passed result then bs_failed st else bs_failed st + 1)
    (bs_issues st + length (issues result)).

(** [batch_validate]. *)
Definition batch_validate (lower : pystr -> pystr) (episodes : list batch_episode)
    (glossary_terms : list term) (source_lang target_lang : pystr)
    : batch_summary :=
  let v := new_validator lower source_lang target_lang glossary_terms None in
  let st := fold_left (batch_step v) episodes (mkBatchState [] 0 0 0) in
  mkBatch (bs_results st) (bs_passed st) (bs_failed st) (bs_issues st)
    match episodes with
    | [] => PrimFloat.zero
    | _ :: _ => PrimFloat.div (PyFloat.of_nat (bs_passed st))
                              (PyFloat.of_nat (length episodes))
    end.

(** [all_results] and the three totals of [run_stage_2a]. *)
Record stage_totals := mkTotals {
  all_results : dict language_report;
  total_errors : nat;
  total_warnings : nat;
  total_fixed : nat
}.

Section LanguageLoop.

Variable llm_state : Type.
Variable llm_execute :
  llm_state -> pystr -> pystr -> pystr -> list term -> llm_response * llm_state.
Variable auto_fix_enabled : bool.
Variable max_retries : nat.
Variable glossary_terms : list term.

(** The loop [for lang in languages_to_validate]: every language comes
    with its episode files, already cut to [max_episodes]. A language
    without episodes is passed over; [None] is an exception (a language
    that is not in [LANGUAGE_CONFIG], or no pass made). *)
Fixpoint language_loop (langs : list (pystr * list episode_entry))
    (llm : option llm_state) (acc : stage_totals)
    : option (stage_totals * option llm_state) :=
  match langs with
  | [] => Some (acc, llm)
  | (lang, episodes) :: rest =>
    match dict_get lang LANGUAGE_CONFIG with
    | None => None
    | Some config =>
      match episodes with
      | [] => language_loop rest llm acc
      | _ :: _ =>
        let st := run_retries llm_execute auto_fix_enabled max_retries
                    glossary_terms config episodes llm in
        match language_result llm_execute auto_fix_enabled max_retries
                glossary_terms config episodes llm with
        | None => None
        | Some r =>
          language_loop rest (backend_now st)
            (mkTotals (dict_set lang r (all_results acc))
                      (total_errors acc + report_error_count r)
                      (total_warnings acc + report_warning_count r)
                      (total_fixed acc + report_fixed_count r))
        end
      end
    end
  end.

End LanguageLoop.

(** What [run_stage_2a] returns after the report is written. *)
Definition stage_returns (fail_on_error : bool) (totals : stage_totals) : bool :=
  let overall_pass := total_errors totals =? 0 in
  if fail_on_error then overall_pass else true.

(** The report of [generate_qa_report]. *)
Record issue_report := mkIssueReport {
  ir_type : pystr;
  ir_severity : pystr;
  ir_text : pystr;
  ir_message : pystr;
  ir_expected : option pystr;
  ir_context : option pystr
}.

Record episode_report := mkEpisodeReport {
  er_episode_number : option Z;
  er_passed : bool;
  er_error_count : nat;
  er_warning_count : nat;
  er_issues : list issue_report
}.

Record language_entry := mkLanguageEntry {
  le_error_count : nat;
  le_warning_count : nat;
  le_fixed_count : nat;
  le_passed : bool;
  le_episodes : list episode_report
}.

Record qa_report := mkQAReport {
  qa_series_name : pystr;
  qa_glossary_term_count : nat;
  qa_languages : dict language_entry;
  qa_total_errors : nat;
  qa_total_warnings : nat;
  qa_total_episodes : nat;
  qa_passed : bool
}.

Definition issue_report_of (i : QAIssue) : issue_report :=
  mkIssueReport (issue_type i) (severity i) (text i) (message i)
                (expected i) (issue_context i).

(** The episodes listed for a language: those with issues. *)
Definition episode_reports (results : list QAResult) : list episode_report :=
  flat_map (fun result =>
              match issues result with
              | [] => []
              | _ :: _ =>
                [mkEpisodeReport (episode_number result) (passed result)
                   (error_count result) (warning_count result)
                   (map issue_report_of (issues result))]
              end) results.

Definition report_step (report : qa_report) (kv : pystr * language_report)
    : qa_report :=
  let data := snd kv in
  mkQAReport (qa_series_name report) (qa_glossary_term_count report)
    (dict_set (fst kv)
       (mkLanguageEntry (report_error_count data) (report_warning_count data)
          (report_fixed_count data) (report_passed data)
          (episode_reports (report_results data)))
       (qa_languages report))
    (qa_total_errors report + report_error_count data)
    (qa_total_warnings report + report_warning_count data)
    (qa_total_episodes report + length (report_results data))
    (if negb (report_passed data) then false else qa_passed report).

(** [generate_qa_report]. *)
Definition generate_qa_report (series_name : pystr)
    (results : dict language_report) (glossary_terms : list term) : qa_report :=
  fold_left report_step results
    (mkQAReport series_name (length glossary_terms) [] 0 0 0 true).

End Reports.

(* ===================================================================== *)
(** * Example data *)
(* ===================================================================== *)

Module Examples.
Import TranslationQA.

(** The text of the language-mixing example and its validator. *)
Definition mixed_text : pystr := py "그는 집에 갔다와서 彼は家に帰った".

Definition korean_to_japanese : validator :=
  new_validator ascii_lower (py "korean") (py "japanese") [] None.

Definition korean_found (run : pystr) (pos : nat) (ctx : pystr) : QAIssue :=
  mkIssue LANGUAGE_MIXING ERROR run (MSG_KOREAN_FOUND ++ quoted run)
          (Some pos) None (Some ctx).

(** A glossary that lists a given name before the full name, a text in
    which the full name was left untranslated, and a backend that is
    never reached. *)
Definition name_validator : validator :=
  new_validator ascii_lower (py "korean") (py "japanese")
    [NameConsistency.character_term (py "서연") (py "ソヨン");
     NameConsistency.character_term (py "이서연") (py "イ・ソヨン")] None.

Definition name_text : pystr := py "이서연は笑った".

Definition no_backend (s : unit) (segment target ctx : pystr) (g : list term)
    : llm_response * unit := (Raises, s).

(** A Japanese episode with a Korean clause left in, and a backend that
    translates the first segment it is given and fails afterwards. *)
Definition mixed_episode : Stage2a.episode_entry :=
  Stage2a.Readable (Stage2a.mkFile 1 (py "그는 彼は家に帰った") true).

Definition japanese_config : Stage2a.language_config :=
  Stage2a.mkConfig (py "korean") (py "japanese") false.

Definition one_shot_backend (calls : nat) (segment target ctx : pystr)
    (g : list term) : llm_response * nat :=
  match calls with
  | O => (Returns (py "彼は"), 1)
  | S _ => (Raises, S calls)
  end.

(** Manuscripts: three '#N화' separators of which the first two are
    back to back; a '$NNN' line and a '* * *$NNN' line; two '#N화'
    separators only; plain text with blanks around it. *)
Definition back_to_back_text : pystr :=
  py "#1화" ++ [NL] ++ py "#2화" ++ [NL] ++ py "A" ++ [NL]
  ++ py "#3화" ++ [NL] ++ py "B".

Definition two_marker_text : pystr := py "$001" ++ [NL] ++ py "* * *$002".

Definition two_episode_text : pystr :=
  py "#1화" ++ [NL] ++ py "A" ++ [NL] ++ py "#2화" ++ [NL] ++ py "B".

Definition plain_text : pystr := py " hello ".

(** A backend that fails at every call, and one whose detection
    answers '#N화' with confidence 40. *)
Definition detect_fails (s : unit) (sample filename : pystr) (n : nat)
    : Splitter.detect_response * unit := (Splitter.DetectRaises, s).

Definition titles_fail (s : unit) (samples : list Splitter.title_sample)
    : Splitter.titles_response * unit := (Splitter.TitlesRaises, s).

Definition split_fails (s : unit) (text : pystr) (info : Splitter.pattern_info)
    : Splitter.split_response * unit := (Splitter.SplitRaises, s).

Definition hash_entry : Splitter.pattern_entry :=
  Splitter.mkEntry (Val (py "#N화")) (Val [py "#1화"; py "#2화"])
    (Splitter.known_field (py "#N화")).

Definition low_confidence_info : Splitter.pattern_info :=
  Splitter.mkInfo (Val true) (Val [hash_entry]) (Val (py "#N화")) Absent Absent
    (Splitter.known_field (py "#N화")) (Val 2%Z) (Val 40%Z)
    (Val (Splitter.mkSpecial None)) Absent.

Definition detect_low_confidence (s : unit) (sample filename : pystr) (n : nat)
    : Splitter.detect_response * unit :=
  (Splitter.DetectReturns low_confidence_info, s).

(** Answers of the backend with a null in them: one with a null
    'special_episodes', and one that takes the manuscript as a single
    episode with a null 'estimated_episodes'. *)
Definition null_special_info : Splitter.pattern_info :=
  Splitter.mkInfo (Val true) (Val [hash_entry]) (Val (py "#N화")) Absent Absent
    (Splitter.known_field (py "#N화")) (Val 2%Z) (Val 90%Z) Null Absent.

Definition null_estimate_info : Splitter.pattern_info :=
  Splitter.mkInfo (Val false) (Val []) Absent Absent Absent Absent Null
    (Val 90%Z) (Val (Splitter.mkSpecial None)) Absent.

Definition detect_null_estimate (s : unit) (sample filename : pystr) (n : nat)
    : Splitter.detect_response * unit :=
  (Splitter.DetectReturns null_estimate_info, s).

(** What direct detection makes of [back_to_back_text], and the episodes
    that the single-pattern loop cuts out of it. *)
Definition hash_info : Splitter.pattern_info :=
  Splitter.direct_info (py "#N화") [py "#1화"; py "#2화"; py "#3화"]
    (Splitter.known_field (py "#N화")) 3 false.

Definition back_to_back_episodes : list Splitter.episode :=
  [Splitter.mkEpisode 1 None []; Splitter.mkEpisode 2 None (py "A");
   Splitter.mkEpisode 3 None (py "B")].

End Examples.

(* ===================================================================== *)
(** * Facts about Python strings *)
(* ===================================================================== *)

Section PyStrFacts.

Lemma str_eqb_refl (s : pystr) : str_eqb s s = true.
Proof.
  induction s as [|c s IH]; simpl; [reflexivity|].
  now rewrite Z.eqb_refl.
Qed.

Lemma str_eqb_eq (a b : pystr) : str_eqb a b = true <-> a = b.
Proof.
  revert b; induction a as [|x a IH]; intros [|y b]; simpl;
    try (split; [discriminate|discriminate]); try tauto.
  rewrite andb_true_iff, Z.eqb_eq, IH.
  split; [intros [-> ->]; reflexivity | intros H; inversion H; auto].
Qed.

Lemma str_eqb_neq (a b : pystr) : str_eqb a b = false <-> a <> b.
Proof.
  rewrite <- str_eqb_eq. destruct (str_eqb a b); split; congruence.
Qed.

Lemma mem_In (s : pystr) (l : list pystr) : mem s l = true <-> In s l.
Proof.
  unfold mem. rewrite existsb_exists. split.
  - intros [x [Hin Heq]]. apply str_eqb_eq in Heq. now subst.
  - intros Hin. exists s. split; [assumption | apply str_eqb_refl].
Qed.

End PyStrFacts.

(* ===================================================================== *)
(** * The glossary store *)
(* ===================================================================== *)

Section GlossaryFacts.
Import GlossaryManager.

Lemma find_in_some (orig : pystr) (ts : list term) :
  In orig (originals ts) -> exists t, find_in orig ts = Some t.
Proof.
  induction ts as [|t ts IH]; simpl; [tauto|].
  intros [Heq | Hin].
  - rewrite Heq, str_eqb_refl. now exists t.
  - destruct (str_eqb (original t) orig); [now exists t | auto].
Qed.

Lemma find_in_none (orig : pystr) (ts : list term) :
  find_in orig ts = None -> ~ In orig (originals ts).
Proof.
  induction ts as [|t ts IH]; simpl; [tauto|].
  destruct (str_eqb (original t) orig) eqn:E; [discriminate|].
  intros H [Heq | Hin]; [|now apply IH].
  apply str_eqb_neq in E. contradiction.
Qed.

Lemma add_term_present (orig trans cat fa ctx : pystr) (g : glossary_data) :
  In orig (get_all_originals g) -> add_term orig trans cat fa ctx g = g.
Proof.
  intros Hin. unfold add_term, find_term.
  destruct (find_in_some orig (terms g) Hin) as [t ->]. reflexivity.
Qed.

Lemma add_term_nodup (orig trans cat fa ctx : pystr) (g : glossary_data) :
  NoDup (get_all_originals g) ->
  NoDup (get_all_originals (add_term orig trans cat fa ctx g)).
Proof.
  intros Hnd. unfold add_term, find_term.
  destruct (find_in orig (terms g)) eqn:E; [assumption|].
  unfold get_all_originals, originals in *. simpl.
  rewrite map_app. simpl.
  apply NoDup_rev in Hnd. rewrite <- (rev_involutive (_ ++ _)).
  apply NoDup_rev. rewrite rev_app_distr. simpl.
  constructor; [|assumption].
  rewrite <- in_rev. now apply find_in_none.
Qed.

Lemma step_nodup (g : glossary_data) (c : call) :
  distinct_init c -> NoDup (get_all_originals g) ->
  NoDup (get_all_originals (step g c)).
Proof.
  destruct c as [now series src tgt [ts|] | o t c f x]; simpl; intros Hc Hg.
  - exact Hc.
  - constructor.
  - now apply add_term_nodup.
Qed.

Lemma run_nodup (calls : list call) (g : glossary_data) :
  Forall distinct_init calls -> NoDup (get_all_originals g) ->
  NoDup (get_all_originals (run calls g)).
Proof.
  revert g. induction calls as [|c calls IH]; intros g Hall Hg; simpl.
  - assumption.
  - inversion Hall; subst. apply IH; [assumption|].
    now apply step_nodup.
Qed.

(** C8. [add_term] with an original that is already stored returns the
    glossary unchanged; and after any sequence of [create] and
    [add_term] calls on a new manager in which every [create] receives
    no initial terms or initial terms with pairwise distinct originals,
    the stored originals are pairwise distinct. *)
Theorem add_term_duplicate_noop_originals_distinct
    (g : glossary_data) (orig trans cat fa ctx : pystr) (calls : list call) :
  In orig (get_all_originals g) ->
  Forall distinct_init calls ->
  add_term orig trans cat fa ctx g = g /\
  NoDup (get_all_originals (run calls fresh)).
Proof.
  intros Hin Hcalls. split.
  - now apply add_term_present.
  - apply run_nodup; [assumption | constructor].
Qed.

(** C8, witness: a second [add_term] of the given name after a [create]
    and a first [add_term]. *)
Lemma add_term_duplicate_noop_witness :
  let calls := [Create (py "t0") (py "s") (py "korean") (py "japanese") None;
                AddTerm (py "서연") (py "ソヨン") (py "character") [] []] in
  let g := run calls fresh in
  add_term (py "서연") (py "セヨン") (py "character") [] [] g = g /\
  NoDup (get_all_originals (run calls fresh)).
Proof.
  apply add_term_duplicate_noop_originals_distinct.
  - vm_compute. left. reflexivity.
  - repeat constructor.
Defined.

(** C8, counterexample to the unrestricted form: [create] stores the
    initial term list it is given as it is, duplicates included. *)
Lemma create_stores_duplicate_originals :
  let t1 := mkTerm (py "서연") (py "ソヨン") (py "character") [] [] [] None None None None in
  let t2 := mkTerm (py "서연") (py "セヨン") (py "character") [] [] [] None None None None in
  let calls := [Create (py "t0") (py "s") (py "korean") (py "japanese") (Some [t1; t2])] in
  get_all_originals (run calls fresh) = [py "서연"; py "서연"] /\
  ~ NoDup (get_all_originals (run calls fresh)).
Proof.
  split; [reflexivity|].
  intros H. inversion H as [|x l Hnotin Hnd]; subst.
  apply Hnotin. left. reflexivity.
Qed.

End GlossaryFacts.

(* ===================================================================== *)
(** * Name consistency *)
(* ===================================================================== *)

Section NameConsistencyFacts.
Import NameConsistency.

(** The projected offset is computed in double precision: one 49th of 49
    falls just below 1 and truncates to 0. *)
Example expected_position_rounds_like_python :
  expected_position 1 49 49 = 0 /\ expected_position 1 3 6 = 2.
Proof. vm_compute. split; reflexivity. Qed.

(** ** Strings and dictionaries *)








Lemma dict_get_key {V : Type} (k : pystr) (v : V) (d : dict V) :
  dict_get k d = Some v -> In k (dict_keys d).
Proof.
  unfold dict_keys. induction d as [|[k0 v0] d IH]; simpl; [discriminate|].
  destruct (str_eqb k0 k) eqn:E.
  - intros _. left. now apply str_eqb_eq.
  - intros H. right. now apply IH.
Qed.

(** ** The two indexes *)









(** The corrected entry also carries its provenance. *)
Example corrected_entry_records_provenance :
  enforce_name_consistency
    [character_term (py "이서연") (py "李書妍");
     character_term (py "서연") (py "舒妍")] TAIWANESE
  = [character_term (py "이서연") (py "李書妍");
     mkTerm (py "서연") (py "書妍") CHARACTER [] [] []
       (Some (py "舒妍")) (Some (py "서연")) None None].
Proof. vm_compute. reflexivity. Qed.

End NameConsistencyFacts.

(* ===================================================================== *)
(** * Regular expressions: checks against the [re] module *)
(* ===================================================================== *)

Section ReFacts.
Import Re.

Example int_of_digits :
  py_int (py "013") = Some 13%Z /\ py_int (py " 1_000 ") = Some 1000%Z /\
  py_int (py "abc") = None /\ py_int (py "-7") = Some (-7)%Z /\ py_int [] = None.
Proof. vm_compute. repeat split; reflexivity. Qed.

Example match_with_group :
  let r := seq [Bol; chr 35; Group (plus digit); lit (py "화"); Star space; Eol] in
  option_map (fun m => (m_start m, m_end m, group1 (py "#12화  ") m))
             (py_match r (py "#12화  "))
  = Some (0, 6, Some (py "12"))
  /\ py_match r (py "#12화 x") = None.
Proof. vm_compute. split; reflexivity. Qed.

Example greedy_star_backtracks :
  option_map m_end (py_match (seq [Star dot; chr 97; chr 98]) (py "xxabyab"))
  = Some 7.
Proof. vm_compute. reflexivity. Qed.

Example findall_groups :
  findall (seq [chr 36; Group digits3]) (py "a$001b$0023$x$123") =
  [py "001"; py "002"; py "123"].
Proof. vm_compute. reflexivity. Qed.

End ReFacts.

(* ===================================================================== *)
(** * Translation QA *)
(* ===================================================================== *)

Section TranslationQAFacts.
Import TranslationQA Examples.

(** ** Language mixing *)



(** C5, as the code has it. The Hangul pattern stops at every space, so
    the example text yields three language-mixing issues, one per run
    ("그는", "집에", "갔다와서"), each of error severity and none
    downgraded by the onomatopoeia list; the validation fails. *)
Theorem language_mixing_reports_each_hangul_run :
  check_language_mixing korean_to_japanese mixed_text =
    [korean_found (py "그는") 0 mixed_text;
     korean_found (py "집에") 3 mixed_text;
     korean_found (py "갔다와서") 6 mixed_text]
  /\ issues (validate korean_to_japanese mixed_text None)
     = check_language_mixing korean_to_japanese mixed_text
  /\ passed (validate korean_to_japanese mixed_text None) = false
  /\ Forall (fun i => severity i = ERROR /\ issue_type i = LANGUAGE_MIXING)
            (check_language_mixing korean_to_japanese mixed_text).
Proof.
  assert (H : check_language_mixing korean_to_japanese mixed_text =
    [korean_found (py "그는") 0 mixed_text;
     korean_found (py "집에") 3 mixed_text;
     korean_found (py "갔다와서") 6 mixed_text]) by (vm_compute; reflexivity).
  split; [exact H|]. split; [vm_compute; reflexivity|].
  split; [vm_compute; reflexivity|].
  rewrite H. repeat constructor.
Qed.

(** C5, counterexample: the result is not a single issue, and none of
    the issues has the text "그는 집에 갔다". *)
Lemma language_mixing_not_one_issue :
  length (check_language_mixing korean_to_japanese mixed_text) = 3
  /\ ~ (exists i, check_language_mixing korean_to_japanese mixed_text = [i])
  /\ Forall (fun i => text i <> py "그는 집에 갔다")
            (check_language_mixing korean_to_japanese mixed_text).
Proof.
  split; [vm_compute; reflexivity|]. split.
  - intros [i Hi]. apply (f_equal (@length _)) in Hi.
    vm_compute in Hi. discriminate.
  - vm_compute. repeat constructor; discriminate.
Qed.


(** ** Auto-fix *)

Section AutoFixFacts.

Variable llm_state : Type.
Variable llm_execute :
  llm_state -> pystr -> pystr -> pystr -> list term -> llm_response * llm_state.

Lemma fold_left_invariant {S A : Type} (f : S -> A -> S)
    (P : S -> list A -> Prop)
    (Hstep : forall s d a, P s d -> P (f s a) (d ++ [a]))
    (l d : list A) (s : S) :
  P s d -> P (fold_left f l s) (d ++ l).
Proof.
  revert d s. induction l as [|a l IH]; intros d s Hs; simpl.
  - now rewrite app_nil_r.
  - replace (d ++ a :: l) with ((d ++ [a]) ++ l)
      by (rewrite <- app_assoc; reflexivity).
    apply IH. now apply Hstep.
Qed.

Lemma log_chain_app (txt mid final : pystr) (l1 l2 : list (QAIssue * outcome)) :
  log_chain txt l1 mid -> log_chain mid l2 final ->
  log_chain txt (l1 ++ l2) final.
Proof.
  revert txt. induction l1 as [|[i o] l1 IH]; intros txt H1 H2; simpl in *.
  - now subst mid.
  - destruct o as [before after| |working].
    + destruct H1 as [Hb H1]. split; [exact Hb | now apply IH].
    + now apply IH.
    + destruct H1 as [Hw H1]. split; [exact Hw | now apply IH].
Qed.

Lemma mixing_error_has_no_literal_fix (i : QAIssue) :
  is_mixing_error i = true -> has_literal_fix i = false.
Proof.
  unfold is_mixing_error, has_literal_fix. intros H.
  apply andb_true_iff in H. destruct H as [H _]. apply str_eqb_eq in H.
  rewrite H. reflexivity.
Qed.

Local Abbreviation consistent := (log_consistent llm_execute).
Local Abbreviation ok := (entry_ok llm_execute).

Lemma log_consistent_snoc_fixed (v : validator) (txt : pystr) (st : fix_state)
    (i : QAIssue) (after : pystr) :
  consistent v txt st ->
  ok v (i, Fixed (fixed_text st) after) ->
  consistent v txt
    (mkFix after (S (fixed_count st)) (unfixed_issues st)
           (fix_log st ++ [(i, Fixed (fixed_text st) after)])).
Proof.
  intros (Hc & Hu & Hok & Hch) He. unfold log_consistent. simpl.
  rewrite !filter_app, !length_app, map_app. simpl.
  rewrite app_nil_r. repeat split.
  - rewrite Hc. lia.
  - exact Hu.
  - apply Forall_app. split; [assumption | constructor; [assumption|constructor]].
  - apply (@log_chain_app _ _ _ _ _ Hch). simpl. auto.
Qed.

Lemma log_consistent_snoc_skipped (v : validator) (txt : pystr) (st : fix_state)
    (i : QAIssue) :
  consistent v txt st ->
  ok v (i, Skipped (fixed_text st)) ->
  consistent v txt
    (mkFix (fixed_text st) (fixed_count st) (unfixed_issues st)
           (fix_log st ++ [(i, Skipped (fixed_text st))])).
Proof.
  intros (Hc & Hu & Hok & Hch) He. unfold log_consistent. simpl.
  rewrite !filter_app, !length_app, map_app. simpl.
  rewrite app_nil_r. repeat split.
  - rewrite Hc. lia.
  - exact Hu.
  - apply Forall_app. split; [assumption | constructor; [exact He|constructor]].
  - apply (@log_chain_app _ _ _ _ _ Hch). simpl. auto.
Qed.

Lemma log_consistent_snoc_unfixed (v : validator) (txt : pystr) (st : fix_state)
    (i : QAIssue) :
  consistent v txt st ->
  has_literal_fix i = false ->
  consistent v txt
    (mkFix (fixed_text st) (fixed_count st) (unfixed_issues st ++ [i])
           (fix_log st ++ [(i, Unfixed)])).
Proof.
  intros (Hc & Hu & Hok & Hch) He. unfold log_consistent. simpl.
  rewrite !filter_app, !length_app, map_app. simpl.
  repeat split.
  - rewrite Hc. lia.
  - now rewrite Hu.
  - apply Forall_app. split; [assumption | constructor; [exact He|constructor]].
  - apply (@log_chain_app _ _ _ _ _ Hch). simpl. reflexivity.
Qed.

Lemma replace_step_consistent (v : validator) (txt : pystr) (st : fix_state)
    (i : QAIssue) :
  has_literal_fix i = true ->
  consistent v txt st ->
  consistent v txt (replace_step st i (expected_or_empty i)) /\
  map fst (fix_log (replace_step st i (expected_or_empty i)))
  = map fst (fix_log st) ++ [i].
Proof.
  intros Hlit Hst. unfold replace_step.
  destruct (contains (text i) (fixed_text st)) eqn:E; simpl.
  - split; [|now rewrite map_app].
    apply log_consistent_snoc_fixed; [assumption|].
    split; [exact E|]. left. now split.
  - split; [|now rewrite map_app].
    apply log_consistent_snoc_skipped; [assumption|].
    split; [exact E | now left].
Qed.

Lemma direct_step_inv (v : validator) (txt : pystr)
    (acc : fix_state * list QAIssue) (seen : list QAIssue) (i : QAIssue) :
  direct_inv llm_execute v txt acc seen ->
  direct_inv llm_execute v txt (direct_step acc i) (seen ++ [i]).
Proof.
  destruct acc as [st mixing]. intros (Hst & Hperm & Hmix).
  simpl in Hst, Hperm, Hmix.
  assert (Hlog : has_literal_fix i = true ->
             direct_inv llm_execute v txt
               (replace_step st i (expected_or_empty i), mixing) (seen ++ [i])).
  { intros Hlit. destruct (@replace_step_consistent v txt st i Hlit Hst) as [H1 H2].
    split; [exact H1|]. split; [|exact Hmix]. cbn [fst snd].
    rewrite H2, <- app_assoc.
    apply Permutation_trans with ((map fst (fix_log st) ++ mixing) ++ [i]).
    - rewrite <- app_assoc. apply Permutation_app_head. apply Permutation_app_comm.
    - now apply Permutation_app_tail. }
  unfold direct_step.
  destruct (str_eqb (issue_type i) GLOSSARY_MISMATCH && truthy_opt (expected i))
    eqn:Eg.
  { apply Hlog. unfold has_literal_fix.
    apply andb_true_iff in Eg. destruct Eg as [-> ->]. reflexivity. }
  destruct (str_eqb (issue_type i) LANGUAGE_MIXING && str_eqb (severity i) ERROR)
    eqn:Em.
  { split; [exact Hst|]. cbn [fst snd]. split.
    - rewrite app_assoc. now apply Permutation_app_tail.
    - apply Forall_app. split; [exact Hmix | constructor; [exact Em|constructor]]. }
  destruct (str_eqb (issue_type i) UNTRANSLATED_TERM && truthy_opt (expected i))
    eqn:Eu.
  { apply Hlog. unfold has_literal_fix.
    apply andb_true_iff in Eu. destruct Eu as [-> ->].
    now rewrite orb_true_r. }
  split; [|split; [|exact Hmix]]; cbn [fst snd].
  - apply log_consistent_snoc_unfixed; [exact Hst|].
    unfold has_literal_fix.
    destruct (str_eqb (issue_type i) GLOSSARY_MISMATCH),
             (str_eqb (issue_type i) UNTRANSLATED_TERM),
             (truthy_opt (expected i)); simpl in *; congruence.
  - cbn [fix_log]. rewrite map_app. simpl. rewrite <- app_assoc.
    apply Permutation_trans with ((map fst (fix_log st) ++ mixing) ++ [i]).
    + rewrite <- app_assoc. apply Permutation_app_head. apply Permutation_app_comm.
    + now apply Permutation_app_tail.
Qed.

Lemma direct_loop_inv (v : validator) (todo : list QAIssue) (txt : pystr) :
  direct_inv llm_execute v txt
    (fold_left direct_step todo (mkFix txt 0 [] [], [])) todo.
Proof.
  apply (fold_left_invariant direct_step (direct_inv llm_execute v txt)
           (@direct_step_inv v txt) todo [] (mkFix txt 0 [] [], [])).
  split; [|split]; cbn [fst snd fix_log map app].
  - repeat split; try constructor.
  - constructor.
  - constructor.
Qed.

Lemma mixing_step_inv (v : validator) (txt : pystr) (acc : fix_state * llm_state)
    (seen : list QAIssue) (i : QAIssue) :
  mixing_inv llm_execute v txt acc seen ->
  mixing_inv llm_execute v txt (mixing_step llm_execute v acc i) (seen ++ [i]).
Proof.
  destruct acc as [st llm]. intros Hinv Hall.
  apply Forall_app in Hall. destruct Hall as [Hseen_all Hi].
  inversion Hi as [|? ? Hmix _]; subst.
  destruct (Hinv Hseen_all) as [Hst Hseen]. simpl in Hst, Hseen.
  unfold mixing_step.
  destruct (contains (text i) (fixed_text st)) eqn:E; simpl.
  - destruct (llm_execute llm (text i) (backend_target v) _ (glossary v))
      as [resp llm'] eqn:Ecall.
    assert (Hkeep :
      consistent v txt
        (mkFix (fixed_text st) (fixed_count st) (unfixed_issues st ++ [i])
               (fix_log st ++ [(i, Unfixed)])) /\
      map fst (fix_log st ++ [(i, Unfixed)]) = seen ++ [i]).
    { split; [apply log_consistent_snoc_unfixed;
              [assumption | now apply mixing_error_has_no_literal_fix]|].
      rewrite map_app, Hseen. reflexivity. }
    destruct resp as [|output]; [exact Hkeep|].
    destruct (truthy output) eqn:Et; [|exact Hkeep].
    destruct (has_korean (strip output)) eqn:Ek; simpl; [exact Hkeep|].
    split; simpl.
    + apply log_consistent_snoc_fixed; [assumption|].
      split; [exact E|]. right. split; [exact Hmix|].
      exists llm, llm', output. auto.
    + rewrite map_app, Hseen. reflexivity.
  - split; simpl.
    + apply log_consistent_snoc_skipped; [assumption|].
      split; [exact E | now right].
    + rewrite map_app, Hseen. reflexivity.
Qed.

Lemma mixing_loop_inv (v : validator) (txt : pystr) (todo : list QAIssue)
    (llm : llm_state) :
  mixing_inv llm_execute v txt (fix_language_mixing llm_execute v txt todo llm) todo.
Proof.
  unfold fix_language_mixing.
  apply (fold_left_invariant (mixing_step llm_execute v)
           (mixing_inv llm_execute v txt)
           (@mixing_step_inv v txt) todo [] (mkFix txt 0 [] [], llm)).
  intros _. split; simpl; [|reflexivity].
  repeat split; constructor.
Qed.

Lemma log_partition (log : list (QAIssue * outcome)) :
  length (filter is_fixed log) + length (filter is_unfixed log)
  + length (filter is_skipped log) = length log.
Proof.
  induction log as [|[i o] log IH]; simpl; [reflexivity|].
  unfold is_fixed, is_unfixed, is_skipped in *. simpl.
  destruct o; simpl; lia.
Qed.

Lemma log_consistent_app (v : validator) (txt : pystr) (st1 st2 : fix_state) :
  consistent v txt st1 -> consistent v (fixed_text st1) st2 ->
  consistent v txt
    (mkFix (fixed_text st2) (fixed_count st1 + fixed_count st2)
           (unfixed_issues st1 ++ unfixed_issues st2)
           (fix_log st1 ++ fix_log st2)).
Proof.
  intros (Hc1 & Hu1 & Hok1 & Hch1) (Hc2 & Hu2 & Hok2 & Hch2).
  unfold log_consistent. simpl.
  rewrite !filter_app, length_app, map_app. repeat split.
  - now rewrite Hc1, Hc2.
  - now rewrite Hu1, Hu2.
  - apply Forall_app. now split.
  - exact (@log_chain_app _ _ _ _ _ Hch1 Hch2).
Qed.

Lemma all_unfixed_no_fixed (l : list QAIssue) :
  filter is_fixed (map (fun i => (i, Unfixed)) l) = [].
Proof. induction l as [|x l IH]; simpl; [reflexivity | exact IH]. Qed.

Lemma all_unfixed_issues (l : list QAIssue) :
  map fst (filter is_unfixed (map (fun i => (i, Unfixed)) l)) = l.
Proof. induction l as [|x l IH]; simpl; [reflexivity | now rewrite IH]. Qed.

Lemma all_unfixed_chain (txt : pystr) (l : list QAIssue) :
  log_chain txt (map (fun i => (i, Unfixed)) l) txt.
Proof. induction l as [|x l IH]; simpl; [reflexivity | exact IH]. Qed.

Lemma auto_fix_run_accounts (v : validator) (txt : pystr) (todo : list QAIssue)
    (llm : option llm_state) :
  let st := fst (auto_fix_run llm_execute v txt todo llm) in
  consistent v txt st /\ Permutation (map fst (fix_log st)) todo.
Proof.
  unfold auto_fix_run.
  pose proof (direct_loop_inv v todo txt) as Hd.
  destruct (fold_left direct_step todo (mkFix txt 0 [] [], [])) as [st mixing].
  destruct Hd as (Hst & Hperm & Hmix). simpl in Hst, Hperm, Hmix.
  destruct mixing as [|m mixing].
  - simpl. rewrite app_nil_r in Hperm. now split.
  - destruct llm as [l|].
    + pose proof (@mixing_loop_inv v (fixed_text st) (m :: mixing) l Hmix) as Hm.
      destruct (fix_language_mixing llm_execute v (fixed_text st) (m :: mixing) l)
        as [mst l'].
      destruct Hm as [Hmst Hseen]. simpl in Hmst, Hseen. simpl.
      split; [now apply log_consistent_app|].
      rewrite map_app, Hseen. exact Hperm.
    + cbn [fst]. split.
      * destruct Hst as (Hc & Hu & Hok & Hch). unfold log_consistent.
        cbn [fixed_count unfixed_issues fix_log fixed_text].
        rewrite !filter_app, length_app, map_app.
        rewrite (all_unfixed_no_fixed (m :: mixing)).
        rewrite (all_unfixed_issues (m :: mixing)).
        simpl length at 2. repeat split.
        -- rewrite Hc. lia.
        -- now rewrite Hu.
        -- apply Forall_app. split; [assumption|].
           apply Forall_forall. intros e He. apply in_map_iff in He.
           destruct He as [x [<- Hx]]. cbn [entry_ok fst snd].
           apply mixing_error_has_no_literal_fix.
           rewrite Forall_forall in Hmix. now apply Hmix.
        -- exact (@log_chain_app _ _ _ _ _ Hch (all_unfixed_chain _ _)).
      * cbn [fix_log]. rewrite map_app, map_map. cbn [fst].
        rewrite map_id. exact Hperm.
Qed.

End AutoFixFacts.

(** C2, as the code has it. [auto_fix] does one of three things with
    each input issue. It fixes it and counts it in [fixed_count]: the
    issue's text occurs in the working text and is replaced there, every
    occurrence by the expected text for a glossary mismatch or an
    untranslated term, the first occurrence by the backend's translation
    for a language-mixing error (the count goes up whether or not the
    replacement changes the text). Or it puts the issue in
    [unfixed_issues]. Or it skips the issue, because the issue's text
    does not occur in the working text when its turn comes. The three
    groups together are the input issues, and the text returned is the
    input text after the counted replacements, applied in the order of
    the log. *)
Theorem auto_fix_fixes_keeps_or_skips
    (llm_state : Type)
    (llm_execute : llm_state -> pystr -> pystr -> pystr -> list term
                   -> llm_response * llm_state)
    (v : validator) (txt : pystr) (todo : list QAIssue)
    (llm : option llm_state) :
  let st := fst (auto_fix_run llm_execute v txt todo llm) in
  let log := fix_log st in
  auto_fix llm_execute v txt todo llm
    = (fixed_text st, fixed_count st, unfixed_issues st) /\
  Permutation (map fst log) todo /\
  log_chain txt log (fixed_text st) /\
  Forall (entry_ok llm_execute v) log /\
  fixed_count st = length (filter is_fixed log) /\
  unfixed_issues st = map fst (filter is_unfixed log) /\
  fixed_count st + length (unfixed_issues st) + length (filter is_skipped log)
    = length todo.
Proof.
  intros st log.
  destruct (auto_fix_run_accounts llm_execute v txt todo llm)
    as [(Hc & Hu & Hok & Hch) Hperm].
  fold st in Hc, Hu, Hok, Hch, Hperm. fold log in Hc, Hu, Hok, Hch, Hperm.
  split; [reflexivity|]. split; [exact Hperm|]. split; [exact Hch|].
  split; [exact Hok|]. split; [exact Hc|]. split; [exact Hu|].
  rewrite Hc, Hu, length_map, log_partition.
  rewrite <- (Permutation_length Hperm). symmetry. apply length_map.
Qed.

(** C2, counterexamples to the claim as it was worded. First, an issue
    that is dropped: the glossary lists "서연" before "이서연" and the
    text still has "이서연". Validation reports three issues; the fix of
    "서연" rewrites the text so that "이서연" no longer occurs, and the
    issue of "이서연" is then neither counted as fixed nor returned as
    unfixed. Second, an issue that is counted as fixed without any
    change of the text: the glossary keeps "HP" as "HP", validation
    reports it as untranslated, and its replacement by itself is
    counted. *)
Lemma auto_fix_drops_an_issue_and_counts_an_unchanged_text :
  (let todo := issues (validate name_validator name_text None) in
   let '(fixed, count, unfixed) :=
     auto_fix no_backend name_validator name_text todo None in
   length todo = 3 /\ count = 1 /\ length unfixed = 1 /\
   count + length unfixed <> length todo /\
   fixed = py "이ソヨンは笑った" /\
   exists i, In i todo /\ text i = py "이서연" /\
             expected i = Some (py "イ・ソヨン") /\ ~ In i unfixed /\
             contains (py "イ・ソヨン") fixed = false) /\
  (let v := new_validator ascii_lower (py "korean") (py "japanese")
              [mkTerm (py "HP") (py "HP") (py "term") [] [] []
                 None None None None] None in
   let txt := py "HPが減った" in
   let todo := issues (validate v txt None) in
   let '(fixed, count, unfixed) := auto_fix no_backend v txt todo None in
   length todo = 1 /\ count = 1 /\ unfixed = [] /\ fixed = txt).
Proof.
  split.
  - vm_compute. repeat (split; [reflexivity || discriminate|]).
    eexists. split; [right; right; left; reflexivity|].
    repeat (split; [reflexivity|]). split; [|reflexivity].
    intros [H | []]. discriminate.
  - vm_compute. repeat split; reflexivity.
Qed.

End TranslationQAFacts.

(* ===================================================================== *)
(** * The auto-fix retry loop *)
(* ===================================================================== *)

Section Stage2aFacts.
Import TranslationQA Stage2a Examples.

Variable llm_state : Type.
Variable llm_execute :
  llm_state -> pystr -> pystr -> pystr -> list term -> llm_response * llm_state.
Variable auto_fix_enabled : bool.
Variable glossary_terms : list term.
Variable config : language_config.

Local Abbreviation loop :=
  (retry_loop llm_execute auto_fix_enabled glossary_terms config).

Lemma app_cons_same_length {A : Type} (l1 l2 r1 r2 : list A) (a b : A) :
  l1 ++ a :: r1 = l2 ++ b :: r2 -> length l1 = length l2 -> a = b.
Proof.
  revert l2. induction l1 as [|x l1 IH]; intros [|y l2]; simpl;
    intros H Hlen; try discriminate; inversion H; eauto.
Qed.

(** The loop only ever appends passes. *)
Lemma retry_loop_extends (budget : nat) (st : loop_state llm_state) :
  exists more, passes (loop budget st) = passes st ++ more.
Proof.
  revert st. induction budget as [|b IH]; intros st; simpl.
  - exists []. now rewrite app_nil_r.
  - set (p := validation_pass _ _ _ _ _ _).
    set (st' := mkLoop _ _ _ _).
    assert (Hst' : exists more, passes st' = passes st ++ more)
      by (exists [summary p]; reflexivity).
    destruct (lang_errors (summary p) =? 0); [exact Hst'|].
    destruct (negb auto_fix_enabled); [exact Hst'|].
    destruct ((lang_fixed (summary p) =? 0) && (0 <? lang_errors (summary p)));
      [exact Hst'|].
    destruct (IH st') as [more Hmore]. rewrite Hmore. subst st'. simpl.
    exists (summary p :: more). now rewrite <- app_assoc.
Qed.

(** A pass made by the loop that fixed nothing and found errors is the
    last pass. *)
Lemma retry_loop_stops (budget : nat) (st : loop_state llm_state)
    (before after : list pass_summary) (s : pass_summary) :
  passes (loop budget st) = before ++ s :: after ->
  length (passes st) <= length before ->
  lang_fixed s = 0 -> 0 < lang_errors s ->
  after = [].
Proof.
  revert st. induction budget as [|b IH]; intros st Hp Hlen Hfix Herr.
  - simpl in Hp. apply (f_equal (@length _)) in Hp.
    rewrite length_app in Hp. simpl in Hp. lia.
  - simpl in Hp.
    set (p := validation_pass _ _ _ _ _ _) in Hp.
    set (st' := mkLoop _ _ _ _) in Hp.
    assert (Hlast : passes st' = before ++ s :: after -> after = []).
    { subst st'. simpl. intros H.
      assert (Hl := f_equal (@length _) H).
      rewrite !length_app in Hl. simpl in Hl.
      assert (Hb : length before = length (passes st)) by lia.
      assert (Ha : length after = 0) by lia.
      now destruct after. }
    destruct (lang_errors (summary p) =? 0) eqn:E0; [now apply Hlast|].
    destruct (negb auto_fix_enabled); [now apply Hlast|].
    destruct ((lang_fixed (summary p) =? 0) && (0 <? lang_errors (summary p)))
      eqn:Estop; [now apply Hlast|].
    destruct (Nat.eq_dec (length before) (length (passes st))) as [Heq | Hne].
    + (* the pass in question is the one just made: it did not stop the
         loop, so it fixed something or found no error *)
      exfalso.
      destruct (retry_loop_extends b st') as [more Hmore].
      rewrite Hmore in Hp. subst st'. simpl in Hp.
      rewrite <- app_assoc in Hp. simpl in Hp.
      apply app_cons_same_length in Hp; [|now symmetry].
      rewrite Hp in Estop. rewrite Hfix in Estop. simpl in Estop.
      apply Nat.ltb_ge in Estop. lia.
    + apply (IH st'); try assumption.
      subst st'. simpl. rewrite length_app. simpl. lia.
Qed.

End Stage2aFacts.

Section Stage2aClaims.
Import TranslationQA Stage2a Examples.

(** C9. If a pass of the retry loop applies no fix ([lang_fixed == 0])
    while it found errors, it is the last pass: the loop makes no
    further pass, whatever is left of [max_retries], and the reported
    number of retries is the number of that pass. *)
Theorem zero_fix_pass_with_errors_ends_retries
    (llm_state : Type)
    (llm_execute : llm_state -> pystr -> pystr -> pystr -> list term
                   -> llm_response * llm_state)
    (auto_fix_enabled : bool) (max_retries : nat)
    (glossary_terms : list term) (config : language_config)
    (files : list episode_entry) (llm : option llm_state)
    (k : nat) (s : pass_summary) :
  let final := run_retries llm_execute auto_fix_enabled max_retries
                 glossary_terms config files llm in
  nth_error (passes final) k = Some s ->
  lang_fixed s = 0 -> 0 < lang_errors s ->
  retry_count final = S k /\
  option_map report_retries
    (language_result llm_execute auto_fix_enabled max_retries
       glossary_terms config files llm) = Some (S k).
Proof.
  intros final Hk Hfix Herr.
  destruct (nth_error_split _ _ Hk) as (before & after & Hsplit & Hlen).
  assert (Hafter : after = []).
  { apply (retry_loop_stops llm_execute auto_fix_enabled glossary_terms config
             max_retries (mkLoop [] 0 files llm) before after s);
      [exact Hsplit | simpl; lia | exact Hfix | exact Herr]. }
  subst after.
  assert (Hcount : retry_count final = S k).
  { unfold retry_count. rewrite Hsplit, length_app. simpl. lia. }
  split; [exact Hcount|].
  unfold language_result. fold final.
  rewrite Hsplit, rev_app_distr. simpl. now rewrite Hcount.
Qed.

(** C9, witness: auto-fix is on but no backend could be created; the
    first pass finds the Korean clause, fixes nothing, and is the only
    pass although five were allowed. *)
Lemma zero_fix_pass_with_errors_witness :
  let final := run_retries no_backend true 5 [] japanese_config
                 [mixed_episode] None in
  retry_count final = 1 /\
  option_map report_retries
    (language_result no_backend true 5 [] japanese_config
       [mixed_episode] None) = Some 1.
Proof.
  eapply (@zero_fix_pass_with_errors_ends_retries unit no_backend true 5 []
            japanese_config [mixed_episode] None 0).
  - vm_compute. reflexivity.
  - reflexivity.
  - vm_compute. lia.
Defined.

(** When a pass does fix something the loop goes on: here the backend
    translates the clause in the first pass and the second pass is
    clean. *)
Example fixing_pass_is_followed_by_another :
  let final := run_retries one_shot_backend true 5 [] japanese_config
                 [mixed_episode] (Some 0) in
  map (fun s => (lang_errors s, lang_fixed s)) (passes final) = [(1, 1); (0, 0)]
  /\ files_now final = [Readable (mkFile 1 (py "彼は 彼は家に帰った") true)].
Proof. vm_compute. split; reflexivity. Qed.

End Stage2aClaims.

(* ===================================================================== *)
(** * The episode splitter *)
(* ===================================================================== *)

Section DirectDetectionFacts.
Import Re Splitter SplitterSpec Examples.

Lemma dict_get_In {V : Type} (k : pystr) (v : V) (d : dict V) :
  dict_get k d = Some v -> In (k, v) d.
Proof.
  induction d as [|[k' v'] d IH]; simpl; [discriminate|].
  destruct (str_eqb k' k) eqn:E.
  - intros H. inversion H; subst. apply str_eqb_eq in E. subst. now left.
  - intros H. right. now apply IH.
Qed.

(** An entry of [pattern_counts] is a known pattern with the number of
    lines it matches, which is not zero. *)
Lemma count_known_patterns_In (text name : pystr) (n : nat) (ex : list pystr) :
  In (name, (n, ex)) (count_known_patterns (lines_of text)) ->
  exists rx c, In (name, rx) KNOWN_PATTERNS /\ compiled rx = Some c /\
               n = matching_lines c text /\ 1 <= n.
Proof.
  unfold count_known_patterns. intros H. apply in_flat_map in H.
  destruct H as [[name' rx] [Hin H]]. simpl in H.
  destruct (compiled rx) as [c|] eqn:Ec; [|contradiction].
  unfold matching_lines.
  destruct (line_matches c (lines_of text)) as [|m ms] eqn:Em; [contradiction|].
  destruct H as [H | []]. inversion H; subst.
  exists rx, c. split; [assumption|]. split; [assumption|].
  split; [rewrite ?Em; reflexivity | simpl; lia].
Qed.

Lemma best_of_In (counts : dict (nat * list pystr))
    (first : pystr * (nat * list pystr)) :
  In (best_of counts first) (first :: counts).
Proof.
  revert first. induction counts as [|kv rest IH]; intros first; simpl.
  - now left.
  - destruct (fst (snd first) <? fst (snd kv)).
    + right. apply IH.
    + destruct (IH first) as [H | H]; [now left | right; now right].
Qed.

(** What direct detection returns has confidence 95 and is multi-episode;
    it is the inline dictionary or names a pattern. *)
Lemma direct_detection_cases (text : pystr) (info : pattern_info) :
  detect_known_pattern_directly text = Some info ->
  exists name ex r est inline,
    info = direct_info name ex r est inline /\
    (inline = true \/
     (inline = false /\ r = known_field name /\
      exists rx0, In (name, rx0) KNOWN_PATTERNS)).
Proof.
  unfold detect_known_pattern_directly.
  destruct (truthy_list _ && _).
  { intros H. inversion H. do 5 eexists. split; [reflexivity | now left]. }
  destruct (count_known_patterns (lines_of text)) as [|first rest] eqn:Ec;
    [discriminate|].
  assert (Hbest : forall name n ex,
            In (name, (n, ex)) (first :: rest) ->
            exists rx0, In (name, rx0) KNOWN_PATTERNS).
  { intros name n ex Hin. rewrite <- Ec in Hin.
    destruct (@count_known_patterns_In _ _ _ _ Hin) as (rx0 & c0 & Hk & _).
    now exists rx0. }
  assert (Hcombined : exists rx0, In (COMBINED_NAME, rx0) KNOWN_PATTERNS).
  { eexists. do 4 right. left. reflexivity. }
  pose proof (best_of_In rest first) as Hin.
  destruct (best_of rest first) as [bname [bn bex]]. cbn [fst snd].
  destruct (pattern_count NNN_NAME (first :: rest));
    [destruct (pattern_count STAR_NNN_NAME (first :: rest))|].
  - intros H. inversion H. do 5 eexists. split; [reflexivity|]. right.
    split; [reflexivity|]. split; [reflexivity | exact Hcombined].
  - destruct (bn <? 3); [discriminate|].
    intros H. inversion H. do 5 eexists. split; [reflexivity|]. right.
    split; [reflexivity|]. split; [reflexivity | exact (Hbest _ _ _ Hin)].
  - destruct (bn <? 3); [discriminate|].
    intros H. inversion H. do 5 eexists. split; [reflexivity|]. right.
    split; [reflexivity|]. split; [reflexivity | exact (Hbest _ _ _ Hin)].
Qed.

(** ** Direct detection against its decision table *)

Lemma known_names_distinct : NoDup (map fst KNOWN_PATTERNS).
Proof.
  vm_compute.
  repeat (constructor;
          [intros H; simpl in H;
           repeat (destruct H as [H | H]; [discriminate|]); exact H|]).
  constructor.
Qed.

Lemma dict_get_none {V : Type} (k : pystr) (d : dict V) :
  ~ In k (map fst d) -> dict_get k d = None.
Proof.
  induction d as [|[k0 v0] d IH]; simpl; [reflexivity|].
  intros H. destruct (str_eqb k0 k) eqn:E.
  - apply str_eqb_eq in E. tauto.
  - apply IH. tauto.
Qed.

Lemma dict_get_distinct {V : Type} (k : pystr) (v : V) (d : dict V) :
  NoDup (map fst d) -> In (k, v) d -> dict_get k d = Some v.
Proof.
  induction d as [|[k0 v0] d IH]; simpl; [intros _ []|].
  intros Hnd [H | H].
  - inversion H; subst. now rewrite str_eqb_refl.
  - inversion Hnd as [|? ? Hnotin Hnd']; subst.
    destruct (str_eqb k0 k) eqn:E.
    + apply str_eqb_eq in E. subst k0. exfalso. apply Hnotin.
      apply in_map_iff. now exists (k, v).
    + now apply IH.
Qed.

Section Counts.

Variable text : pystr.

Local Abbreviation cnt :=
  (fun kv : pystr * regex => length (matches_of text (snd kv))).

Local Abbreviation entry :=
  (fun kv : pystr * regex =>
     match matches_of text (snd kv) with
     | [] => []
     | m :: ms => [(fst kv, (length (m :: ms), firstn 5 (m :: ms)))]
     end).

Lemma count_known_patterns_entries :
  count_known_patterns (lines_of text) = flat_map entry KNOWN_PATTERNS.
Proof.
  unfold count_known_patterns. apply flat_map_ext. intros [name rx].
  unfold matches_of. cbn [fst snd]. destruct (compiled rx); [|reflexivity].
  destruct (line_matches r (lines_of text)); reflexivity.
Qed.

Lemma entries_get (K : list (pystr * regex)) (name : pystr) :
  NoDup (map fst K) ->
  dict_get name (flat_map entry K)
  = match dict_get name K with
    | Some rx =>
      match matches_of text rx with
      | [] => None
      | m :: ms => Some (length (m :: ms), firstn 5 (m :: ms))
      end
    | None => None
    end.
Proof.
  induction K as [|[k rx] K IH]; [reflexivity|].
  intros Hnd. inversion Hnd as [|? ? Hnotin Hnd']; subst.
  cbn [flat_map dict_get fst snd].
  destruct (matches_of text rx) as [|m ms] eqn:Em; cbn [app].
  - rewrite (IH Hnd'). destruct (str_eqb k name) eqn:E; [|reflexivity].
    apply str_eqb_eq in E. subst k.
    now rewrite (dict_get_none name K Hnotin), Em.
  - cbn [dict_get fst]. destruct (str_eqb k name); [now rewrite Em | exact (IH Hnd')].
Qed.

Lemma entries_max (K : list (pystr * regex)) (acc : nat) :
  fold_left (fun acc (kv : pystr * (nat * list pystr)) =>
               Nat.max acc (fst (snd kv))) (flat_map entry K) acc
  = Nat.max acc (list_max (map cnt K)).
Proof.
  revert acc. induction K as [|[k rx] K IH]; intros acc; cbn [flat_map map].
  - simpl. lia.
  - rewrite fold_left_app, IH. cbn [list_max fold_right snd].
    change (fold_right Nat.max 0 (map cnt K)) with (list_max (map cnt K)).
    destruct (matches_of text rx) as [|m ms]; cbn [fold_left fst snd length]; lia.
Qed.

Lemma entries_find (K : list (pystr * regex)) (M : nat) :
  0 < M ->
  List.find (fun e : pystr * (nat * list pystr) => fst (snd e) =? M)
            (flat_map entry K)
  = option_map (fun kv => (fst kv, (cnt kv, firstn 5 (matches_of text (snd kv)))))
               (List.find (fun kv => cnt kv =? M) K).
Proof.
  intros HM. induction K as [|[k rx] K IH]; [reflexivity|].
  cbn [flat_map List.find fst snd].
  destruct (matches_of text rx) as [|m ms] eqn:Em; cbn [app length].
  - assert (E : (0 =? M) = false) by (apply Nat.eqb_neq; lia).
    rewrite E. exact IH.
  - cbn [List.find fst snd length].
    destruct (S (length ms) =? M); [|exact IH].
    cbn [option_map fst snd]. now rewrite Em.
Qed.

Lemma best_of_find (l : dict (nat * list pystr)) (b : pystr * (nat * list pystr)) :
  List.find (fun e : pystr * (nat * list pystr) =>
               fst (snd e)
               =? Nat.max (fst (snd b)) (list_max (map (fun e => fst (snd e)) l)))
            (b :: l)
  = Some (best_of l b).
Proof.
  revert b. induction l as [|kv l IH]; intros b.
  - cbn [List.find map list_max fold_right best_of].
    rewrite Nat.max_0_r, Nat.eqb_refl. reflexivity.
  - cbn [best_of map list_max fold_right].
    change (fold_right Nat.max 0 (map (fun e : pystr * (nat * list pystr) =>
                                         fst (snd e)) l))
      with (list_max (map (fun e : pystr * (nat * list pystr) => fst (snd e)) l)).
    set (L := list_max (map (fun e : pystr * (nat * list pystr) => fst (snd e)) l)).
    specialize (IH kv) as IHkv. specialize (IH b) as IHb.
    fold L in IHkv, IHb.
    destruct (fst (snd b) <? fst (snd kv)) eqn:E.
    + apply Nat.ltb_lt in E. rewrite <- IHkv.
      replace (Nat.max (fst (snd b)) (Nat.max (fst (snd kv)) L))
        with (Nat.max (fst (snd kv)) L) by lia.
      cbn [List.find].
      assert (Eb : (fst (snd b) =? Nat.max (fst (snd kv)) L) = false)
        by (apply Nat.eqb_neq; lia).
      now rewrite Eb.
    + apply Nat.ltb_ge in E. rewrite <- IHb.
      replace (Nat.max (fst (snd b)) (Nat.max (fst (snd kv)) L))
        with (Nat.max (fst (snd b)) L) by lia.
      cbn [List.find].
      destruct (fst (snd b) =? Nat.max (fst (snd b)) L) eqn:Eb; [reflexivity|].
      apply Nat.eqb_neq in Eb.
      assert (Ekv : (fst (snd kv) =? Nat.max (fst (snd b)) L) = false)
        by (apply Nat.eqb_neq; lia).
      now rewrite Ekv.
Qed.

Lemma max_count_list_max (counts : dict (nat * list pystr)) (acc : nat) :
  fold_left (fun acc (kv : pystr * (nat * list pystr)) =>
               Nat.max acc (fst (snd kv))) counts acc
  = Nat.max acc (list_max (map (fun e => fst (snd e)) counts)).
Proof.
  revert acc. induction counts as [|e counts IH]; intros acc; simpl; [lia|].
  rewrite IH.
  change (fold_right Nat.max 0 (map (fun e : pystr * (nat * list pystr) =>
                                       fst (snd e)) counts))
    with (list_max (map (fun e : pystr * (nat * list pystr) => fst (snd e))
                        counts)).
  lia.
Qed.

(** The line counts of the model are those of the specification. *)
Lemma max_count_is_best :
  max_count (count_known_patterns (lines_of text)) = best_line_start_count text.
Proof.
  unfold max_count, best_line_start_count.
  rewrite count_known_patterns_entries, entries_max. apply Nat.max_0_l.
Qed.

Lemma pattern_count_known (name : pystr) :
  dict_get name (count_known_patterns (lines_of text))
  = match line_start_matches text name with
    | [] => None
    | m :: ms => Some (length (m :: ms), firstn 5 (m :: ms))
    end.
Proof.
  rewrite count_known_patterns_entries, (@entries_get KNOWN_PATTERNS name known_names_distinct).
  unfold line_start_matches, known_regex.
  destruct (dict_get name KNOWN_PATTERNS); reflexivity.
Qed.

(** The pattern that the model takes as the best one. *)
Lemma best_of_is_best_matching (first : pystr * (nat * list pystr))
    (rest : dict (nat * list pystr)) :
  count_known_patterns (lines_of text) = first :: rest ->
  exists name,
    best_matching_pattern text = Some name /\
    best_of rest first
    = (name, (best_line_start_count text,
              firstn 5 (line_start_matches text name))).
Proof.
  intros Ec.
  assert (Hmax : best_line_start_count text
                 = Nat.max (fst (snd first))
                     (list_max (map (fun e => fst (snd e)) rest))).
  { rewrite <- max_count_is_best, Ec. unfold max_count.
    cbn [fold_left]. rewrite max_count_list_max. lia. }
  assert (Hpos : 0 < best_line_start_count text).
  { assert (Hin : In first (count_known_patterns (lines_of text)))
      by (rewrite Ec; now left).
    destruct first as [n0 [c0 e0]].
    destruct (@count_known_patterns_In _ _ _ _ Hin) as (_ & _ & _ & _ & _ & H1).
    rewrite Hmax. cbn [fst snd]. lia. }
  pose proof (best_of_find rest first) as Hfind.
  rewrite <- Hmax, <- Ec, count_known_patterns_entries in Hfind.
  rewrite (entries_find KNOWN_PATTERNS Hpos) in Hfind.
  unfold best_matching_pattern.
  destruct (List.find (fun kv => cnt kv =? best_line_start_count text)
                      KNOWN_PATTERNS) as [[name rx]|] eqn:Ef;
    [|discriminate].
  cbn [option_map fst snd] in *. inversion Hfind as [Hbest].
  exists name. split; [reflexivity|].
  destruct (find_some _ _ Ef) as [Hin Hcnt]. cbn [snd] in Hcnt.
  apply Nat.eqb_eq in Hcnt. rewrite Hcnt.
  unfold line_start_matches, known_regex.
  now rewrite (dict_get_distinct name rx KNOWN_PATTERNS known_names_distinct Hin).
Qed.

(** The model of [_detect_known_pattern_directly] computes the decision
    table. *)
Lemma direct_detection_refines :
  detect_known_pattern_directly text = direct_detection_spec text.
Proof.
  unfold detect_known_pattern_directly, direct_detection_spec.
  rewrite max_count_is_best.
  change (match compiled INLINE_EPISODE_PATTERN with
          | Some r => findall r text
          | None => []
          end) with (inline_markers text).
  change (length (distinct (flat_map (fun m => match py_int m with
                                               | Some z => [z]
                                               | None => []
                                               end) (inline_markers text))))
    with (inline_episode_count text).
  change (truthy_list (inline_markers text)
          && (3 * best_line_start_count text <? 2 * inline_episode_count text))
    with (inline_preferred text).
  destruct (inline_preferred text); [reflexivity|].
  unfold pattern_count. rewrite !pattern_count_known.
  unfold line_start_count.
  destruct (count_known_patterns (lines_of text)) as [|first rest] eqn:Ec.
  - (* no known pattern matches a line *)
    assert (H0 : best_line_start_count text = 0)
      by (rewrite <- max_count_is_best, Ec; reflexivity).
    assert (H1 : line_start_matches text NNN_NAME = []).
    { pose proof (pattern_count_known NNN_NAME) as H. rewrite Ec in H.
      destruct (line_start_matches text NNN_NAME); [reflexivity | discriminate]. }
    rewrite H1, H0. cbn [length Nat.leb andb].
    destruct (best_matching_pattern text); reflexivity.
  - destruct (best_of_is_best_matching Ec) as (name & Hname & Hbest).
    rewrite Hbest, Hname. cbn [fst snd option_map].
    rewrite Nat.ltb_antisym.
    set (enough := 3 <=? best_line_start_count text).
    destruct (line_start_matches text NNN_NAME) as [|a1 m1];
      [|destruct (line_start_matches text STAR_NNN_NAME) as [|a2 m2]];
      cbn [option_map fst snd length Nat.leb andb];
      try reflexivity;
      destruct enough; reflexivity.
Qed.

End Counts.

(** C4, as the code has it. Direct detection follows a decision table,
    and whatever it accepts it accepts at confidence 95. If the text
    has inline '$NNN' markers whose distinct numbers exceed one and a
    half times the largest number of lines that a known pattern matches,
    the inline reading is accepted. Otherwise, whenever '$NNN' and
    '* * *$NNN' each match at least one line, the combined pattern is
    accepted, however few the lines. Otherwise the best-matching known
    pattern (the first, in the order of [KNOWN_PATTERNS], with the most
    matching lines) is accepted if and only if it matches at least 3
    lines. Nothing else is accepted: a single known pattern that is
    accepted is the best-matching one and matches at least 3 lines. *)
Theorem direct_detection_follows_decision_table (text : pystr) :
  detect_known_pattern_directly text = direct_detection_spec text /\
  (forall info,
     detect_known_pattern_directly text = Some info ->
     confidence info = Val 95%Z) /\
  (forall info name,
     detect_known_pattern_directly text = Some info ->
     primary_pattern info = Val name ->
     name <> INLINE_NAME -> name <> COMBINED_NAME ->
     inline_preferred text = false /\
     best_matching_pattern text = Some name /\
     line_start_count text name = best_line_start_count text /\
     3 <= line_start_count text name).
Proof.
  pose proof (direct_detection_refines text) as Href.
  split; [exact Href|]. split.
  - intros info H. destruct (direct_detection_cases text H)
      as (name & ex & r & est & inline & -> & _). reflexivity.
  - intros info name H Hp Hni Hnc. rewrite Href in H.
    unfold direct_detection_spec in H.
    destruct (inline_preferred text).
    { inversion H; subst info. apply (f_equal get) in Hp.
      cbn [get primary_pattern direct_info] in Hp. congruence. }
    split; [reflexivity|].
    destruct ((1 <=? line_start_count text NNN_NAME)
              && (1 <=? line_start_count text STAR_NNN_NAME)).
    { inversion H; subst info. apply (f_equal get) in Hp.
      cbn [get primary_pattern direct_info] in Hp. congruence. }
    destruct (best_matching_pattern text) as [best|] eqn:Eb; [|discriminate].
    destruct (3 <=? best_line_start_count text) eqn:E3; [|discriminate].
    inversion H; subst info. apply (f_equal get) in Hp.
    cbn [get primary_pattern direct_info] in Hp.
    assert (best = name) by congruence. subst best. clear Hp.
    apply Nat.leb_le in E3.
    assert (Hcount : line_start_count text name = best_line_start_count text).
    { unfold best_matching_pattern in Eb.
      destruct (List.find _ KNOWN_PATTERNS) as [[n rx]|] eqn:Ef; [|discriminate].
      cbn in Eb. inversion Eb; subst n.
      destruct (find_some _ _ Ef) as [Hin Hcnt]. cbn [snd] in Hcnt.
      apply Nat.eqb_eq in Hcnt. rewrite <- Hcnt.
      unfold line_start_count, line_start_matches, known_regex.
      now rewrite (dict_get_distinct name rx KNOWN_PATTERNS
                     known_names_distinct Hin). }
    split; [reflexivity|]. split; [exact Hcount|]. lia.
Qed.

(** C4, counterexample to the claim as it was worded: one '$NNN' line
    and one '* * *$NNN' line. The combined pattern, a known pattern, is
    accepted at confidence 95 although it matches two lines, and so are
    its two parts with one line each. *)
Lemma combined_pattern_accepted_below_three :
  exists info rx c,
    detect_known_pattern_directly two_marker_text = Some info /\
    confidence info = Val 95%Z /\
    primary_pattern info = Val COMBINED_NAME /\
    known_regex COMBINED_NAME = Some rx /\ compiled rx = Some c /\
    matching_lines c two_marker_text = 2 /\
    ~ 3 <= matching_lines c two_marker_text.
Proof.
  eexists. eexists. eexists.
  split; [vm_compute; reflexivity|].
  split; [reflexivity|]. split; [reflexivity|].
  split; [vm_compute; reflexivity|]. split; [reflexivity|].
  split; [vm_compute; reflexivity|].
  vm_compute. intros H.
  repeat match goal with
         | H : _ <= _ |- _ => inversion H; clear H
         end.
Qed.

End DirectDetectionFacts.

Section ValidationFacts.
Import Re Splitter Examples.

(** The confidence of [_validate_split] is between 70 and 100. *)
Lemma validate_split_bounds (eps : list episode) (info : pattern_info)
    (original_text : pystr) (v : validation) :
  validate_split eps info original_text = Some v ->
  (70 <= validation_confidence v <= 100)%Z.
Proof.
  unfold validate_split. cbv zeta.
  destruct (estimated_or info (Z.of_nat (length eps))); [|discriminate].
  match goal with
  | |- Some (mkValidation (Z.max ?c 70) ?w) = Some v -> _ =>
    assert (Hc : (c <= 100)%Z) by lia;
    revert Hc; generalize c, w; intros conf ws Hc H
  end.
  injection H as <-. cbn [validation_confidence]. lia.
Qed.

(** [_validate_split] returns unless the estimate is null. *)
Lemma validate_split_returns (eps : list episode) (info : pattern_info)
    (original_text : pystr) :
  estimated_episodes info <> Null ->
  exists v, validate_split eps info original_text = Some v.
Proof.
  intros H. unfold validate_split, estimated_or. cbv zeta.
  destruct (estimated_episodes info); [| congruence |]; eexists; reflexivity.
Qed.

Lemma validate_split_null (eps : list episode) (info : pattern_info)
    (original_text : pystr) :
  estimated_episodes info = Null ->
  validate_split eps info original_text = None.
Proof. intros H. unfold validate_split, estimated_or. now rewrite H. Qed.

(** The validation of the whole text as its only episode: the gap and
    the content checks pass; up to 10 is deducted for the estimate and 5
    for a text under 20 words. *)
Lemma validate_split_single (text : pystr) (info : pattern_info) (e : Z) :
  text <> [] ->
  estimated_or info 1 = Some e ->
  exists v,
    validate_split (single_episode text) info text = Some v /\
    validation_confidence v
    = (100
       - (if count_mismatch e 1 then 10 else 0)
       - (if (length (split_ws text) <? 20)%nat then 5 else 0))%Z.
Proof.
  intros Hne He. unfold validate_split, single_episode.
  cbn [length]. change (Z.of_nat 1) with 1%Z. rewrite He. cbv zeta.
  assert (Hlost : content_lost [mkEpisode 1 None text] text = false).
  { unfold content_lost, total_chars. simpl.
    destruct text as [|c t]; [contradiction|]. simpl length.
    destruct (0 <? S (length t)) eqn:E0; [|apply Nat.ltb_ge in E0; lia].
    apply Nat.ltb_ge. lia. }
  assert (Hshort : too_many_short [mkEpisode 1 None text]
                   = (length (split_ws text) <? 20)).
  { unfold too_many_short, very_short_count. simpl.
    destruct (length (split_ws text) <? 20); reflexivity. }
  rewrite Hlost, Hshort. eexists. split; [reflexivity|].
  simpl large_gaps. simpl validation_confidence.
  destruct (count_mismatch e 1); destruct (length (split_ws text) <? 20);
    simpl; reflexivity.
Qed.

End ValidationFacts.

Section ProcessFacts.
Import Re Splitter Examples.

Variable llm_state : Type.
Variable lower : pystr -> pystr.
Variable llm_detect : llm_state -> pystr -> pystr -> nat -> detect_response * llm_state.
Variable llm_titles : llm_state -> list title_sample -> titles_response * llm_state.
Variable llm_split : llm_state -> pystr -> pattern_info -> split_response * llm_state.

Local Abbreviation detect := (detect_pattern llm_detect).
Local Abbreviation run_process := (process lower llm_detect llm_titles llm_split).
Local Abbreviation run_execute := (execute lower llm_detect llm_titles llm_split).

(** What [report] returns when it returns. *)
Lemma report_ok (info : pattern_info) (text : pystr) (how : method)
    (c : option Z) (split : res (list episode) * llm_state)
    (o : output) (st' : llm_state) :
  report info text how c split = (Ok o, st') ->
  exists tier v,
    c = Some tier /\
    validate_split (out_episodes o) info text = Some v /\
    out_confidence o = Z.min tier (validation_confidence v) /\
    out_warnings o = validation_warnings v /\
    out_method o = how /\
    out_is_multi_episode o = get (is_multi_episode info) /\
    split = (Ok (out_episodes o), st').
Proof.
  unfold report. destruct split as [[eps| |] st2]; try discriminate.
  destruct c as [tier|]; [|discriminate].
  destruct (validate_split eps info text) as [v|] eqn:Ev; [|discriminate].
  destruct (more_than_one (patterns info)); [|discriminate].
  intros H. inversion H; subst. cbn.
  exists tier, v. repeat split; try reflexivity. exact Ev.
Qed.

(** The confidence that [process] reports is the smaller of the
    branch's confidence and the validation's. *)
Lemma process_confidence (fuel : nat) (text filename : pystr) (n : nat)
    (st st' : llm_state) (o : output) :
  run_process fuel text filename n st = (Ok o, st') ->
  let info := fst (detect text filename n st) in
  exists tier v,
    tier_confidence info = Some tier /\
    validate_split (out_episodes o) info text = Some v /\
    out_confidence o = Z.min tier (validation_confidence v) /\
    out_is_multi_episode o = get (is_multi_episode info).
Proof.
  unfold process. destruct (negb (truthy text)); [discriminate|].
  destruct (detect text filename n st) as [info st1]. simpl fst.
  unfold tier_confidence.
  destruct (is_multi info) as [[|]|]; [| |discriminate].
  - destruct (truthy_field (use_inline_split info));
      [|destruct (is_known (get (primary_pattern info))
                  || is_known (get (separator_pattern info)))];
      intros H; destruct (report_ok _ _ _ _ _ H)
        as (tier & v & Hc & Hv & Hm & _ & _ & Hi & _);
      exists tier, v; auto.
  - intros H. destruct (report_ok _ _ _ _ _ H)
      as (tier & v & Hc & Hv & Hm & _ & _ & Hi & _).
    exists tier, v; auto.
Qed.

Lemma direct_detection_info (text : pystr) (info : pattern_info) :
  detect_known_pattern_directly text = Some info ->
  confidence info = Val 95%Z /\ is_multi info = Some true /\
  (exists ps, patterns info = Val ps) /\
  (exists e, estimated_episodes info = Val e) /\
  (truthy_field (use_inline_split info) = true \/
   is_known (get (primary_pattern info)) = true).
Proof.
  intros H. destruct (direct_detection_cases text H)
    as (name & ex & r & est & inline & -> & Hways).
  split; [reflexivity|]. split; [reflexivity|].
  split; [eexists; reflexivity|]. split; [eexists; reflexivity|].
  destruct Hways as [-> | (-> & _ & rx0 & Hin)]; [now left | right].
  cbn [direct_info primary_pattern get is_known]. unfold known_regex.
  now rewrite (dict_get_distinct name rx0 KNOWN_PATTERNS known_names_distinct Hin).
Qed.

Lemma detect_direct (text filename : pystr) (n : nat) (st : llm_state)
    (info : pattern_info) :
  detect_known_pattern_directly text = Some info ->
  detect text filename n st = (info, st).
Proof. intros H. unfold detect_pattern. now rewrite H. Qed.

(** What [_detect_pattern] returns has a list under 'patterns' or no
    such key: its length can be taken. *)
Lemma detect_patterns_not_null (text filename : pystr) (n : nat) (st : llm_state) :
  patterns (fst (detect text filename n st)) <> Null.
Proof.
  unfold detect_pattern.
  destruct (detect_known_pattern_directly text) as [d|] eqn:Ed.
  - destruct (@direct_detection_info _ _ Ed) as (_ & _ & [ps Hps] & _).
    cbn [fst]. congruence.
  - destruct (llm_detect st _ filename n) as [[|info] st1];
      [cbn; discriminate|].
    destruct (patterns info) eqn:Ep; destruct (separator_pattern info);
      destruct (confidence info); cbn; congruence.
Qed.

(** [process] on the regex branch. *)
Lemma process_regex_branch (fuel : nat) (text filename : pystr) (n : nat)
    (st st1 : llm_state) (info : pattern_info) :
  truthy text = true ->
  detect text filename n st = (info, st1) ->
  is_multi info = Some true -> truthy_field (use_inline_split info) = false ->
  is_known (get (primary_pattern info))
  || is_known (get (separator_pattern info)) = true ->
  run_process fuel text filename n st
  = report info text Regex (get (confidence info))
      (split_by lower llm_titles llm_split fuel RegexSplit text info st1).
Proof.
  intros Ht Hd Hm Hi Hk. unfold process. rewrite Ht, Hd. simpl negb. cbv iota.
  now rewrite Hm, Hi, Hk.
Qed.

(** [_regex_split] with one usable pattern that finds episodes. *)
Lemma regex_split_single_pattern (fuel : nat) (text : pystr) (info : pattern_info)
    (st : llm_state) (pattern : regex) (r : re) (eps : list episode) :
  more_than_one (patterns info) = Some false ->
  single_pattern_of info = Some (Some pattern) ->
  truthy (source pattern) = true -> compiled pattern = Some r ->
  single_pattern_episodes r text = Some (inr eps) ->
  split_by lower llm_titles llm_split (S fuel) RegexSplit text info st
  = finish lower llm_titles eps info st.
Proof.
  intros Hone Hp Ht Hc He. simpl. now rewrite Hone, Hp, Ht, Hc, He.
Qed.

Lemma update_nth_length {A : Type} (f : A -> A) (l : list A) (n : nat) :
  length (update_nth n f l) = length l.
Proof.
  revert n. induction l as [|y l IH]; intros [|n]; simpl; try reflexivity.
  now rewrite IH.
Qed.

Lemma update_nth_head {A : Type} (n : nat) (f : A -> A) (x : A) (l : list A) :
  exists x' l', update_nth n f (x :: l) = x' :: l' /\
                (x' = x \/ x' = f x) /\ length l' = length l.
Proof.
  destruct n as [|n]; simpl.
  - exists (f x), l. auto.
  - exists x, (update_nth n f l). split; [reflexivity|]. split; [now left|].
    apply update_nth_length.
Qed.

Lemma promote_title_blank (t : pystr) (k : Z) (ep : episode) :
  content ep = [] -> content (promote_title t k ep) = [].
Proof. intros H. unfold promote_title. rewrite H. reflexivity. Qed.

(** Title extraction leaves a first episode without content where it
    is. *)
Lemma apply_titles_blank_head (items : list title_item) (e : episode)
    (rest : list episode) :
  content e = [] ->
  exists e' rest', apply_titles items (e :: rest) = e' :: rest' /\
                   content e' = [] /\ length rest' = length rest.
Proof.
  revert e rest. induction items as [|it items IH]; intros e rest He; simpl.
  - exists e, rest. auto.
  - destruct (item_idx it) as [idx|]; [|now apply IH].
    destruct (item_title it) as [[|c t]|]; try now apply IH.
    destruct (item_title_line_idx it) as [k|]; [|now apply IH].
    destruct (py_index (S (length rest)) idx) as [m|].
    + destruct (update_nth_head m (promote_title (c :: t) k) e rest)
        as (x' & l' & Hu & Hx & Hl).
      rewrite Hu.
      assert (Hx' : content x' = []).
      { destruct Hx as [-> | ->]; [assumption | now apply promote_title_blank]. }
      destruct (IH x' l' Hx') as (e' & rest' & Ha & Hc & Hlen).
      exists e', rest'. rewrite Ha. repeat split; congruence.
    + exists e, rest. auto.
Qed.

End ProcessFacts.

Section SplitterClaims.
Import Re Splitter Examples.

Variable llm_state : Type.
Variable lower : pystr -> pystr.
Variable llm_detect : llm_state -> pystr -> pystr -> nat -> detect_response * llm_state.
Variable llm_titles : llm_state -> list title_sample -> titles_response * llm_state.
Variable llm_split : llm_state -> pystr -> pattern_info -> split_response * llm_state.

Local Abbreviation detect := (detect_pattern llm_detect).
Local Abbreviation run_process := (process lower llm_detect llm_titles llm_split).
Local Abbreviation run_execute := (execute lower llm_detect llm_titles llm_split).

(** C3, as the code has it. When [process] returns, the branch taken
    had a confidence and the validation returned; the confidence of the
    validation is at least 70, and the confidence that [process]
    reports is the smaller of that and the confidence of the branch
    taken: 100 for a single episode, 95 after direct detection (single
    pattern, combined, inline), and what the backend reported (nine
    tenths of it on the LLM split) after AI-assisted detection. It is
    therefore at least 70 whenever the branch's confidence is, always
    so for a single episode and after direct detection, and [execute]
    returns no result whose confidence is below 70: it raises
    instead. *)
Theorem reported_confidence_is_min_of_tier_and_validation
    (fuel : nat) (text filename : pystr) (n : nat)
    (st st' : llm_state) (o : output) :
  run_process fuel text filename n st = (Ok o, st') ->
  let info := fst (detect text filename n st) in
  exists tier v,
    tier_confidence info = Some tier /\
    validate_split (out_episodes o) info text = Some v /\
    (70 <= validation_confidence v <= 100)%Z /\
    out_confidence o = Z.min tier (validation_confidence v) /\
    ((70 <= tier)%Z -> (70 <= out_confidence o)%Z) /\
    (is_multi info = Some false -> (70 <= out_confidence o)%Z) /\
    (detect_known_pattern_directly text <> None -> (70 <= out_confidence o)%Z) /\
    (run_execute fuel text filename n st = (Ok o, st') -> (70 <= out_confidence o)%Z) /\
    ((out_confidence o < 70)%Z -> run_execute fuel text filename n st = (Raise, st')).
Proof.
  intros Hp info.
  destruct (process_confidence lower llm_detect llm_titles llm_split
              fuel text filename n st Hp) as (tier & v & Htc & Hv & Hconf & _).
  fold info in Htc, Hv.
  pose proof (validate_split_bounds _ _ _ Hv) as Hb.
  assert (Htier : (70 <= tier)%Z -> (70 <= out_confidence o)%Z).
  { intros H. rewrite Hconf. apply Z.min_glb; lia. }
  exists tier, v.
  split; [exact Htc|]. split; [exact Hv|]. split; [exact Hb|].
  split; [exact Hconf|]. split; [exact Htier|].
  split; [|split; [|split]].
  - intros Hsingle. apply Htier. unfold tier_confidence in Htc.
    rewrite Hsingle in Htc. inversion Htc. lia.
  - intros Hdirect.
    destruct (detect_known_pattern_directly text) as [d|] eqn:Ed; [|congruence].
    apply Htier. subst info.
    rewrite (@detect_direct llm_state llm_detect text filename n st d Ed) in Htc.
    simpl fst in Htc.
    destruct (@direct_detection_info _ _ Ed) as (H95 & Hmulti & _ & _ & Hway).
    unfold tier_confidence in Htc. rewrite Hmulti, H95 in Htc. cbn [get] in Htc.
    destruct (truthy_field (use_inline_split d)); [inversion Htc; lia|].
    destruct Hway as [Hway | Hway]; [discriminate|]. rewrite Hway in Htc.
    simpl in Htc. inversion Htc. lia.
  - unfold execute. rewrite Hp. unfold validate_output.
    destruct (truthy_list (out_episodes o) && (70 <=? out_confidence o)%Z) eqn:E;
      [|discriminate].
    intros _. apply andb_true_iff in E. destruct E as [_ E].
    now apply Z.leb_le in E.
  - intros Hlow. unfold execute. rewrite Hp. unfold validate_output.
    assert (E : (70 <=? out_confidence o)%Z = false) by (apply Z.leb_gt; lia).
    rewrite E, andb_false_r. reflexivity.
Qed.

(** C6, as the code has it. When detection concludes a single episode
    (the value of 'is_multi_episode' is false or null), [process]
    raises if 'estimated_episodes' is null: the validation compares it
    with 0. Otherwise it returns, whatever the recursion budget, one
    episode with number 1, no title and the input text as it is (not
    trimmed); the validation is applied all the same, and the confidence
    is 100 less 10 if the estimate (1 when the key is absent) is more
    than 20% away from one episode and less 5 if the text has under 20
    words. In the fallback taken when the backend fails, [process]
    returns, with 100 for a text of at least 20 words and 95 for a
    shorter one. *)
Theorem single_episode_is_input_text_with_validation
    (fuel : nat) (text filename : pystr) (n : nat) (st : llm_state) :
  text <> [] ->
  is_multi (fst (detect text filename n st)) = Some false ->
  let info := fst (detect text filename n st) in
  (estimated_episodes info = Null ->
   fst (run_process fuel text filename n st) = Raise) /\
  (forall e,
     estimated_or info 1 = Some e ->
     exists o,
       fst (run_process fuel text filename n st) = Ok o /\
       out_episodes o = [mkEpisode 1 None text] /\
       out_method o = Single /\
       out_confidence o
       = (100
          - (if count_mismatch e 1 then 10 else 0)
          - (if (length (split_ws text) <? 20)%nat then 5 else 0))%Z /\
       (85 <= out_confidence o <= 100)%Z) /\
  (fst (llm_detect st (unlines (firstn n (lines_of text))) filename n)
     = DetectRaises ->
   exists o,
     fst (run_process fuel text filename n st) = Ok o /\
     out_episodes o = [mkEpisode 1 None text] /\
     out_method o = Single /\
     out_confidence o = if length (split_ws text) <? 20 then 95%Z else 100%Z).
Proof.
  intros Hne Hsingle info.
  assert (Hproc : run_process fuel text filename n st
                  = report info text Single (Some 100%Z)
                      (Ok (single_episode text),
                       snd (detect text filename n st))).
  { unfold process. destruct text as [|c t]; [contradiction|].
    simpl truthy. simpl negb. cbv iota. subst info.
    destruct (detect (c :: t) filename n st) as [i st1]. simpl fst in *.
    now rewrite Hsingle. }
  assert (Hlen : exists b, more_than_one (patterns info) = Some b).
  { pose proof (detect_patterns_not_null llm_detect text filename n st) as H.
    fold info in H. unfold more_than_one.
    destruct (patterns info); [| congruence |]; eexists; reflexivity. }
  destruct Hlen as [b Hb].
  assert (Hreturns : forall e,
            estimated_or info 1 = Some e ->
            exists o,
              fst (run_process fuel text filename n st) = Ok o /\
              out_episodes o = [mkEpisode 1 None text] /\
              out_method o = Single /\
              out_confidence o
              = (100
                 - (if count_mismatch e 1 then 10 else 0)
                 - (if (length (split_ws text) <? 20)%nat then 5 else 0))%Z /\
              (85 <= out_confidence o <= 100)%Z).
  { intros e He.
    destruct (validate_split_single info Hne He) as (v & Hv & Hconf).
    assert (Hrange : (85 <= validation_confidence v <= 100)%Z).
    { rewrite Hconf. destruct (count_mismatch e 1);
        destruct (length (split_ws text) <? 20); lia. }
    rewrite Hproc. unfold report. rewrite Hv, Hb. cbn [fst].
    eexists. split; [reflexivity|].
    cbn [out_episodes out_method out_confidence].
    split; [reflexivity|]. split; [reflexivity|].
    rewrite Z.min_r by lia. split; [exact Hconf | exact Hrange]. }
  split; [|split].
  - intros Hnull. rewrite Hproc. unfold report.
    rewrite (@validate_split_null _ _ _ Hnull). reflexivity.
  - exact Hreturns.
  - intros Hfail.
    assert (Hinfo : estimated_episodes info = Val 1%Z).
    { subst info. revert Hsingle. unfold detect_pattern.
      destruct (detect_known_pattern_directly text) as [d|] eqn:Ed.
      - simpl. destruct (@direct_detection_info _ _ Ed) as (_ & Hm & _).
        rewrite Hm. discriminate.
      - destruct (llm_detect st _ filename n) as [resp st1].
        simpl in Hfail. subst resp. reflexivity. }
    destruct (Hreturns 1%Z) as (o & Ho & He & Hm & Hc & _).
    { unfold estimated_or. now rewrite Hinfo. }
    exists o. split; [exact Ho|]. split; [exact He|]. split; [exact Hm|].
    rewrite Hc. unfold count_mismatch. simpl.
    destruct (length (split_ws text) <? 20); reflexivity.
Qed.

(** C7: the code at the failing input. The manuscript has the
    separators "#1화" and "#2화" back to back and a third one further
    down, so direct detection accepts '#N화' and the single-pattern
    regex split runs. Whatever the backend answers to the title
    request, [process] returns three episodes of which the first has no
    content: the single-pattern split lacks the filter that the
    multi-pattern and inline splits apply. *)
Theorem back_to_back_separators_leave_empty_episode
    (fuel : nat) (filename : pystr) (n : nat) (st : llm_state) :
  exists o e rest,
    fst (run_process (S fuel) back_to_back_text filename n st) = Ok o /\
    out_method o = Regex /\
    out_episodes o = e :: rest /\ length rest = 2 /\
    content e = [] /\ strip (content e) = [].
Proof.
  assert (Hd : detect back_to_back_text filename n st = (hash_info, st)).
  { apply detect_direct. vm_compute. reflexivity. }
  assert (Hproc := process_regex_branch lower llm_detect llm_titles llm_split
                     (S fuel) back_to_back_text filename n st
                     (info := hash_info) (st1 := st)
                     eq_refl Hd eq_refl eq_refl eq_refl).
  assert (Hsplit :
    split_by lower llm_titles llm_split (S fuel) RegexSplit back_to_back_text
      hash_info st
    = finish lower llm_titles back_to_back_episodes hash_info st).
  { destruct (known_regex (py "#N화")) as [rx|] eqn:Erx; [|vm_compute in Erx; discriminate].
    destruct (compiled rx) as [r|] eqn:Er;
      [|vm_compute in Erx; inversion Erx; subst; discriminate].
    apply (regex_split_single_pattern lower llm_titles llm_split fuel
             back_to_back_text hash_info st (pattern := rx) (r := r)).
    - reflexivity.
    - unfold hash_info, direct_info, single_pattern_of, known_field.
      cbn [patterns entry_pattern_regex]. now rewrite Erx.
    - vm_compute in Erx. inversion Erx; subst. reflexivity.
    - exact Er.
    - vm_compute in Erx. inversion Erx; subst. vm_compute in Er.
      inversion Er; subst. vm_compute. reflexivity. }
  rewrite Hsplit in Hproc. unfold finish in Hproc.
  change (handle_special_episodes lower back_to_back_episodes hash_info)
    with (Some back_to_back_episodes) in Hproc.
  cbv beta iota in Hproc.
  assert (Htitles :
    exists e rest st2,
      extract_titles_from_episodes llm_titles back_to_back_episodes st
      = (e :: rest, st2) /\ length rest = 2 /\ content e = []).
  { unfold extract_titles_from_episodes.
    destruct (title_samples_from 0 back_to_back_episodes) as [|s0 ss].
    - eexists. eexists. eexists. split; [reflexivity|]. split; reflexivity.
    - destruct (llm_titles st (s0 :: ss)) as [[|items] st2].
      + eexists. eexists. eexists. split; [reflexivity|]. split; reflexivity.
      + destruct (apply_titles_blank_head items
                    (mkEpisode 1 None [])
                    [mkEpisode 2 None (py "A"); mkEpisode 3 None (py "B")] eq_refl)
          as (e' & rest' & Ha & Hc & Hl).
        exists e', rest', st2. unfold back_to_back_episodes.
        rewrite Ha. repeat split; assumption. }
  destruct Htitles as (e & rest & st2 & Ht & Hlen & Hc).
  rewrite Ht in Hproc. rewrite Hproc. unfold report.
  destruct (@validate_split_returns (e :: rest) hash_info back_to_back_text)
    as [v Ev]; [vm_compute; discriminate|].
  rewrite Ev.
  change (more_than_one (patterns hash_info)) with (Some false).
  cbn [get confidence hash_info direct_info fst].
  eexists. exists e, rest. split; [reflexivity|]. simpl.
  split; [reflexivity|]. split; [reflexivity|]. split; [exact Hlen|].
  split; [exact Hc|]. rewrite Hc. reflexivity.
Qed.

End SplitterClaims.

Section SplitterExamples.
Import Re Splitter Examples.

Local Abbreviation failing_process :=
  (process ascii_lower detect_fails titles_fail split_fails).

(** C3, witness: three '#N화' episodes, accepted directly at 95; the
    validation deducts for short and lost content and the report says
    85. *)
Lemma reported_confidence_witness :
  exists o,
    failing_process 1 back_to_back_text (py "a.txt") 500 tt = (Ok o, tt) /\
    out_confidence o = 85%Z /\
    (70 <= out_confidence o)%Z.
Proof.
  eexists. split; [vm_compute; reflexivity|]. split; [reflexivity|].
  destruct (@reported_confidence_is_min_of_tier_and_validation unit ascii_lower
              detect_fails titles_fail split_fails 1 back_to_back_text
              (py "a.txt") 500 tt tt _ eq_refl)
    as (tier & v & _ & _ & _ & _ & _ & _ & Hdirect & _).
  apply Hdirect. vm_compute. discriminate.
Defined.

(** C3, counterexample: two '#N화' separators are too few for direct
    detection; the backend names the same pattern with confidence 40,
    the regex split finds the two episodes, and [process] reports 40,
    which [execute] then rejects. *)
Lemma reported_confidence_below_floor :
  exists o,
    process ascii_lower detect_low_confidence titles_fail split_fails
      1 two_episode_text (py "a.txt") 500 tt = (Ok o, tt) /\
    out_method o = Regex /\
    map content (out_episodes o) = [py "A"; py "B"] /\
    out_confidence o = 40%Z /\ ~ (70 <= out_confidence o)%Z /\
    execute ascii_lower detect_low_confidence titles_fail split_fails
      1 two_episode_text (py "a.txt") 500 tt = (Raise, tt).
Proof.
  eexists. split; [vm_compute; reflexivity|]. simpl.
  split; [reflexivity|]. split; [reflexivity|]. split; [reflexivity|].
  split; [lia | vm_compute; reflexivity].
Qed.

(** C4, witness: three '#N화' lines. The pattern is accepted; it is the
    best-matching one and matches three lines. *)
Lemma direct_detection_decision_witness :
  detect_known_pattern_directly back_to_back_text = Some hash_info /\
  SplitterSpec.inline_preferred back_to_back_text = false /\
  SplitterSpec.best_matching_pattern back_to_back_text = Some (py "#N화") /\
  3 <= SplitterSpec.line_start_count back_to_back_text (py "#N화").
Proof.
  assert (Hd : detect_known_pattern_directly back_to_back_text = Some hash_info)
    by (vm_compute; reflexivity).
  split; [exact Hd|].
  destruct (direct_detection_follows_decision_table back_to_back_text)
    as (_ & _ & H).
  destruct (H hash_info (py "#N화") Hd eq_refl) as (Hi & Hb & _ & H3).
  - vm_compute. discriminate.
  - vm_compute. discriminate.
  - split; [exact Hi|]. split; [exact Hb | exact H3].
Defined.

(** C6, witness: a short text, the backend failing. *)
Lemma single_episode_witness :
  exists o,
    fst (failing_process 0 plain_text (py "a.txt") 500 tt) = Ok o /\
    out_episodes o = [mkEpisode 1 None plain_text] /\
    out_method o = Single /\
    out_confidence o = 95%Z.
Proof.
  destruct (@single_episode_is_input_text_with_validation unit ascii_lower
              detect_fails titles_fail split_fails 0 plain_text (py "a.txt")
              500 tt)
    as (_ & _ & Hf).
  - vm_compute. discriminate.
  - vm_compute. reflexivity.
  - destruct Hf as (o & Ho & He & Hm & Hc); [vm_compute; reflexivity|].
    exists o. split; [exact Ho|]. split; [exact He|]. split; [exact Hm|].
    rewrite Hc. reflexivity.
Defined.

(** C6, counterexample: the same text. The episode's content is the
    text with its blanks, not the trimmed text, and the confidence is
    95, the validation having deducted 5 for the short text. *)
Lemma single_episode_not_trimmed_not_100 :
  exists o,
    failing_process 0 plain_text (py "a.txt") 500 tt = (Ok o, tt) /\
    map content (out_episodes o) = [py " hello "] /\
    map content (out_episodes o) <> [strip plain_text] /\
    out_confidence o = 95%Z /\ out_confidence o <> 100%Z /\
    out_warnings o = [VeryShort 1].
Proof.
  eexists. split; [vm_compute; reflexivity|]. simpl.
  split; [reflexivity|]. split; [vm_compute; discriminate|].
  split; [reflexivity|]. split; [discriminate | reflexivity].
Qed.

(** A backend that takes the manuscript as a single episode and gives
    null as its estimate: [process] raises. *)
Example single_episode_null_estimate_raises :
  process ascii_lower detect_null_estimate titles_fail split_fails
    0 plain_text (py "a.txt") 500 tt = (Raise, tt).
Proof. vm_compute. reflexivity. Qed.

(** The multi-pattern split of the manuscript with back-to-back
    separators drops the empty episode that the single-pattern split
    keeps. *)
Example multi_pattern_split_drops_empty_episode :
  option_map (fun r => match r with
                       | inl eps | inr eps => map (fun ep => (number ep, content ep)) eps
                       end)
    (multi_pattern_episodes
       (compile_all [hash_entry; hash_entry]) back_to_back_text)
  = Some [(2%Z, py "A"); (3%Z, py "B")].
Proof. vm_compute. reflexivity. Qed.

End SplitterExamples.

(* ===================================================================== *)
(** * The glossary store: lookups and updates *)
(* ===================================================================== *)

Section GlossaryUpdateFacts.
Import GlossaryManager GlossaryUpdates.

Lemma find_in_app (orig : pystr) (l1 l2 : list term) :
  find_in orig (l1 ++ l2)
  = match find_in orig l1 with
    | Some t => Some t
    | None => find_in orig l2
    end.
Proof.
  induction l1 as [|t l1 IH]; simpl; [reflexivity|].
  destruct (str_eqb (original t) orig); [reflexivity | exact IH].
Qed.

(** X1. After [add_term], the translation of the added original is the
    one that was stored before if there was one (the call does not
    overwrite) and the new one otherwise; the entries of all other
    originals are found as before. *)
Theorem add_term_lookup (orig trans cat fa ctx : pystr) (g : glossary_data) :
  get_translation (add_term orig trans cat fa ctx g) orig
  = Some match get_translation g orig with
         | Some before => before
         | None => trans
         end
  /\ forall other, other <> orig ->
       find_term (add_term orig trans cat fa ctx g) other = find_term g other.
Proof.
  unfold get_translation, add_term, find_term. split.
  - destruct (find_in orig (terms g)) as [t|] eqn:E; simpl.
    + rewrite E. reflexivity.
    + rewrite find_in_app, E. simpl. rewrite str_eqb_refl. reflexivity.
  - intros other Hne.
    destruct (find_in orig (terms g)) as [t|] eqn:E; simpl; [reflexivity|].
    rewrite find_in_app. destruct (find_in other (terms g)); [reflexivity|].
    simpl. assert (Hf : str_eqb orig other = false)
      by (apply str_eqb_neq; congruence).
    now rewrite Hf.
Qed.

Lemma update_in_none (orig : pystr) (k : term_fields) (ts : list term) :
  find_in orig ts = None -> update_in orig k ts = None.
Proof.
  induction ts as [|t ts IH]; simpl; [reflexivity|].
  destruct (str_eqb (original t) orig); [discriminate|].
  intros H. now rewrite (IH H).
Qed.

Lemma update_in_some (orig : pystr) (k : term_fields) (ts : list term) (t : term) :
  find_in orig ts = Some t -> set_original k = None ->
  exists ts', update_in orig k ts = Some ts' /\
              originals ts' = originals ts /\
              find_in orig ts' = Some (apply_fields k t) /\
              forall other, other <> orig -> find_in other ts' = find_in other ts.
Proof.
  intros Hfind Hkeep.
  assert (Ho : forall x, original (apply_fields k x) = original x)
    by (intros x; unfold apply_fields; cbn [original]; now rewrite Hkeep).
  revert Hfind.
  induction ts as [|x ts IH]; cbn [find_in update_in]; [discriminate|].
  destruct (str_eqb (original x) orig) eqn:E.
  - intros H. inversion H; subst x.
    exists (apply_fields k t :: ts). split; [reflexivity|].
    split; [unfold originals; cbn [map]; now rewrite Ho|]. split.
    + cbn [find_in]. now rewrite Ho, E.
    + intros other Hne. cbn [find_in]. rewrite Ho.
      destruct (str_eqb (original t) other) eqn:E2; [|reflexivity].
      apply str_eqb_eq in E. apply str_eqb_eq in E2. congruence.
  - intros H. destruct (IH H) as (ts' & Hu & Hor & Hf & Hother).
    exists (x :: ts'). rewrite Hu. split; [reflexivity|].
    split; [unfold originals in *; cbn [map]; now rewrite Hor|]. split.
    + cbn [find_in]. now rewrite E.
    + intros other Hne. cbn [find_in]. destruct (str_eqb (original x) other);
        [reflexivity | now apply Hother].
Qed.

(** X2. [update_term] on an original that is not stored returns false
    and changes nothing. On a stored original, with keyword arguments
    that leave 'original' alone, it returns true, updates the first
    entry of that original, keeps the originals and their order, and
    leaves the entries of the other originals as they are; a passed
    translation is then what [get_translation] returns. *)
Theorem update_term_behaviour (orig : pystr) (k : term_fields) (g : glossary_data) :
  set_original k = None ->
  (find_term g orig = None -> update_term orig k g = (false, g)) /\
  (forall t, find_term g orig = Some t ->
     let g' := snd (update_term orig k g) in
     fst (update_term orig k g) = true /\
     get_all_originals g' = get_all_originals g /\
     find_term g' orig = Some (apply_fields k t) /\
     (forall new, set_translation k = Some new -> get_translation g' orig = Some new) /\
     (forall other, other <> orig -> find_term g' other = find_term g other)).
Proof.
  intros Hkeep. unfold update_term, find_term. split.
  - intros Hnone. now rewrite (update_in_none orig k (terms g) Hnone).
  - intros t Hfind.
    destruct (update_in_some orig k (terms g) Hfind Hkeep)
      as (ts' & Hu & Ho & Hf & Hother).
    rewrite Hu. simpl. split; [reflexivity|].
    split; [exact Ho|]. split; [exact Hf|]. split; [|exact Hother].
    intros new Hnew. unfold get_translation, find_term. simpl.
    rewrite Hf. simpl. now rewrite Hnew.
Qed.

(** X2, witness: a correction of the translation of a stored name. *)
Lemma update_term_behaviour_witness :
  let g := add_term (py "서연") (py "セヨン") (py "character") [] [] fresh in
  let k := mkFields None (Some (py "ソヨン")) None None None in
  (find_term g (py "서연") = None -> update_term (py "서연") k g = (false, g)) /\
  (forall t, find_term g (py "서연") = Some t ->
     let g' := snd (update_term (py "서연") k g) in
     fst (update_term (py "서연") k g) = true /\
     get_all_originals g' = get_all_originals g /\
     find_term g' (py "서연") = Some (apply_fields k t) /\
     (forall new, set_translation k = Some new ->
                  get_translation g' (py "서연") = Some new) /\
     (forall other, other <> py "서연" -> find_term g' other = find_term g other)).
Proof.
  apply update_term_behaviour. reflexivity.
Defined.

Lemma add_term_originals (orig trans cat fa ctx : pystr) (g : glossary_data) :
  exists more, get_all_originals (add_term orig trans cat fa ctx g)
               = get_all_originals g ++ more /\
               In orig (get_all_originals (add_term orig trans cat fa ctx g)).
Proof.
  unfold add_term, find_term.
  destruct (find_in orig (terms g)) as [t|] eqn:E.
  - exists []. rewrite app_nil_r. split; [reflexivity|].
    unfold get_all_originals, originals. clear -E.
    induction (terms g) as [|x ts IH]; simpl in *; [discriminate|].
    destruct (str_eqb (original x) orig) eqn:Ex.
    + left. now apply str_eqb_eq.
    + right. now apply IH.
  - exists [orig]. unfold get_all_originals, originals. simpl.
    rewrite map_app. simpl. split; [reflexivity|].
    apply in_or_app. right. now left.
Qed.

Lemma add_all_originals (ts : list term) (g : glossary_data) :
  (forall o, In o (get_all_originals g) -> In o (get_all_originals (add_all ts g)))
  /\ (forall t, In t ts -> In (original t) (get_all_originals (add_all ts g))).
Proof.
  revert g. induction ts as [|x ts IH]; intros g; simpl.
  - split; [auto | intros t []].
  - set (g1 := add_term _ _ _ _ _ g).
    destruct (add_term_originals (original x) (translation x) (category x)
                (first_appearance x) (context x) g) as (more & Happ & Hin).
    fold g1 in Happ, Hin. destruct (IH g1) as [Hkeep Hnew]. split.
    + intros o Ho. apply Hkeep. rewrite Happ. apply in_or_app. now left.
    + intros t [<- | Ht]; [now apply Hkeep | now apply Hnew].
Qed.

Lemma filter_all_false {A : Type} (f : A -> bool) (l : list A) :
  (forall x, In x l -> f x = false) -> filter f l = [].
Proof.
  induction l as [|x l IH]; intros H; simpl; [reflexivity|].
  rewrite (H x (or_introl eq_refl)). apply IH. intros y Hy. apply H. now right.
Qed.

(** X3. [filter_new_terms] keeps, in their order, exactly the candidates
    whose original is not stored; once the kept candidates have been
    added with [add_term], the same candidates contain nothing new. *)
Theorem filter_new_terms_then_add (g : glossary_data) (cands : list term) :
  let new_terms := filter_new_terms g cands in
  (forall t, In t new_terms <->
             In t cands /\ ~ In (original t) (get_all_originals g)) /\
  filter_new_terms (add_all new_terms g) cands = [].
Proof.
  intros new_terms.
  assert (Hiff : forall t, In t new_terms <->
             In t cands /\ ~ In (original t) (get_all_originals g)).
  { intros t. subst new_terms. unfold filter_new_terms.
    rewrite filter_In, negb_true_iff.
    split; intros [H1 H2]; (split; [assumption|]).
    - intros Hin. apply mem_In in Hin. congruence.
    - destruct (mem (original t) (get_all_originals g)) eqn:E; [|reflexivity].
      apply mem_In in E. contradiction. }
  split; [exact Hiff|].
  destruct (add_all_originals new_terms g) as [Hkeep Hnew].
  unfold filter_new_terms at 1. apply filter_all_false.
  intros c Hc. apply negb_false_iff. apply mem_In.
  destruct (mem (original c) (get_all_originals g)) eqn:E.
  - apply Hkeep. now apply mem_In.
  - apply Hnew. apply Hiff. split; [assumption|].
    intros Hin. apply mem_In in Hin. congruence.
Qed.

End GlossaryUpdateFacts.

(* ===================================================================== *)
(** * Name consistency: what the pass keeps and what it records *)
(* ===================================================================== *)

Section NameConsistencyMoreFacts.
Import NameConsistency NameConsistencySpec.

Lemma correction_of_same (t : term) : correction_of t (t, false).
Proof. unfold correction_of. simpl. repeat split; auto; discriminate. Qed.

Lemma correction_of_replaced (t : term) (new wrong correct : pystr) :
  new <> translation t ->
  correction_of t (fix_replaced t new wrong correct, true).
Proof.
  intros H. unfold correction_of. simpl. repeat split; auto; discriminate.
Qed.

Lemma positional_fix_ok (t : term) (first_name correct : pystr) :
  correction_of t (positional_fix t first_name correct).
Proof.
  unfold positional_fix.
  destruct (find first_name (original t)); [|apply correction_of_same].
  destruct (scan_region _ _ _ _) as [[i potential]|]; [|apply correction_of_same].
  destruct (str_eqb _ (translation t)) eqn:E; simpl; [apply correction_of_same|].
  apply correction_of_replaced. now apply str_eqb_neq.
Qed.

Lemma first_name_loop_ok (target_lang : pystr) (ot items : dict pystr) (t : term) :
  correction_of t (first_name_loop target_lang ot items t).
Proof.
  induction items as [|[first_name correct] rest IH]; simpl;
    [apply correction_of_same|].
  destruct (contains first_name (original t)); [|exact IH].
  destruct (str_eqb (original t) first_name).
  - destruct (str_eqb (translation t) correct) eqn:E; simpl;
      [apply correction_of_same|].
    apply str_eqb_neq in E.
    unfold correction_of. simpl. repeat split; auto; try discriminate; congruence.
  - destruct (negb _ && negb _ && contains _ (translation t)).
    + destruct (str_eqb _ (translation t)) eqn:E; simpl;
        [apply correction_of_same|].
      apply correction_of_replaced. now apply str_eqb_neq.
    + destruct (str_eqb target_lang TAIWANESE && _);
        [apply positional_fix_ok | apply correction_of_same].
Qed.

Lemma correct_term_ok (target_lang : pystr) (m : name_maps) (fm ot : dict pystr)
    (full_names : list pystr) (t : term) :
  correction_of t (correct_term target_lang m fm ot full_names t).
Proof.
  unfold correct_term.
  destruct (mem (original t) full_names); [apply correction_of_same|].
  destruct (dict_get (original t) fm) as [correct|];
    [|apply first_name_loop_ok].
  destruct (str_eqb (translation t) correct) eqn:E; simpl;
    [apply first_name_loop_ok|].
  apply str_eqb_neq in E.
  unfold correction_of. simpl. repeat split; auto; try discriminate; congruence.
Qed.

(** X4. The pass returns one term per input term, in the same order,
    with the same original, category and context. A term is either
    returned exactly as it was, or its translation is changed and the
    old translation is recorded in '_corrected_from'; [corrections_made]
    counts the changed terms. *)
Theorem enforce_keeps_terms_and_records_changes
    (terms : list term) (target_lang : pystr) :
  let result := enforce_name_consistency terms target_lang in
  length result = length terms /\
  map original result = map original terms /\
  map category result = map category terms /\
  Forall2 (fun t t' =>
             t' = t \/
             (translation t' <> translation t /\
              corrected_from t' = Some (translation t)))
          terms result /\
  corrections_made terms target_lang
  = length (filter (fun p => negb (str_eqb (translation (fst p))
                                           (translation (snd p))))
                   (combine terms result)).
Proof.
  unfold enforce_name_consistency, corrections_made, corrected_terms.
  set (f := correct_term target_lang _ _ _ _).
  assert (Hok : forall t, correction_of t (f t))
    by (intros t; apply correct_term_ok).
  clearbody f. simpl.
  induction terms as [|t terms IH]; simpl.
  - repeat split; constructor.
  - destruct IH as (Hl & Ho & Hc & Hf & Hn).
    destruct (Hok t) as (H1 & H2 & H3 & H4 & H5).
    split; [now rewrite Hl|]. split; [now rewrite H1, Ho|].
    split; [now rewrite H2, Hc|]. split.
    + constructor; [|exact Hf].
      destruct (snd (f t)) eqn:E; [right; now apply H4 | left; now apply H5].
    + destruct (snd (f t)) eqn:E; simpl.
      * destruct (H4 eq_refl) as [Hne _].
        assert (Hb : str_eqb (translation t) (translation (fst (f t))) = false)
          by (apply str_eqb_neq; congruence).
        rewrite Hb. simpl. now rewrite Hn.
      * rewrite (H5 eq_refl), str_eqb_refl. simpl. exact Hn.
Qed.

(** ** Target languages without a naming convention *)

Lemma first_pass_step_other (target_lang : pystr) (m : name_maps) (t : term) :
  target_lang <> JAPANESE -> target_lang <> TAIWANESE ->
  first_pass_step target_lang m t = m.
Proof.
  intros Hj Ht. apply str_eqb_neq in Hj. apply str_eqb_neq in Ht.
  unfold first_pass_step. rewrite Hj, Ht.
  destruct (negb (str_eqb (category t) CHARACTER)); [reflexivity|].
  destruct (negb (3 <=? length (original t))); [reflexivity|].
  destruct (original t) as [|c rest]; [reflexivity|].
  destruct (negb (is_surname c)); [reflexivity|].
  destruct (negb (2 <=? length rest)); reflexivity.
Qed.

Lemma foreign_pass_step_other (target_lang : pystr) (fm : dict pystr) (t : term) :
  target_lang <> JAPANESE -> target_lang <> TAIWANESE ->
  foreign_pass_step target_lang fm t = fm.
Proof.
  intros Hj Ht. apply str_eqb_neq in Hj. apply str_eqb_neq in Ht.
  unfold foreign_pass_step. rewrite Hj, Ht.
  destruct (negb (str_eqb (category t) CHARACTER)); [reflexivity|].
  destruct (negb (is_multi_part (original t))); [reflexivity|].
  destruct (split_ws (original t)); reflexivity.
Qed.

Lemma fold_left_fixed {S A : Type} (f : S -> A -> S) (l : list A) (s : S) :
  (forall a, f s a = s) -> fold_left f l s = s.
Proof.
  intros H. induction l as [|a l IH]; simpl; [reflexivity|]. now rewrite H.
Qed.

(** X5. For a target language other than 'japanese' and 'taiwanese' the
    pass builds no index and returns every term as it is. *)
Theorem enforce_is_identity_for_other_languages
    (terms : list term) (target_lang : pystr) :
  target_lang <> JAPANESE -> target_lang <> TAIWANESE ->
  enforce_name_consistency terms target_lang = terms /\
  corrections_made terms target_lang = 0.
Proof.
  intros Hj Ht.
  assert (Hm : build_name_maps target_lang terms = mkMaps [] []).
  { unfold build_name_maps. apply fold_left_fixed.
    intros t. now apply first_pass_step_other. }
  assert (Hf : build_foreign_map target_lang terms = []).
  { unfold build_foreign_map. apply fold_left_fixed.
    intros t. now apply foreign_pass_step_other. }
  assert (Hsame : forall ot full_names t,
            correct_term target_lang (mkMaps [] []) [] ot full_names t = (t, false)).
  { intros ot full_names t. unfold correct_term. simpl.
    destruct (mem (original t) full_names); reflexivity. }
  unfold enforce_name_consistency, corrections_made, corrected_terms.
  rewrite Hm, Hf. split.
  - rewrite map_map. rewrite (map_ext _ (fun t => t)); [apply map_id|].
    intros t. now rewrite Hsame.
  - rewrite (map_ext _ (fun t => (t, false))); [|intros t; apply Hsame].
    clear. induction terms as [|t ts IH]; simpl; [reflexivity | exact IH].
Qed.

(** X5, witness: the Korean output, a target language of the stage. *)
Lemma enforce_is_identity_witness :
  let terms := [character_term (py "이서연") (py "이서연");
                character_term (py "서연") (py "서연")] in
  enforce_name_consistency terms (py "korean") = terms /\
  corrections_made terms (py "korean") = 0.
Proof.
  apply enforce_is_identity_for_other_languages; vm_compute; discriminate.
Defined.

(** ** Full names are the source of truth *)

Lemma dict_set_keys {V : Type} (k : pystr) (v : V) (d : dict V) :
  In k (dict_keys (dict_set k v d)) /\
  forall k', In k' (dict_keys d) -> In k' (dict_keys (dict_set k v d)).
Proof.
  unfold dict_keys. induction d as [|[k0 v0] d IH]; simpl.
  - split; [now left | intros k' []].
  - destruct (str_eqb k0 k) eqn:E; simpl.
    + apply str_eqb_eq in E. subst k0. split; [now left|]. intros k' H. exact H.
    + destruct IH as [IH1 IH2]. split; [now right|].
      intros k' [H | H]; [now left | right; now apply IH2].
Qed.

Lemma first_pass_step_keys (target_lang : pystr) (m : name_maps) (t : term)
    (k : pystr) :
  In k (dict_keys (full_name_map m)) ->
  In k (dict_keys (full_name_map (first_pass_step target_lang m t))).
Proof.
  intros Hk.
  assert (Hrec : forall o f ft,
            In k (dict_keys (full_name_map (record_full_name o f ft m)))).
  { intros o f ft. unfold record_full_name. simpl.
    now apply (proj2 (dict_set_keys _ _ _)). }
  unfold first_pass_step.
  destruct (negb (str_eqb (category t) CHARACTER)); [assumption|].
  destruct (negb (3 <=? length (original t))); [assumption|].
  destruct (original t) as [|c rest]; [assumption|].
  destruct (negb (is_surname c)); [assumption|].
  destruct (negb (2 <=? length rest)); [assumption|].
  destruct (str_eqb target_lang JAPANESE).
  - destruct (contains [KATAKANA_DOT] (translation t)); [|assumption].
    destruct (split_char_once KATAKANA_DOT (translation t)) as [|a [|b [|c' l]]];
      try assumption. apply Hrec.
  - destruct (str_eqb target_lang TAIWANESE); [|assumption].
    destruct (3 <=? length (translation t)); [|assumption].
    destruct (skipn 1 (translation t)); [assumption | apply Hrec].
Qed.

Lemma split_char_once_found (sep : Z) (s : pystr) :
  contains [sep] s = true -> exists a b, split_char_once sep s = [a; b].
Proof.
  induction s as [|c s IH]; simpl; [discriminate|].
  destruct (c =? sep)%Z eqn:E.
  - intros _. now exists [], s.
  - rewrite Z.eqb_sym in E. rewrite E. simpl. intros H.
    destruct (IH H) as (a & b & Hab). rewrite Hab. now exists (c :: a), b.
Qed.

Lemma first_pass_step_records (target_lang : pystr) (m : name_maps) (t : term) :
  recorded_full_name target_lang t ->
  In (original t) (dict_keys (full_name_map (first_pass_step target_lang m t))).
Proof.
  intros (Hcat & Hlen & (c & rest & Ho & Hs) & Hlang).
  assert (Hrec : forall o f ft,
            In o (dict_keys (full_name_map (record_full_name o f ft m)))).
  { intros o f ft. unfold record_full_name. simpl.
    apply (proj1 (dict_set_keys _ _ _)). }
  assert (H3 : (3 <=? length (original t)) = true) by now apply Nat.leb_le.
  assert (H2 : (2 <=? length rest) = true)
    by (apply Nat.leb_le; rewrite Ho in Hlen; simpl in Hlen; lia).
  unfold first_pass_step. rewrite Hcat, str_eqb_refl, H3. cbn [negb].
  rewrite Ho, Hs, H2. cbn [negb].
  destruct Hlang as [[-> Htr] | [-> Htr]].
  - assert (E : str_eqb TAIWANESE JAPANESE = false) by reflexivity.
    rewrite E, str_eqb_refl.
    assert (H3' : (3 <=? length (translation t)) = true) by now apply Nat.leb_le.
    rewrite H3'.
    destruct (translation t) as [|x [|y tr]]; simpl in Htr; try lia.
    cbn [skipn]. apply Hrec.
  - rewrite str_eqb_refl, Htr.
    destruct (split_char_once_found KATAKANA_DOT (translation t) Htr)
      as (a & b & Hab).
    rewrite Hab. apply Hrec.
Qed.

Lemma build_name_maps_keys (target_lang : pystr) (terms : list term) (t : term) :
  In t terms -> recorded_full_name target_lang t ->
  In (original t) (dict_keys (full_name_map (build_name_maps target_lang terms))).
Proof.
  unfold build_name_maps. generalize (mkMaps [] []).
  induction terms as [|x terms IH]; intros m Hin Hrec; [contradiction|].
  simpl. destruct Hin as [-> | Hin].
  - assert (Hk := first_pass_step_records m Hrec).
    clear -Hk. revert Hk. generalize (first_pass_step target_lang m t).
    induction terms as [|y terms IH]; intros m' Hk; simpl; [assumption|].
    apply IH. now apply first_pass_step_keys.
  - now apply IH.
Qed.

(** X6. A character term that the pass records as a full name (three or
    more characters, the first a listed surname, with a Taiwanese
    translation of three or more characters or a Japanese translation
    that contains the middle dot) is returned unchanged, at its
    position. *)
Theorem recorded_full_name_is_never_corrected
    (terms : list term) (target_lang : pystr) (n : nat) (t : term) :
  nth_error terms n = Some t ->
  recorded_full_name target_lang t ->
  nth_error (enforce_name_consistency terms target_lang) n = Some t.
Proof.
  intros Hn Hrec.
  assert (Hin : In t terms) by (eapply nth_error_In; eassumption).
  assert (Hkey := build_name_maps_keys terms Hin Hrec).
  unfold enforce_name_consistency, corrected_terms.
  rewrite map_map. rewrite nth_error_map, Hn. simpl. f_equal.
  unfold correct_term.
  assert (Hmem : mem (original t)
                   (full_names_of (build_name_maps target_lang terms) terms) = true).
  { apply mem_In. unfold full_names_of. apply in_or_app. now left. }
  now rewrite Hmem.
Qed.

(** X6, witness: the full name of the example glossary. *)
Lemma recorded_full_name_witness :
  nth_error
    (enforce_name_consistency
       [character_term (py "서연") (py "舒妍");
        character_term (py "이서연") (py "李書妍")] TAIWANESE) 1
  = Some (character_term (py "이서연") (py "李書妍")).
Proof.
  apply recorded_full_name_is_never_corrected; [reflexivity|].
  split; [reflexivity|]. split; [vm_compute; lia|]. split.
  - eexists. eexists. split; [vm_compute; reflexivity | vm_compute; reflexivity].
  - left. split; [reflexivity | vm_compute; lia].
Defined.

End NameConsistencyMoreFacts.

(* ===================================================================== *)
(** * Translation QA: skipping, detection and fixing *)
(* ===================================================================== *)

Section QAMoreFacts.
Import TranslationQA.

(** X7. When source and target language normalize to the same name (the
    same language, or two names of Chinese) and no flag is passed, the
    validator skips every check: any text passes with no issue. *)
Theorem same_language_passes_without_checks
    (lower : pystr -> pystr) (src tgt : pystr) (ts : list term)
    (txt : pystr) (episode : option Z) :
  normalize_language lower src = normalize_language lower tgt ->
  validate (new_validator lower src tgt ts None) txt episode
  = mkResult true [] episode.
Proof.
  intros H. unfold validate, new_validator. simpl.
  rewrite H, str_eqb_refl. reflexivity.
Qed.

(** X7, witness: 'Chinese' to 'taiwanese', on a Korean text. *)
Lemma same_language_passes_witness :
  validate (new_validator ascii_lower (py "Chinese") (py "taiwanese") [] None)
           (py "그는 집에") None
  = mkResult true [] None.
Proof.
  apply same_language_passes_without_checks. vm_compute. reflexivity.
Defined.

(** ** Similar-character alternatives *)

Lemma alternatives_from_shape (pre post alt : pystr) :
  In alt (alternatives_from pre post) ->
  exists p1 c a p2, post = p1 ++ c :: p2 /\ alt = pre ++ p1 ++ a :: p2 /\ a <> c.
Proof.
  revert pre. induction post as [|c post IH]; intros pre; simpl; [intros []|].
  intros H. apply in_app_or in H. destruct H as [H | H].
  - destruct (similar_of c) as [alts|]; [|contradiction].
    apply in_map_iff in H. destruct H as (a & <- & Ha).
    apply filter_In in Ha. destruct Ha as [_ Hne].
    apply negb_true_iff, Z.eqb_neq in Hne.
    exists [], c, a, post. repeat split; assumption.
  - destruct (IH _ H) as (p1 & c' & a & p2 & Hp & Ha & Hne).
    exists (c :: p1), c', a, p2. subst post alt. rewrite <- app_assoc.
    repeat split; assumption.
Qed.

Lemma dedup_In (l : list pystr) (x : pystr) : In x (dedup l) -> In x l.
Proof.
  induction l as [|y l IH]; simpl; [auto|].
  intros [H | H]; [now left|]. right. apply IH.
  apply filter_In in H. tauto.
Qed.

(** X8. Every alternative that [_get_similar_alternatives] generates
    has the length of the given text and differs from it in exactly one
    character: the text itself is never among its alternatives. *)
Theorem similar_alternatives_differ_in_one_character (s alt : pystr) :
  In alt (get_similar_alternatives s) ->
  length alt = length s /\ alt <> s /\
  exists p1 c a p2, s = p1 ++ c :: p2 /\ alt = p1 ++ a :: p2 /\ a <> c.
Proof.
  intros H. apply dedup_In, alternatives_from_shape in H.
  destruct H as (p1 & c & a & p2 & Hs & Ha & Hne). simpl in Ha.
  subst s alt. split; [rewrite !length_app; reflexivity|]. split.
  - intros Heq. apply app_inv_head in Heq. inversion Heq. contradiction.
  - exists p1, c, a, p2. auto.
Qed.

(** X8, witness: a variant of a three-character name. *)
Lemma similar_alternatives_witness :
  length (py "曹輝賢") = length (py "趙輝賢") /\ py "曹輝賢" <> py "趙輝賢" /\
  exists p1 c a p2, py "趙輝賢" = p1 ++ c :: p2 /\ py "曹輝賢" = p1 ++ a :: p2 /\ a <> c.
Proof.
  apply similar_alternatives_differ_in_one_character.
  vm_compute. left. reflexivity.
Defined.

(** ** Auto-fix *)

Section AutoFixMore.

Variable llm_state : Type.
Variable llm_execute :
  llm_state -> pystr -> pystr -> pystr -> list term -> llm_response * llm_state.

Lemma replace_step_untouched (txt : pystr) (st : fix_state) (i : QAIssue)
    (exp : pystr) :
  (fixed_count st = 0 -> fixed_text st = txt) ->
  fixed_count (replace_step st i exp) = 0 ->
  fixed_text (replace_step st i exp) = txt.
Proof.
  unfold replace_step. destruct (contains (text i) (fixed_text st)); simpl.
  - discriminate.
  - auto.
Qed.

Lemma direct_step_untouched (txt : pystr) (acc : fix_state * list QAIssue)
    (i : QAIssue) :
  (fixed_count (fst acc) = 0 -> fixed_text (fst acc) = txt) ->
  fixed_count (fst (direct_step acc i)) = 0 ->
  fixed_text (fst (direct_step acc i)) = txt.
Proof.
  destruct acc as [st mixing]. unfold direct_step. simpl fst. intros H.
  destruct (str_eqb (issue_type i) GLOSSARY_MISMATCH && truthy_opt (expected i));
    [now apply replace_step_untouched|].
  destruct (str_eqb (issue_type i) LANGUAGE_MIXING && str_eqb (severity i) ERROR);
    [exact H|].
  destruct (str_eqb (issue_type i) UNTRANSLATED_TERM && truthy_opt (expected i));
    [now apply replace_step_untouched | exact H].
Qed.

Lemma mixing_step_untouched (v : validator) (txt : pystr)
    (acc : fix_state * llm_state) (i : QAIssue) :
  (fixed_count (fst acc) = 0 -> fixed_text (fst acc) = txt) ->
  fixed_count (fst (mixing_step llm_execute v acc i)) = 0 ->
  fixed_text (fst (mixing_step llm_execute v acc i)) = txt.
Proof.
  destruct acc as [st llm]. unfold mixing_step. simpl fst. intros H.
  destruct (negb (contains (text i) (fixed_text st))); [exact H|].
  destruct (llm_execute llm (text i) (backend_target v) _ (glossary v))
    as [[|output] llm']; [exact H|].
  destruct (truthy output); [|exact H].
  destruct (negb (has_korean (strip output))); simpl; [discriminate | exact H].
Qed.

Lemma fold_left_property {S A : Type} (f : S -> A -> S) (P : S -> Prop)
    (Hstep : forall s a, P s -> P (f s a)) (l : list A) (s : S) :
  P s -> P (fold_left f l s).
Proof.
  revert s. induction l as [|a l IH]; intros s Hs; simpl; [assumption|].
  apply IH. now apply Hstep.
Qed.

(** X9. If [auto_fix] reports no fix, the text it returns is the text
    it was given: the text changes only together with the count. *)
Theorem auto_fix_without_fix_returns_text
    (v : validator) (txt : pystr) (todo : list QAIssue)
    (llm : option llm_state) (fixed : pystr) (unfixed : list QAIssue) :
  auto_fix llm_execute v txt todo llm = (fixed, 0, unfixed) -> fixed = txt.
Proof.
  unfold auto_fix, auto_fix_run.
  pose proof (fold_left_property direct_step
                (fun acc => fixed_count (fst acc) = 0 -> fixed_text (fst acc) = txt)
                (@direct_step_untouched txt) todo
                (mkFix txt 0 [] [], []) (fun _ => eq_refl)) as Hd.
  destruct (fold_left direct_step todo (mkFix txt 0 [] [], [])) as [st mixing].
  simpl fst in Hd.
  destruct mixing as [|m mixing].
  - simpl. intros H. inversion H; subst. auto.
  - destruct llm as [l|].
    + unfold fix_language_mixing.
      pose proof (fold_left_property (mixing_step llm_execute v)
                    (fun acc => fixed_count (fst acc) = 0 ->
                                fixed_text (fst acc) = fixed_text st)
                    (@mixing_step_untouched v (fixed_text st))
                    (m :: mixing) (mkFix (fixed_text st) 0 [] [], l)
                    (fun _ => eq_refl)) as Hm.
      destruct (fold_left (mixing_step llm_execute v) (m :: mixing)
                  (mkFix (fixed_text st) 0 [] [], l)) as [mst l'].
      simpl fst in *. intros H. inversion H as [[Ht Hc Hu]].
      assert (fixed_count st = 0 /\ fixed_count mst = 0) as [H1 H2] by lia.
      rewrite (Hm H2). auto.
    + simpl. intros H. inversion H; subst. auto.
Qed.

End AutoFixMore.

(** X9, witness: a mismatch issue whose text is not in the text. *)
Lemma auto_fix_without_fix_witness :
  let v := new_validator ascii_lower (py "korean") (py "japanese") [] None in
  let stale := mkIssue GLOSSARY_MISMATCH ERROR (py "曹") [] None (Some (py "趙")) None in
  auto_fix Examples.no_backend v (py "彼は家に帰った") [stale] None
    = (py "彼は家に帰った", 0, []) /\
  py "彼は家に帰った" = py "彼は家に帰った".
Proof.
  intros v stale.
  assert (H : auto_fix Examples.no_backend v (py "彼は家に帰った") [stale] None
              = (py "彼は家に帰った", 0, [])) by (vm_compute; reflexivity).
  split; [exact H|].
  exact (@auto_fix_without_fix_returns_text unit Examples.no_backend v
           (py "彼は家に帰った") [stale] None (py "彼は家に帰った") [] H).
Defined.

(** ** Auto-fix without a backend *)

Section AutoFixNoBackend.

Variable llm_state : Type.
Variable llm_execute :
  llm_state -> pystr -> pystr -> pystr -> list term -> llm_response * llm_state.

Lemma replace_step_unfixed (st : fix_state) (i : QAIssue) (exp : pystr) :
  unfixed_issues (replace_step st i exp) = unfixed_issues st.
Proof.
  unfold replace_step. destruct (contains (text i) (fixed_text st)); reflexivity.
Qed.

Lemma direct_step_keeps_unreplaceable (acc : fix_state * list QAIssue)
    (seen : list QAIssue) (i : QAIssue) :
  (forall j, In j seen ->
     str_eqb (issue_type j) GLOSSARY_MISMATCH && truthy_opt (expected j) = false ->
     str_eqb (issue_type j) UNTRANSLATED_TERM && truthy_opt (expected j) = false ->
     In j (unfixed_issues (fst acc) ++ snd acc)) ->
  forall j, In j (seen ++ [i]) ->
    str_eqb (issue_type j) GLOSSARY_MISMATCH && truthy_opt (expected j) = false ->
    str_eqb (issue_type j) UNTRANSLATED_TERM && truthy_opt (expected j) = false ->
    In j (unfixed_issues (fst (direct_step acc i)) ++ snd (direct_step acc i)).
Proof.
  destruct acc as [st mixing]. simpl fst. simpl snd. intros IH j Hj Hg Hu.
  apply in_app_or in Hj. unfold direct_step.
  destruct (str_eqb (issue_type i) GLOSSARY_MISMATCH && truthy_opt (expected i))
    eqn:Eg.
  { simpl. rewrite replace_step_unfixed.
    destruct Hj as [Hj | [<- | []]]; [now apply IH | congruence]. }
  destruct (str_eqb (issue_type i) LANGUAGE_MIXING && str_eqb (severity i) ERROR).
  { simpl. rewrite app_assoc. apply in_or_app.
    destruct Hj as [Hj | [<- | []]]; [left; now apply IH | right; now left]. }
  destruct (str_eqb (issue_type i) UNTRANSLATED_TERM && truthy_opt (expected i))
    eqn:Eu.
  { simpl. rewrite replace_step_unfixed.
    destruct Hj as [Hj | [<- | []]]; [now apply IH | congruence]. }
  simpl. destruct Hj as [Hj | [<- | []]].
  - specialize (IH j Hj Hg Hu). apply in_app_or in IH.
    rewrite <- app_assoc. apply in_or_app.
    destruct IH as [H | H]; [now left | right; apply in_or_app; now right].
  - apply in_or_app. left. apply in_or_app. right. now left.
Qed.

(** X10. Without a backend, [auto_fix] can only make the literal
    replacements: every input issue that is not a glossary mismatch or
    an untranslated term with an expected text comes back in
    [unfixed_issues]; in particular every language-mixing issue does. *)
Theorem auto_fix_without_backend_returns_the_rest
    (v : validator) (txt : pystr) (todo : list QAIssue) (i : QAIssue) :
  In i todo ->
  str_eqb (issue_type i) GLOSSARY_MISMATCH && truthy_opt (expected i) = false ->
  str_eqb (issue_type i) UNTRANSLATED_TERM && truthy_opt (expected i) = false ->
  In i (snd (auto_fix llm_execute v txt todo None)).
Proof.
  intros Hin Hg Hu. unfold auto_fix, auto_fix_run.
  pose proof (fold_left_invariant direct_step
    (fun acc seen => forall j, In j seen ->
       str_eqb (issue_type j) GLOSSARY_MISMATCH && truthy_opt (expected j) = false ->
       str_eqb (issue_type j) UNTRANSLATED_TERM && truthy_opt (expected j) = false ->
       In j (unfixed_issues (fst acc) ++ snd acc))
    direct_step_keeps_unreplaceable todo [] (mkFix txt 0 [] [], [])
    (fun j (H : In j []) _ _ => match H with end)) as Hd.
  simpl app in Hd.
  destruct (fold_left direct_step todo (mkFix txt 0 [] [], [])) as [st mixing].
  simpl fst in Hd. simpl snd in Hd. specialize (Hd i Hin Hg Hu).
  destruct mixing as [|m mixing]; simpl.
  - now rewrite app_nil_r in Hd.
  - exact Hd.
Qed.

End AutoFixNoBackend.

(** X10, witness: a Korean word left in a Japanese sentence. *)
Lemma auto_fix_without_backend_witness :
  let v := Examples.korean_to_japanese in
  let i := mkIssue LANGUAGE_MIXING ERROR (py "그는") [] (Some 0) None None in
  In i [i] /\
  In i (snd (auto_fix Examples.no_backend v (py "그는家に帰った") [i] None)).
Proof.
  intros v i.
  assert (Hin : In i [i]) by (left; reflexivity).
  assert (Hg : str_eqb (issue_type i) GLOSSARY_MISMATCH
               && truthy_opt (expected i) = false) by reflexivity.
  assert (Hu : str_eqb (issue_type i) UNTRANSLATED_TERM
               && truthy_opt (expected i) = false) by reflexivity.
  split; [exact Hin|].
  exact (@auto_fix_without_backend_returns_the_rest unit Examples.no_backend
           v (py "그는家に帰った") [i] i Hin Hg Hu).
Defined.

(** ** Untranslated glossary terms *)

Lemma lookup_step_keys (tb : tables) (t : term) (k : pystr) :
  In k (dict_keys (t_term_map tb)) ->
  In k (dict_keys (t_term_map (lookup_step tb t))).
Proof.
  intros H. unfold lookup_step.
  destruct (truthy (original t) && truthy (translation t)); [|assumption].
  simpl. now apply (proj2 (dict_set_keys _ _ _)).
Qed.

Lemma build_lookup_tables_keys (ts : list term) (t : term) :
  In t ts -> original t <> [] -> translation t <> [] ->
  In (original t) (dict_keys (t_term_map (build_lookup_tables ts))).
Proof.
  unfold build_lookup_tables. generalize (mkTables [] [] []).
  induction ts as [|x ts IH]; intros tb Hin Ho Htr; [contradiction|].
  simpl. destruct Hin as [-> | Hin]; [|now apply IH].
  assert (Hk : In (original t) (dict_keys (t_term_map (lookup_step tb t)))).
  { unfold lookup_step.
    destruct (original t) as [|c o]; [congruence|].
    destruct (translation t) as [|d tr]; [congruence|].
    simpl. apply (proj1 (dict_set_keys _ _ _)). }
  clear -Hk. revert Hk. generalize (lookup_step tb t).
  induction ts as [|y ts IH]; intros tb' Hk; simpl; [assumption|].
  apply IH. now apply lookup_step_keys.
Qed.

(** X11. With the checks on, a glossary term (with a non-empty original
    and translation) whose original still occurs in the text always
    fails the validation: the issues contain an error of type
    'untranslated_term' with that original as its text. *)
Theorem untranslated_original_fails_validation
    (lower : pystr -> pystr) (src tgt : pystr) (ts : list term) (t : term)
    (txt : pystr) (episode : option Z) :
  In t ts -> original t <> [] -> translation t <> [] ->
  contains (original t) txt = true ->
  let r := validate (new_validator lower src tgt ts (Some false)) txt episode in
  passed r = false /\
  exists i, In i (issues r) /\ issue_type i = UNTRANSLATED_TERM /\
            severity i = ERROR /\ text i = original t.
Proof.
  intros Hin Ho Htr Hc r.
  assert (Hkey := build_lookup_tables_keys ts t Hin Ho Htr).
  unfold dict_keys in Hkey. apply in_map_iff in Hkey.
  destruct Hkey as ([k e] & Hk & Hkv). simpl in Hk. subst k.
  set (v := new_validator lower src tgt ts (Some false)).
  assert (Hissue : exists i, In i (untranslated_issues v txt) /\
                     issue_type i = UNTRANSLATED_TERM /\
                     severity i = ERROR /\ text i = original t).
  { eexists. split.
    - unfold untranslated_issues. apply in_flat_map.
      exists (original t, e). split; [exact Hkv|]. rewrite Hc. now left.
    - repeat split. }
  destruct Hissue as (i & Hi & Hty & Hsev & Htext).
  assert (Hfound : In i (check_language_mixing v txt
                         ++ check_glossary_consistency v txt)).
  { apply in_or_app. right. unfold check_glossary_consistency.
    apply in_or_app. now left. }
  subst r. unfold validate. change (skip_language_mixing v) with false.
  cbv iota. cbn [passed issues]. split.
  - assert (Herr : In i (filter is_error
                           (check_language_mixing v txt
                            ++ check_glossary_consistency v txt))).
    { apply filter_In. split; [exact Hfound|].
      unfold is_error. rewrite Hsev. apply str_eqb_refl. }
    destruct (filter is_error _) as [|x l]; [contradiction | reflexivity].
  - exists i. auto.
Qed.

(** X11, witness: the glossary and the text of the full-name example. *)
Lemma untranslated_original_witness :
  let t := NameConsistency.character_term (py "이서연") (py "イ・ソヨン") in
  let r := validate (new_validator ascii_lower (py "korean") (py "japanese")
                       [NameConsistency.character_term (py "서연") (py "ソヨン"); t]
                       (Some false)) Examples.name_text None in
  passed r = false /\
  exists i, In i (issues r) /\ issue_type i = UNTRANSLATED_TERM /\
            severity i = ERROR /\ text i = original t.
Proof.
  intros t.
  apply untranslated_original_fails_validation.
  - right. left. reflexivity.
  - vm_compute. discriminate.
  - vm_compute. discriminate.
  - vm_compute. reflexivity.
Defined.

End QAMoreFacts.

(* ===================================================================== *)
(** * More on the retry loop of run_stage_2a *)
(* ===================================================================== *)

Section Stage2aMoreFacts.
Import TranslationQA Stage2a.

Variable llm_state : Type.
Variable llm_execute :
  llm_state -> pystr -> pystr -> pystr -> list term -> llm_response * llm_state.
Variable glossary_terms : list term.

Lemma retry_loop_count (auto_fix_enabled : bool) (config : language_config)
    (budget : nat) (st : loop_state llm_state) :
  let final := retry_loop llm_execute auto_fix_enabled glossary_terms config
                 budget st in
  length (passes final) <= length (passes st) + budget /\
  length (passes st) + Nat.min 1 budget <= length (passes final).
Proof.
  revert st. induction budget as [|b IH]; intros st; simpl.
  - lia.
  - set (p := validation_pass _ _ _ _ _ _).
    set (st' := mkLoop _ _ _ _).
    assert (Hlen : length (passes st') = length (passes st) + 1)
      by (subst st'; simpl; now rewrite length_app).
    destruct (lang_errors (summary p) =? 0); [lia|].
    destruct (negb auto_fix_enabled); [lia|].
    destruct ((lang_fixed (summary p) =? 0) && (0 <? lang_errors (summary p)));
      [lia|].
    specialize (IH st'). cbv zeta in IH.
    destruct IH as [IH1 IH2]. rewrite Hlen in IH1, IH2. split; lia.
Qed.

Lemma retry_loop_fixed (auto_fix_enabled : bool) (config : language_config)
    (budget : nat) (st : loop_state llm_state) :
  cumulative_fixed st = list_sum (map lang_fixed (passes st)) ->
  let final := retry_loop llm_execute auto_fix_enabled glossary_terms config
                 budget st in
  cumulative_fixed final = list_sum (map lang_fixed (passes final)).
Proof.
  revert st. induction budget as [|b IH]; intros st Hst; simpl; [exact Hst|].
  set (p := validation_pass _ _ _ _ _ _).
  set (st' := mkLoop _ _ _ _).
  assert (Hst' : cumulative_fixed st' = list_sum (map lang_fixed (passes st'))).
  { subst st'. simpl. rewrite map_app, list_sum_app, Hst. simpl. lia. }
  destruct (lang_errors (summary p) =? 0); [exact Hst'|].
  destruct (negb auto_fix_enabled); [exact Hst'|].
  destruct ((lang_fixed (summary p) =? 0) && (0 <? lang_errors (summary p)));
    [exact Hst'|].
  exact (IH st' Hst').
Qed.

(** X12. What the retry loop reports. With [max_retries] of zero no
    pass is made and there is nothing to report (the function fails);
    otherwise the number of retries is between 1 and [max_retries], the
    reported [fixed_count] is the sum of the fixes of all the passes
    made, and the error count, the warning count and [passed] are those
    of the last pass, [passed] meaning that it found no error. *)
Theorem retry_loop_report
    (auto_fix_enabled : bool) (max_retries : nat) (config : language_config)
    (files : list episode_entry) (llm : option llm_state) :
  let final := run_retries llm_execute auto_fix_enabled max_retries
                 glossary_terms config files llm in
  match language_result llm_execute auto_fix_enabled max_retries
          glossary_terms config files llm with
  | None => max_retries = 0
  | Some r =>
    1 <= report_retries r <= max_retries /\
    report_fixed_count r = list_sum (map lang_fixed (passes final)) /\
    (exists before s,
       passes final = before ++ [s] /\
       report_error_count r = lang_errors s /\
       report_warning_count r = lang_warnings s /\
       report_passed r = (lang_errors s =? 0))
  end.
Proof.
  intros final. unfold language_result. fold final.
  pose proof (retry_loop_count auto_fix_enabled config max_retries
                (mkLoop [] 0 files llm)) as Hcount.
  pose proof (retry_loop_fixed auto_fix_enabled config max_retries
                (mkLoop [] 0 files llm) eq_refl) as Hfixed.
  simpl in Hcount, Hfixed. fold (run_retries llm_execute auto_fix_enabled
    max_retries glossary_terms config files llm) in Hcount, Hfixed.
  fold final in Hcount, Hfixed.
  destruct (rev (passes final)) as [|s l] eqn:Hrev.
  - assert (Hnil : passes final = []).
    { rewrite <- (rev_involutive (passes final)), Hrev. reflexivity. }
    rewrite Hnil in Hcount. simpl in Hcount.
    destruct max_retries; [reflexivity | simpl in Hcount; lia].
  - assert (Hp : passes final = rev l ++ [s]).
    { rewrite <- (rev_involutive (passes final)), Hrev. reflexivity. }
    cbn [report_retries report_fixed_count report_error_count
         report_warning_count report_passed].
    unfold retry_count. split; [|split].
    + rewrite Hp, length_app in *. simpl in *. lia.
    + exact Hfixed.
    + exists (rev l), s. repeat split. exact Hp.
Qed.

(** ** Passes that cannot change anything *)

(** A pass without auto-fix validates every file and leaves the files
    and the backend alone. *)
Lemma episode_loop_without_auto_fix (config : language_config) (v : validator)
    (files : list episode_entry) (st : pass_state llm_state) :
  let st' := fold_left (episode_step llm_execute false v) files st in
  written st' = written st ++ files /\
  backend st' = backend st /\
  lang_fixed (summary st') = lang_fixed (summary st).
Proof.
  revert st. induction files as [|f files IH]; intros st; cbv zeta.
  - simpl. now rewrite app_nil_r.
  - cbn [fold_left].
    destruct (IH (episode_step llm_execute false v st f)) as (Hw & Hb & Hf).
    rewrite Hw, Hb, Hf. unfold episode_step.
    destruct f as [|f]; simpl; now rewrite <- app_assoc.
Qed.

(** X13. Without [auto_fix] the stage only reads: whatever
    [max_retries] allows, exactly one pass is made, the episode files
    are left as they were, nothing is counted as fixed and the backend
    is not used. *)
Theorem without_auto_fix_one_pass_files_untouched
    (max_retries : nat) (config : language_config)
    (files : list episode_entry) (llm : option llm_state) :
  0 < max_retries ->
  let final := run_retries llm_execute false max_retries
                 glossary_terms config files llm in
  retry_count final = 1 /\ files_now final = files /\
  cumulative_fixed final = 0 /\ backend_now final = llm.
Proof.
  intros Hpos final. subst final. unfold run_retries.
  destruct max_retries as [|b]; [lia|]. simpl retry_loop.
  set (p := validation_pass _ _ _ _ _ _).
  assert (Hp : written p = files /\ backend p = llm
               /\ lang_fixed (summary p) = 0).
  { subst p. unfold validation_pass.
    apply (episode_loop_without_auto_fix config). }
  destruct Hp as (Hw & Hb & Hf).
  destruct (lang_errors (summary p) =? 0); simpl; rewrite Hw, Hb, Hf; auto.
Qed.

(** A pass of a validator that skips its checks finds nothing, so that
    nothing is handed to [auto_fix]; a file that cannot be read gets no
    result. *)
Lemma episode_loop_skipping (auto_fix_enabled : bool) (v : validator)
    (files : list episode_entry) (st : pass_state llm_state) :
  skip_language_mixing v = true ->
  let st' := fold_left (episode_step llm_execute auto_fix_enabled v) files st in
  written st' = written st ++ files /\
  backend st' = backend st /\
  lang_fixed (summary st') = lang_fixed (summary st) /\
  lang_errors (summary st') = lang_errors (summary st) /\
  lang_warnings (summary st') = lang_warnings (summary st) /\
  lang_results (summary st')
  = lang_results (summary st)
    ++ map (fun f => mkResult true [] (Some (file_episode_number f)))
           (readable_files files).
Proof.
  intros Hskip. revert st. induction files as [|f files IH]; intros st; cbv zeta.
  - simpl. now rewrite !app_nil_r.
  - cbn [fold_left].
    destruct (IH (episode_step llm_execute auto_fix_enabled v st f))
      as (Hw & Hb & Hf & He & Hwa & Hr).
    rewrite Hw, Hb, Hf, He, Hwa, Hr. unfold episode_step, validate.
    rewrite Hskip. destruct f as [|f]; destruct auto_fix_enabled; simpl;
      rewrite <- !app_assoc, ?Nat.add_0_r; auto 10.
Qed.

(** X14. A language whose configuration sets [skip_language_mixing]
    (Korean, the source language) always passes: one pass, every
    episode file that can be read reported as passed without issues (a
    file that cannot be read or parsed is reported on the console and
    gets no result), no error, no warning, nothing fixed, and the files
    untouched, with or without [auto_fix]. *)
Theorem skipped_language_passes_in_one_pass
    (auto_fix_enabled : bool) (max_retries : nat) (config : language_config)
    (files : list episode_entry) (llm : option llm_state) :
  cfg_skip_language_mixing config = true ->
  0 < max_retries ->
  language_result llm_execute auto_fix_enabled max_retries
    glossary_terms config files llm
  = Some (mkReport
            (map (fun f => mkResult true [] (Some (file_episode_number f)))
                 (readable_files files))
            0 0 0 true 1) /\
  files_now (run_retries llm_execute auto_fix_enabled max_retries
               glossary_terms config files llm) = files.
Proof.
  intros Hskip Hpos. unfold language_result, run_retries.
  destruct max_retries as [|b]; [lia|]. simpl retry_loop.
  set (p := validation_pass _ _ _ _ _ _).
  pose proof (episode_loop_skipping auto_fix_enabled
    (new_validator ascii_lower (cfg_source_lang config) (cfg_target_lang config)
       glossary_terms (Some (cfg_skip_language_mixing config)))
    files (mkPassState (mkPass [] 0 0 0) [] llm)) as Hp.
  simpl in Hp. specialize (Hp Hskip).
  fold (validation_pass llm_execute auto_fix_enabled glossary_terms config
          files llm) in Hp. fold p in Hp.
  destruct Hp as (Hw & Hb & Hf & He & Hwa & Hr).
  rewrite He. simpl. rewrite Hw, Hf, He, Hwa, Hr. auto.
Qed.

End Stage2aMoreFacts.

(** X13, witness: the example episode, validated for Japanese without
    auto-fix and with five retries allowed. *)
Lemma without_auto_fix_witness :
  let final := Stage2a.run_retries Examples.no_backend false 5 []
                 Examples.japanese_config [Examples.mixed_episode] None in
  0 < 5 /\
  Stage2a.retry_count final = 1 /\
  Stage2a.files_now final = [Examples.mixed_episode] /\
  Stage2a.cumulative_fixed final = 0 /\ Stage2a.backend_now final = None.
Proof.
  assert (H : 0 < 5) by lia.
  split; [exact H|].
  exact (@without_auto_fix_one_pass_files_untouched unit Examples.no_backend []
           5 Examples.japanese_config [Examples.mixed_episode] None H).
Defined.

(** X14, witness: the Korean entry of [LANGUAGE_CONFIG], on a file
    that cannot be read and an episode that holds Korean text, with
    auto-fix on. *)
Lemma skipped_language_witness :
  let korean := Stage2a.mkConfig (py "korean") (py "korean") true in
  let files := [Stage2a.Unreadable; Examples.mixed_episode] in
  PyDict.dict_get (py "korean") Stage2a.LANGUAGE_CONFIG = Some korean /\
  Stage2a.language_result Examples.no_backend true 5 [] korean files None
  = Some (Stage2a.mkReport [TranslationQA.mkResult true [] (Some 1%Z)]
            0 0 0 true 1) /\
  Stage2a.files_now (Stage2a.run_retries Examples.no_backend true 5 [] korean
                       files None)
  = files.
Proof.
  intros korean files.
  assert (Hskip : Stage2a.cfg_skip_language_mixing korean = true) by reflexivity.
  assert (Hpos : 0 < 5) by lia.
  split; [vm_compute; reflexivity|].
  exact (@skipped_language_passes_in_one_pass unit Examples.no_backend []
           true 5 korean files None Hskip Hpos).
Defined.

(* ===================================================================== *)
(** * More on the episode splitter *)
(* ===================================================================== *)

Section SplitterMoreFacts.
Import Re Splitter SplitterSpec.

(** ** Cleaning of trailing markers *)

Lemma lstrip_by_suffix (p : Z -> bool) (s : pystr) :
  exists pre, s = pre ++ lstrip_by p s.
Proof.
  induction s as [|c s IH]; simpl.
  - now exists [].
  - destruct (p c).
    + destruct IH as [pre IH]. exists (c :: pre). simpl. now f_equal.
    + now exists [].
Qed.

Lemma lstrip_by_idem (p : Z -> bool) (s : pystr) :
  lstrip_by p (lstrip_by p s) = lstrip_by p s.
Proof.
  induction s as [|c s IH]; simpl; [reflexivity|].
  destruct (p c) eqn:E; [exact IH|]. simpl. now rewrite E.
Qed.

Lemma rstrip_prefix (s : pystr) : exists rest, s = rstrip s ++ rest.
Proof.
  unfold rstrip, rstrip_by.
  destruct (lstrip_by_suffix isspace (rev s)) as [pre H].
  exists (rev pre). rewrite <- rev_app_distr, <- H. now rewrite rev_involutive.
Qed.

Lemma rstrip_idem (s : pystr) : rstrip (rstrip s) = rstrip s.
Proof.
  unfold rstrip, rstrip_by. now rewrite rev_involutive, lstrip_by_idem.
Qed.

Lemma firstn_prefix {A : Type} (n : nat) (l : list A) :
  exists rest, l = firstn n l ++ rest.
Proof. exists (skipn n l). now rewrite firstn_skipn. Qed.

Lemma cut_first_marker_prefix (patterns : list re) (cleaned : pystr) :
  rstrip cleaned = cleaned ->
  (exists rest, cleaned = cut_first_marker patterns cleaned ++ rest) /\
  rstrip (cut_first_marker patterns cleaned) = cut_first_marker patterns cleaned.
Proof.
  intros Hc. induction patterns as [|p ps IH]; simpl.
  - split; [exists []; now rewrite app_nil_r | exact Hc].
  - destruct (search p cleaned) as [m|]; [|exact IH].
    split; [|apply rstrip_idem].
    destruct (firstn_prefix (m_start m) cleaned) as [r1 H1].
    destruct (rstrip_prefix (firstn (m_start m) cleaned)) as [r2 H2].
    exists (r2 ++ r1). rewrite app_assoc, <- H2. exact H1.
Qed.

(** X15. [clean_trailing_episode_marker] only ever cuts at the end:
    what it returns is a prefix of the content it was given, and it has
    no trailing whitespace. *)
Theorem clean_trailing_marker_returns_stripped_prefix (content : pystr) :
  (exists rest, content = clean_trailing_episode_marker content ++ rest) /\
  rstrip (clean_trailing_episode_marker content)
  = clean_trailing_episode_marker content.
Proof.
  unfold clean_trailing_episode_marker.
  destruct (cut_first_marker_prefix TRAILING_EPISODE_PATTERNS
              (rstrip_idem content)) as [[r1 H1] H2].
  split; [|exact H2].
  destruct (rstrip_prefix content) as [r2 Hr].
  exists (r1 ++ r2). rewrite app_assoc, <- H1. exact Hr.
Qed.

(** ** Titles and special episodes *)

Lemma only_titled_refl (e : episode) : only_titled e e.
Proof. split; [reflexivity | now left]. Qed.

Lemma only_titled_trans (a b c : episode) :
  only_titled a b -> only_titled b c -> only_titled a c.
Proof.
  intros [Hn1 H1] [Hn2 H2]. split; [congruence|].
  destruct H2 as [-> | H2]; [exact H1 | now right].
Qed.

Lemma Forall2_only_titled_refl (l : list episode) : Forall2 only_titled l l.
Proof. induction l; constructor; auto using only_titled_refl. Qed.

Lemma Forall2_only_titled_trans (l1 l2 l3 : list episode) :
  Forall2 only_titled l1 l2 -> Forall2 only_titled l2 l3 ->
  Forall2 only_titled l1 l3.
Proof.
  intros H. revert l3. induction H as [|a b l1 l2 Hab H IH]; intros l3 H23;
    inversion H23; subst; constructor; eauto using only_titled_trans.
Qed.

Lemma update_nth_only_titled (n : nat) (f : episode -> episode)
    (l : list episode) :
  (forall e, only_titled e (f e)) -> Forall2 only_titled l (update_nth n f l).
Proof.
  intros Hf. revert n. induction l as [|x l IH]; intros [|n]; simpl.
  - constructor.
  - constructor.
  - constructor; [apply Hf | apply Forall2_only_titled_refl].
  - constructor; [apply only_titled_refl | apply IH].
Qed.

Lemma promote_title_only_titled (c : Z) (t : pystr) (k : Z) (e : episode) :
  only_titled e (promote_title (c :: t) k e).
Proof. split; [reflexivity|]. right. now exists c, t. Qed.

Lemma apply_titles_only_titled (items : list title_item) (eps : list episode) :
  Forall2 only_titled eps (apply_titles items eps).
Proof.
  revert eps. induction items as [|it items IH]; intros eps; simpl.
  - apply Forall2_only_titled_refl.
  - destruct (item_idx it) as [idx|]; [|apply IH].
    destruct (item_title it) as [[|c t]|]; try apply IH.
    destruct (item_title_line_idx it) as [k|]; [|apply IH].
    destruct (py_index (length eps) idx) as [n|];
      [|apply Forall2_only_titled_refl].
    eapply Forall2_only_titled_trans; [|apply IH].
    apply update_nth_only_titled. intros e. apply promote_title_only_titled.
Qed.

Lemma Forall2_numbers (l1 l2 : list episode) :
  Forall2 only_titled l1 l2 ->
  map number l2 = map number l1 /\ length l2 = length l1.
Proof.
  induction 1 as [|a b l1 l2 [Hn _] _ [IH1 IH2]]; simpl; [auto|].
  now rewrite Hn, IH1, IH2.
Qed.

Section PostProcessing.

Variable llm_state : Type.
Variable lower : pystr -> pystr.
Variable llm_titles : llm_state -> list title_sample -> titles_response * llm_state.

Lemma handle_special_only_titled (eps eps1 : list episode) (info : pattern_info) :
  handle_special_episodes lower eps info = Some eps1 ->
  Forall2 only_titled eps eps1.
Proof.
  unfold handle_special_episodes.
  destruct eps as [|e0 eps0]; [intros [= <-]; constructor|].
  set (eps := e0 :: eps0).
  destruct (special_episodes info) as [| |sp]; [|discriminate|];
    [intros [= <-]; apply Forall2_only_titled_refl|].
  destruct (sp_epilogue sp) as [[|c e]|];
    try (intros [= <-]; apply Forall2_only_titled_refl).
  destruct (rev eps) as [|last before] eqn:Hrev;
    [intros [= <-]; apply Forall2_only_titled_refl|].
  destruct (contains _ _); [|intros [= <-]; apply Forall2_only_titled_refl].
  intros [= <-].
  assert (Heps : eps = rev before ++ [last]).
  { rewrite <- (rev_involutive eps), Hrev. reflexivity. }
  rewrite Heps at 1. simpl rev. apply Forall2_app.
  - apply Forall2_only_titled_refl.
  - constructor; [|constructor]. split; [reflexivity|]. right. now exists c, e.
Qed.

(** [_handle_special_episodes] raises exactly when there are episodes
    and 'special_episodes' is null. *)
Lemma handle_special_raises (eps : list episode) (info : pattern_info) :
  handle_special_episodes lower eps info = None
  <-> eps <> [] /\ special_episodes info = Null.
Proof.
  unfold handle_special_episodes.
  destruct eps as [|e0 eps0].
  - split; [discriminate | intros [H _]; now contradiction H].
  - destruct (special_episodes info) as [| |sp].
    + split; [discriminate | intros [_ H]; discriminate H].
    + split; [intros _; split; [discriminate | reflexivity] | reflexivity].
    + split; [|intros [_ H]; discriminate H].
      destruct (sp_epilogue sp) as [[|c e]|]; try discriminate.
      destruct (rev (e0 :: eps0)); try discriminate.
      destruct (contains _ _); discriminate.
Qed.

Lemma extract_titles_only_titled (eps : list episode) (st : llm_state) :
  Forall2 only_titled eps (fst (extract_titles_from_episodes llm_titles eps st)).
Proof.
  unfold extract_titles_from_episodes.
  destruct (title_samples_from 0 eps) as [|s samples];
    [apply Forall2_only_titled_refl|].
  destruct (llm_titles st (s :: samples)) as [[|items] st']; simpl.
  - apply Forall2_only_titled_refl.
  - apply apply_titles_only_titled.
Qed.

(** X16. The post-processing of a split ([_handle_special_episodes],
    then [_extract_titles_from_episodes]). It raises when there are
    episodes and 'special_episodes' is null in the pattern information
    (the epilogue is read from it). In every other case it returns,
    whatever the backend answers; it neither adds, drops, reorders nor
    renumbers episodes, and an episode it changes has a non-empty title
    afterwards. *)
Theorem post_processing_only_adds_titles
    (eps : list episode) (info : pattern_info) (st : llm_state) :
  (eps <> [] -> special_episodes info = Null ->
   finish lower llm_titles eps info st = (Raise, st)) /\
  (eps = [] \/ special_episodes info <> Null ->
   exists eps',
     fst (finish lower llm_titles eps info st) = Ok eps' /\
     Forall2 only_titled eps eps' /\
     map number eps' = map number eps /\ length eps' = length eps).
Proof.
  unfold finish. split.
  - intros Hne Hnull.
    now rewrite (proj2 (handle_special_raises eps info) (conj Hne Hnull)).
  - intros Hcase.
    destruct (handle_special_episodes lower eps info) as [eps1|] eqn:Hs.
    + pose proof (extract_titles_only_titled eps1 st) as He.
      destruct (extract_titles_from_episodes llm_titles eps1 st) as [eps' st'].
      simpl in He. exists eps'. split; [reflexivity|].
      assert (H : Forall2 only_titled eps eps').
      { eapply Forall2_only_titled_trans;
          [exact (handle_special_only_titled _ _ Hs) | exact He]. }
      split; [exact H | now apply Forall2_numbers].
    + apply handle_special_raises in Hs. destruct Hs as [Hne Hnull].
      destruct Hcase as [Hnil | Hnn]; contradiction.
Qed.

End PostProcessing.

(** ** Validation of a split *)

Lemma total_penalty_app (a b : list warning) :
  total_penalty (a ++ b) = (total_penalty a + total_penalty b)%Z.
Proof. induction a as [|w a IH]; simpl; [reflexivity | rewrite IH; lia]. Qed.

Lemma large_gaps_penalty (numbers : list Z) :
  total_penalty (large_gaps numbers)
  = (5 * Z.of_nat (length (large_gaps numbers)))%Z /\
  Forall (fun w => penalty w = 5%Z) (large_gaps numbers).
Proof.
  induction numbers as [|a numbers IH]; [split; [reflexivity | constructor]|].
  destruct numbers as [|b rest]; [split; [reflexivity | constructor]|].
  change (large_gaps (a :: b :: rest))
    with ((if (2 <? b - a)%Z then [LargeGap a b] else [])
          ++ large_gaps (b :: rest)).
  destruct IH as [IH1 IH2].
  rewrite total_penalty_app, length_app, Nat2Z.inj_add, IH1.
  split.
  - destruct (2 <? b - a)%Z; simpl total_penalty; simpl length; lia.
  - apply Forall_app. split; [|exact IH2].
    destruct (2 <? b - a)%Z; repeat constructor.
Qed.

(** X17. The confidence of [_validate_split] is determined by the
    warnings it returns: 100 less 10 for a count mismatch, 5 for every
    gap in the numbering, 5 for short episodes and 10 for lost content,
    and never less than 70. It is 100 exactly when there is no
    warning. The function returns unless 'estimated_episodes' is
    null. *)
Theorem validation_confidence_is_100_less_penalties
    (eps : list episode) (info : pattern_info) (original_text : pystr) :
  match validate_split eps info original_text with
  | Some v =>
    validation_confidence v
    = Z.max (100 - total_penalty (validation_warnings v)) 70 /\
    (validation_confidence v =? 100)%Z
    = match validation_warnings v with [] => true | _ :: _ => false end
  | None => estimated_episodes info = Null
  end.
Proof.
  unfold validate_split, estimated_or. cbv zeta.
  set (e := match estimated_episodes info with
            | Absent => Some (Z.of_nat (length eps))
            | Null => None
            | Val e => Some e
            end).
  assert (He : e = None -> estimated_episodes info = Null).
  { subst e. destruct (estimated_episodes info); [discriminate | reflexivity
                                                  | discriminate]. }
  destruct e as [estimated|]; [clear He | now apply He].
  cbn [validation_confidence validation_warnings].
  set (w1 := if count_mismatch _ _ then _ else _).
  set (w2 := large_gaps _).
  set (w3 := if too_many_short eps then _ else _).
  set (w4 := if content_lost eps original_text then _ else _).
  assert (H1 : total_penalty w1 = (10 * Z.of_nat (length w1))%Z
               /\ (w1 = [] \/ total_penalty w1 = 10%Z)).
  { subst w1. destruct (count_mismatch _ _); simpl; auto. }
  assert (H2 : total_penalty w2 = (5 * Z.of_nat (length w2))%Z)
    by apply large_gaps_penalty.
  assert (H3 : total_penalty w3 = (5 * Z.of_nat (length w3))%Z
               /\ (w3 = [] \/ total_penalty w3 = 5%Z)).
  { subst w3. destruct (too_many_short eps); simpl; auto. }
  assert (H4 : total_penalty w4 = (10 * Z.of_nat (length w4))%Z
               /\ (w4 = [] \/ total_penalty w4 = 10%Z)).
  { subst w4. destruct (content_lost eps original_text); simpl; auto. }
  destruct H1 as [H1 H1'], H3 as [H3 H3'], H4 as [H4 H4'].
  assert (Hsum : total_penalty (w1 ++ w2 ++ w3 ++ w4)
                 = (10 * Z.of_nat (length w1) + 5 * Z.of_nat (length w2)
                    + 5 * Z.of_nat (length w3) + 10 * Z.of_nat (length w4))%Z).
  { rewrite !total_penalty_app. lia. }
  split.
  - rewrite Hsum. f_equal. lia.
  - destruct (w1 ++ w2 ++ w3 ++ w4) as [|w ws] eqn:Hws.
    + apply app_eq_nil in Hws. destruct Hws as [-> Hws].
      apply app_eq_nil in Hws. destruct Hws as [-> Hws].
      apply app_eq_nil in Hws. destruct Hws as [-> ->]. reflexivity.
    + apply Z.eqb_neq.
      assert (Hpos : (0 < 10 * Z.of_nat (length w1) + 5 * Z.of_nat (length w2)
                      + 5 * Z.of_nat (length w3) + 10 * Z.of_nat (length w4))%Z).
      { assert (Hlen : 0 < length (w1 ++ w2 ++ w3 ++ w4))
          by (rewrite Hws; simpl; lia).
        rewrite !length_app in Hlen. lia. }
      lia.
Qed.

(** ** Chunked splitting *)

Lemma chunks_of_concat (chunk_size fuel : nat) (text : pystr) :
  0 < chunk_size -> length text <= fuel ->
  concat (chunks_of fuel chunk_size text) = text /\
  Forall (fun c => 1 <= length c <= chunk_size) (chunks_of fuel chunk_size text).
Proof.
  intros Hpos. revert text. induction fuel as [|fuel IH]; intros text Hlen.
  - destruct text; [split; [reflexivity | constructor] | simpl in Hlen; lia].
  - destruct text as [|c text]; [split; [reflexivity | constructor]|].
    cbn [chunks_of concat].
    destruct (IH (skipn chunk_size (c :: text))) as [IH1 IH2].
    { rewrite length_skipn. cbn [length] in *. lia. }
    split.
    + rewrite IH1. apply firstn_skipn.
    + constructor; [|exact IH2]. rewrite length_firstn. simpl length. lia.
Qed.

Lemma renumber_numbers (i : nat) (eps : list episode) :
  map number (renumber (Z.of_nat i) eps) = map Z.of_nat (List.seq i (length eps)) /\
  length (renumber (Z.of_nat i) eps) = length eps.
Proof.
  revert i. induction eps as [|ep eps IH]; intros i; simpl; [auto|].
  replace (Z.of_nat i + 1)%Z with (Z.of_nat (S i)) by lia.
  destruct (IH (S i)) as [IH1 IH2]. now rewrite IH1, IH2.
Qed.

Section ChunkedFacts.

Variable llm_state : Type.
Variable split : pystr -> llm_state -> res (list episode) * llm_state.

Lemma split_chunks_renumbers (chunks : list pystr) (acc : list episode)
    (st : llm_state) :
  match fst (split_chunks split chunks acc st) with
  | Ok eps => map number eps = one_to (length eps)
  | _ => True
  end.
Proof.
  revert acc st. induction chunks as [|chunk chunks IH]; intros acc st; simpl.
  - destruct (renumber_numbers 1 acc) as [H1 H2].
    change (Z.of_nat 1) with 1%Z in H1, H2. unfold one_to. now rewrite H1, H2.
  - destruct (split chunk st) as [[eps| |] st']; simpl; [apply IH | exact I | exact I].
Qed.

(** X18. [_chunked_llm_split], for a positive chunk size: the chunks
    are non-empty, none is longer than the chunk size, and put end to
    end they are the text; and when every chunk has been split the
    episodes returned are numbered 1, 2, 3, ... in order, whatever
    numbers the chunks' episodes had. *)
Theorem chunked_split_covers_text_and_renumbers
    (text : pystr) (chunk_size : nat) (st : llm_state) :
  0 < chunk_size ->
  let chunks := chunks_of (length text) chunk_size text in
  concat chunks = text /\
  Forall (fun c => 1 <= length c <= chunk_size) chunks /\
  match fst (chunked_llm_split split text chunk_size st) with
  | Ok eps => map number eps = one_to (length eps)
  | _ => True
  end.
Proof.
  intros Hpos chunks.
  destruct (@chunks_of_concat chunk_size (length text) text Hpos (le_n _))
    as [H1 H2].
  split; [exact H1|]. split; [exact H2|].
  apply split_chunks_renumbers.
Qed.

End ChunkedFacts.

(** ** The single-pattern line loop *)

Lemma save_previous_length (st : line_state) :
  length (save_previous st) = opened st.
Proof.
  unfold save_previous, opened. destruct (current_episode st); simpl.
  - now rewrite length_app.
  - lia.
Qed.

Lemma single_step_opened (r : re) (st st' : line_state) (line : pystr) :
  single_step r st line = Some st' ->
  opened st' <= opened st + length (line_matches r [line]).
Proof.
  unfold single_step, line_matches. simpl flat_map.
  destruct (py_match r (strip_line line)) as [m|].
  - destruct (episode_number r (strip_line line) m); intros H; inversion H.
    + unfold opened at 1. simpl. rewrite save_previous_length. lia.
    + unfold opened at 1. simpl. rewrite save_previous_length.
      unfold opened. destruct (current_episode st); simpl; lia.
  - intros H. inversion H. unfold accumulate, opened.
    destruct (current_episode st) eqn:Ecur; simpl; rewrite ?Ecur; lia.
Qed.

Lemma line_loop_opened (r : re) (lines : list pystr) (st st' : line_state) :
  line_loop (single_step r) lines st = Some st' ->
  opened st' <= opened st + length (line_matches r lines).
Proof.
  revert st. induction lines as [|line lines IH]; intros st; simpl line_loop.
  - intros H. inversion H. lia.
  - destruct (single_step r st line) as [st1|] eqn:E; [|discriminate].
    intros H. apply IH in H. apply single_step_opened in E.
    assert (Hcons : line_matches r (line :: lines)
                    = line_matches r [line] ++ line_matches r lines).
    { unfold line_matches. simpl flat_map. now rewrite app_nil_r. }
    rewrite Hcons, length_app. lia.
Qed.

(** X20. The single-pattern regex split never makes more episodes than
    the text has separator lines (lines that the pattern matches, once
    stripped). *)
Theorem regex_split_has_at_most_one_episode_per_separator
    (r : re) (text : pystr) (eps : list episode) :
  single_pattern_episodes r text = Some (inr eps) ->
  1 <= length eps <= matching_lines r (lstrip_bom text).
Proof.
  unfold single_pattern_episodes, matching_lines.
  destruct (line_loop (single_step r) (lines_of (lstrip_bom text))
              (mkLines [] None [])) as [st|] eqn:E; [|discriminate].
  apply line_loop_opened in E. change (opened (mkLines [] None [])) with 0 in E.
  set (found := match current_content st with
                | [] => done_episodes st
                | _ :: _ => save_previous st
                end).
  assert (Hfound : length found <= opened st).
  { subst found. destruct (current_content st).
    - unfold opened. lia.
    - now rewrite save_previous_length. }
  destruct found as [|e found']; intros H; inversion H; subst.
  simpl length in *. lia.
Qed.

(** ** Direct detection and the backend *)

Lemma known_pattern_usable (name : pystr) (rx0 : regex) :
  In (name, rx0) KNOWN_PATTERNS ->
  exists rx c, known_regex name = Some rx /\ truthy (source rx) = true /\
               compiled rx = Some c.
Proof.
  intros Hin. unfold known_regex. vm_compute in Hin.
  repeat (destruct Hin as [Hin | Hin];
          [inversion Hin; subst; eexists; eexists;
           split; [vm_compute; reflexivity|];
           split; reflexivity|]).
  contradiction.
Qed.

(** What direct detection returns: the inline dictionary, or the
    dictionary of a known pattern with its usable regular expression. *)
Lemma direct_detection_shape (text : pystr) (info : pattern_info) :
  detect_known_pattern_directly text = Some info ->
  exists name ex r est inline,
    info = direct_info name ex r est inline /\
    (inline = true \/
     (inline = false /\
      exists rx c, r = Val rx /\ known_regex name = Some rx /\
                   truthy (source rx) = true /\ compiled rx = Some c)).
Proof.
  intros H. destruct (direct_detection_cases text H)
    as (name & ex & r & est & inline & Hinfo & Hways).
  exists name, ex, r, est, inline. split; [exact Hinfo|].
  destruct Hways as [Hi | (Hi & Hr & rx0 & Hin)]; [now left | right].
  split; [exact Hi|].
  destruct (@known_pattern_usable _ _ Hin) as (rx & c & Hk & Ht & Hc).
  exists rx, c. split; [|auto].
  rewrite Hr. unfold known_field. now rewrite Hk.
Qed.

Section DirectProcess.

Variable llm_state : Type.
Variable lower : pystr -> pystr.
Variable llm_titles : llm_state -> list title_sample -> titles_response * llm_state.

Lemma finish_returns (eps : list episode) (info : pattern_info) (st : llm_state) :
  fst (finish lower llm_titles eps info st) <> OutOfFuel.
Proof.
  unfold finish. destruct (handle_special_episodes lower eps info);
    [destruct (extract_titles_from_episodes _ _ _)|]; discriminate.
Qed.

Lemma report_returns (info : pattern_info) (text : pystr) (how : method)
    (c : option Z) (split : res (list episode) * llm_state) :
  fst split <> OutOfFuel -> fst (report info text how c split) <> OutOfFuel.
Proof.
  unfold report. destruct split as [[eps| |] st2]; simpl; [| |congruence];
    intros _; [|discriminate].
  destruct c; [|discriminate].
  destruct (validate_split eps info text); [|discriminate].
  destruct (more_than_one (patterns info)); discriminate.
Qed.

(** X19. When a known pattern is detected directly, [process] never
    asks the backend to detect the pattern or to split the text: its
    result is the same whatever these two would answer (only the title
    request is made), it does not depend on the recursion budget, and
    the regex/LLM fallback cycle is not entered. *)
Theorem direct_detection_needs_no_detection_or_split_backend
    (text filename : pystr) (sample_lines : nat) (st : llm_state) :
  detect_known_pattern_directly text <> None ->
  exists result,
    fst result <> OutOfFuel /\
    forall (llm_detect : llm_state -> pystr -> pystr -> nat
                         -> detect_response * llm_state)
           (llm_split : llm_state -> pystr -> pattern_info
                        -> split_response * llm_state)
           (fuel : nat),
      process lower llm_detect llm_titles llm_split (S fuel)
        text filename sample_lines st = result.
Proof.
  intros Hd.
  destruct (detect_known_pattern_directly text) as [info|] eqn:Ed; [|congruence].
  clear Hd.
  destruct (truthy text) eqn:Ht.
  2:{ exists (Raise, st). split; [discriminate|].
      intros. unfold process. now rewrite Ht. }
  destruct (@direct_detection_shape text info Ed)
    as (name & ex & r & est & inline & Hinfo & Hcase).
  destruct Hcase as [-> | (-> & rx & c & -> & Hk & Hs & Hc)].
  - exists (report info text Inline (get (confidence info))
              (inline_split lower llm_titles text info st)).
    split.
    + apply report_returns. unfold inline_split.
      destruct (inline_episodes text) as [[eps|eps]|]; try discriminate.
      apply finish_returns.
    + intros. unfold process, detect_pattern. rewrite Ht, Ed. subst info.
      reflexivity.
  - exists (report info text Regex (get (confidence info))
              match single_pattern_episodes c text with
              | None => (Raise, st)
              | Some (inl eps) => (Ok eps, st)
              | Some (inr eps) => finish lower llm_titles eps info st
              end).
    split.
    + apply report_returns.
      destruct (single_pattern_episodes c text) as [[eps|eps]|]; try discriminate.
      apply finish_returns.
    + intros. unfold process, detect_pattern. rewrite Ht, Ed. subst info.
      unfold direct_info.
      cbn [negb is_multi is_multi_episode use_inline_split truthy_field
           primary_pattern separator_pattern confidence get is_known].
      rewrite Hk. cbn [orb split_by more_than_one patterns single_pattern_of
                        entry_pattern_regex length Nat.ltb Nat.leb].
      rewrite Hs, Hc. reflexivity.
Qed.

End DirectProcess.

End SplitterMoreFacts.

(** X16, witness: the three episodes of the example manuscript. With
    the pattern information of direct detection the post-processing
    returns them under the same numbers; with a null 'special_episodes'
    it raises. *)
Lemma post_processing_witness :
  (exists eps',
     fst (Splitter.finish ascii_lower Examples.titles_fail
            Examples.back_to_back_episodes Examples.hash_info tt)
     = Splitter.Ok eps' /\
     map Splitter.number eps' = [1; 2; 3]%Z) /\
  Splitter.finish ascii_lower Examples.titles_fail
    Examples.back_to_back_episodes Examples.null_special_info tt
  = (Splitter.Raise, tt).
Proof.
  split.
  - destruct (@post_processing_only_adds_titles unit ascii_lower
                Examples.titles_fail Examples.back_to_back_episodes
                Examples.hash_info tt) as [_ H].
    destruct H as (eps' & Hf & _ & Hn & _); [right; vm_compute; discriminate|].
    exists eps'. split; [exact Hf|]. rewrite Hn. reflexivity.
  - destruct (@post_processing_only_adds_titles unit ascii_lower
                Examples.titles_fail Examples.back_to_back_episodes
                Examples.null_special_info tt) as [H _].
    apply H; [discriminate | reflexivity].
Defined.

(** X18, witness: five characters in chunks of two, each chunk returned
    as one episode numbered 7. *)
Lemma chunked_split_witness :
  let split := fun (chunk : pystr) (st : unit) =>
                 (Splitter.Ok [Splitter.mkEpisode 7 None chunk], st) in
  0 < 2 /\
  concat (Splitter.chunks_of 5 2 (py "abcde")) = py "abcde" /\
  Forall (fun c => 1 <= length c <= 2) (Splitter.chunks_of 5 2 (py "abcde")) /\
  match fst (SplitterSpec.chunked_llm_split split (py "abcde") 2 tt) with
  | Splitter.Ok eps => map Splitter.number eps = SplitterSpec.one_to (length eps)
  | _ => True
  end.
Proof.
  intros split.
  assert (H : 0 < 2) by lia.
  split; [exact H|].
  exact (@chunked_split_covers_text_and_renumbers unit split (py "abcde") 2 tt H).
Defined.

(** X19, witness: the manuscript with three '#N화' separators, with a
    backend that fails and with one that answers. *)
Lemma direct_detection_witness :
  exists result,
    fst result <> Splitter.OutOfFuel /\
    Splitter.process ascii_lower Examples.detect_fails Examples.titles_fail
      Examples.split_fails 1 Examples.back_to_back_text (py "a.txt") 500 tt
    = result /\
    Splitter.process ascii_lower Examples.detect_low_confidence
      Examples.titles_fail Examples.split_fails 7 Examples.back_to_back_text
      (py "a.txt") 500 tt
    = result.
Proof.
  assert (Hd : Splitter.detect_known_pattern_directly Examples.back_to_back_text
               <> None) by (vm_compute; discriminate).
  destruct (@direct_detection_needs_no_detection_or_split_backend unit
              ascii_lower Examples.titles_fail Examples.back_to_back_text
              (py "a.txt") 500 tt Hd) as (result & Hret & Hsame).
  exists result. split; [exact Hret|]. split.
  - exact (Hsame Examples.detect_fails Examples.split_fails 0).
  - exact (Hsame Examples.detect_low_confidence Examples.split_fails 6).
Defined.

(** X20, witness: three '#N화' separator lines, three episodes. *)
Lemma regex_split_witness :
  let r := Re.seq [Re.Bol; Re.chr Splitter.HASH; Re.Group (Re.plus Re.digit);
                   Re.chr Splitter.HWA; Re.Star Re.space; Re.Eol] in
  Splitter.single_pattern_episodes r Examples.back_to_back_text
  = Some (inr Examples.back_to_back_episodes) /\
  1 <= length Examples.back_to_back_episodes
    <= Splitter.matching_lines r (lstrip_bom Examples.back_to_back_text).
Proof.
  intros r.
  assert (H : Splitter.single_pattern_episodes r Examples.back_to_back_text
              = Some (inr Examples.back_to_back_episodes))
    by (vm_compute; reflexivity).
  split; [exact H|].
  exact (@regex_split_has_at_most_one_episode_per_separator r
           Examples.back_to_back_text Examples.back_to_back_episodes H).
Defined.

(* ===================================================================== *)
(** * The language-mixing check and the Hangul block *)
(* ===================================================================== *)

Section LanguageMixingFacts.
Import Re TranslationQA.

(** A Hangul syllable, as the pattern of [check_language_mixing] has
    it: U+AC00 to U+D7AF. *)
Local Abbreviation hangul := (cls_mem (CRange 44032 55215)).

Lemma match_at_korean_none (text : pystr) (start : nat) :
  match skipn start text with
  | c :: _ => hangul c = false
  | [] => True
  end ->
  match_at korean_pattern text start = None.
Proof.
  unfold match_at, korean_pattern, plus, range. cbn [run].
  destruct (skipn start text) as [|c s]; [reflexivity|].
  intros H. now rewrite H.
Qed.

Lemma star_loop_returns {A : Type} (a : re)
    (k : nat -> pystr -> option (nat * nat) -> option A)
    (pos : nat) (s : pystr) (cap : option (nat * nat)) :
  (forall pos' s' cap', k pos' s' cap' <> None) ->
  run (Star a) pos s cap k <> None.
Proof.
  intros Hk. cbn [run]. generalize (length s) as fuel.
  intros fuel. revert pos s cap.
  induction fuel as [|fuel IH]; intros pos s cap; [apply Hk|].
  destruct (run a pos s cap _); [discriminate | apply Hk].
Qed.

Lemma match_at_korean_some (text : pystr) (start : nat) (c : Z) (rest : pystr) :
  skipn start text = c :: rest -> hangul c = true ->
  match_at korean_pattern text start <> None.
Proof.
  intros Hs Hc. unfold match_at, korean_pattern, plus, range.
  change (run (Seq (Chr (CRange 44032 55215)) (Star (Chr (CRange 44032 55215))))
            start (skipn start text) None
            (fun pos' _ cap => Some (mkMatch start pos' cap)))
    with (run (Chr (CRange 44032 55215)) start (skipn start text) None
            (fun pos' s' cap' =>
               run (Star (Chr (CRange 44032 55215))) pos' s' cap'
                 (fun pos' _ cap => Some (mkMatch start pos' cap)))).
  rewrite Hs. cbn [run]. rewrite Hc.
  apply (star_loop_returns (Chr (CRange 44032 55215))). discriminate.
Qed.

Lemma search_from_none (r : re) (text : pystr) (n start : nat) :
  (forall i, match_at r text i = None) -> search_from r text start n = None.
Proof.
  intros H. revert start. induction n as [|n IH]; intros start; simpl;
    rewrite H; [reflexivity | apply IH].
Qed.

Lemma search_from_some (r : re) (text : pystr) (n start i : nat) :
  start <= i <= start + n -> match_at r text i <> None ->
  search_from r text start n <> None.
Proof.
  revert start. induction n as [|n IH]; intros start Hi Hm; simpl.
  - replace start with i by lia. destruct (match_at r text i); congruence.
  - destruct (match_at r text start) eqn:E; [discriminate|].
    apply IH; [|exact Hm].
    destruct (Nat.eq_dec i start) as [-> | Hne]; [congruence | lia].
Qed.

Lemma finditer_nil (r : re) (text : pystr) :
  finditer r text = [] <-> search_from r text 0 (length text) = None.
Proof.
  unfold finditer. cbn [finditer_from].
  replace (length text <? 0) with false by (symmetry; apply Nat.ltb_ge; lia).
  rewrite Nat.sub_0_r.
  destruct (search_from r text 0 (length text)); split; congruence.
Qed.

Lemma In_skipn {A : Type} (x : A) (n : nat) (l : list A) :
  In x (skipn n l) -> In x l.
Proof.
  revert l. induction n as [|n IH]; intros [|y l]; simpl; auto.
Qed.

(** X21. For a Korean source, [check_language_mixing] reports nothing
    exactly when the text has no Hangul syllable (U+AC00 to U+D7AF): a
    single syllable anywhere gives at least one issue, and a text
    without any gives none. *)
Theorem language_mixing_silent_iff_no_hangul (v : validator) (txt : pystr) :
  source_lang v = KOREAN ->
  match check_language_mixing v txt with [] => true | _ :: _ => false end
  = negb (existsb (fun c => (44032 <=? c) && (c <=? 55215))%Z txt).
Proof.
  intros Hsrc. unfold check_language_mixing. rewrite Hsrc, str_eqb_refl.
  cbn [negb].
  destruct (existsb (fun c => (44032 <=? c) && (c <=? 55215))%Z txt) eqn:Ex;
    cbn [negb].
  - apply existsb_exists in Ex. destruct Ex as (c & Hin & Hc).
    destruct (in_split _ _ Hin) as (l1 & l2 & Htxt).
    assert (Hfound : search_from korean_pattern txt 0 (length txt) <> None).
    { apply (@search_from_some korean_pattern txt (length txt) 0 (length l1)).
      - rewrite Htxt, length_app. lia.
      - apply (@match_at_korean_some txt (length l1) c l2); [|exact Hc].
        rewrite Htxt. rewrite skipn_app, Nat.sub_diag, skipn_all. reflexivity. }
    destruct (finditer korean_pattern txt) as [|m ms] eqn:Ef; [|reflexivity].
    apply finditer_nil in Ef. contradiction.
  - assert (Hnone : finditer korean_pattern txt = []).
    { apply finditer_nil, search_from_none. intros i.
      apply match_at_korean_none.
      destruct (skipn i txt) as [|c s] eqn:Es; [exact I|].
      assert (Hin : In c txt).
      { apply (@In_skipn _ c i). rewrite Es. now left. }
      destruct ((44032 <=? c) && (c <=? 55215))%Z eqn:Ec; [|exact Ec].
      assert (Hex : existsb (fun c => (44032 <=? c) && (c <=? 55215))%Z txt = true).
      { apply existsb_exists. exists c. now split. }
      congruence. }
    rewrite Hnone. reflexivity.
Qed.

End LanguageMixingFacts.

(** X21, witness: a Japanese sentence with one Hangul word left in. *)
Lemma language_mixing_silent_witness :
  let v := Examples.korean_to_japanese in
  let txt := py "彼は집に帰った" in
  TranslationQA.source_lang v = TranslationQA.KOREAN /\
  match TranslationQA.check_language_mixing v txt with
  | [] => true
  | _ :: _ => false
  end
  = negb (existsb (fun c => (44032 <=? c) && (c <=? 55215))%Z txt).
Proof.
  intros v txt.
  assert (H : TranslationQA.source_lang v = TranslationQA.KOREAN)
    by (vm_compute; reflexivity).
  split; [exact H|].
  exact (@language_mixing_silent_iff_no_hangul v txt H).
Defined.

(* ===================================================================== *)
(** * Summaries and reports *)
(* ===================================================================== *)

Section ReportFacts.
Import TranslationQA Stage2a Reports.

(** ** batch_validate *)

Lemma list_sum_cons (x : nat) (l : list nat) : list_sum (x :: l) = x + list_sum l.
Proof. reflexivity. Qed.

Lemma no_match_iff_filter_empty {A : Type} (p : A -> bool) (l : list A) :
  (length (filter p l) =? 0) = negb (existsb p l).
Proof.
  induction l as [|x l IH]; simpl; [reflexivity|].
  destruct (p x); simpl; [reflexivity | exact IH].
Qed.

(** A result of [validate] passes exactly when it has no issue of error
    severity. *)
Lemma validate_passed (v : validator) (txt : pystr) (episode : option Z) :
  passed (validate v txt episode)
  = negb (has_critical_issues (validate v txt episode)) /\
  episode_number (validate v txt episode) = episode.
Proof.
  unfold validate, has_critical_issues.
  destruct (skip_language_mixing v); simpl; [now split|].
  split; [apply no_match_iff_filter_empty | reflexivity].
Qed.

Lemma batch_loop (v : validator) (episodes : list batch_episode)
    (st : batch_state) :
  let results := map (fun ep => validate v (be_content ep) (be_episode_number ep))
                     episodes in
  let st' := fold_left (batch_step v) episodes st in
  bs_results st' = bs_results st ++ results /\
  bs_passed st' = bs_passed st + length (filter passed results) /\
  bs_failed st' = bs_failed st
                  + length (filter (fun r => negb (passed r)) results) /\
  bs_issues st' = bs_issues st
                  + list_sum (map (fun r => length (issues r)) results).
Proof.
  revert st. induction episodes as [|ep episodes IH]; intros st; cbv zeta.
  - simpl. rewrite app_nil_r. repeat split; try reflexivity; lia.
  - cbn [fold_left map].
    destruct (IH (batch_step v st ep)) as (Hr & Hp & Hf & Hi).
    rewrite Hr, Hp, Hf, Hi. unfold batch_step. cbn [bs_results bs_passed
      bs_failed bs_issues filter map].
    rewrite ?list_sum_cons.
    rewrite <- app_assoc.
    destruct (passed (validate v (be_content ep) (be_episode_number ep)));
      cbn [negb length app]; repeat split; try reflexivity; lia.
Qed.

Lemma filter_partition_length {A : Type} (p : A -> bool) (l : list A) :
  length (filter p l) + length (filter (fun x => negb (p x)) l) = length l.
Proof.
  induction l as [|x l IH]; simpl; [reflexivity|].
  destruct (p x); simpl; lia.
Qed.

(** X22. The summary of [batch_validate]: one result per episode, in
    order and under the episode's number; every episode is counted
    either as passed or as failed; the passed ones are exactly the
    results without an issue of error severity; and [total_issues] is
    the sum of the results' issues. *)
Theorem batch_validate_counts
    (lower : pystr -> pystr) (episodes : list batch_episode)
    (glossary_terms : list term) (source_lang target_lang : pystr) :
  let b := batch_validate lower episodes glossary_terms source_lang target_lang in
  map episode_number (batch_results b) = map be_episode_number episodes /\
  passed_count b + failed_count b = length episodes /\
  passed_count b
  = length (filter (fun r => negb (has_critical_issues r)) (batch_results b)) /\
  total_issues b = list_sum (map (fun r => length (issues r)) (batch_results b)).
Proof.
  unfold batch_validate. cbv zeta.
  cbn [batch_results passed_count failed_count total_issues].
  set (v := new_validator lower source_lang target_lang glossary_terms None).
  destruct (batch_loop v episodes (mkBatchState [] 0 0 0)) as (Hr & Hp & Hf & Hi).
  cbv zeta in Hr, Hp, Hf, Hi. simpl in Hr, Hp, Hf, Hi.
  rewrite Hr, Hp, Hf, Hi.
  set (results := map _ episodes).
  split; [|split; [|split]].
  - subst results. rewrite map_map. apply map_ext. intros ep.
    apply validate_passed.
  - rewrite filter_partition_length. subst results. apply length_map.
  - f_equal. subst results. clear. induction episodes as [|ep episodes IH];
      [reflexivity|]. cbn [map filter].
    rewrite (proj1 (validate_passed v (be_content ep) (be_episode_number ep))).
    destruct (negb (has_critical_issues _)); [f_equal|]; exact IH.
  - reflexivity.
Qed.

(** ** The language loop and generate_qa_report *)

Section LanguageLoopFacts.

Variable llm_state : Type.
Variable llm_execute :
  llm_state -> pystr -> pystr -> pystr -> list term -> llm_response * llm_state.
Variable auto_fix_enabled : bool.
Variable max_retries : nat.
Variable glossary_terms : list term.

Lemma readable_files_app (a b : list episode_entry) :
  readable_files (a ++ b) = readable_files a ++ readable_files b.
Proof. apply flat_map_app. Qed.

(** A pass gives one result to every file that can be read, and leaves
    as many readable files as it found. *)
Lemma episode_loop_lengths (v : validator) (files : list episode_entry)
    (st : pass_state llm_state) :
  let st' := fold_left (episode_step llm_execute auto_fix_enabled v) files st in
  length (lang_results (summary st'))
  = length (lang_results (summary st)) + length (readable_files files) /\
  length (readable_files (written st'))
  = length (readable_files (written st)) + length (readable_files files).
Proof.
  revert st. induction files as [|f files IH]; intros st; cbv zeta.
  - simpl. lia.
  - cbn [fold_left].
    destruct (IH (episode_step llm_execute auto_fix_enabled v st f)) as [H1 H2].
    rewrite H1, H2. clear. unfold episode_step.
    change (f :: files) with ([f] ++ files).
    rewrite (readable_files_app [f] files).
    destruct f as [|f].
    + cbn [summary written]. rewrite readable_files_app, !length_app.
      simpl. lia.
    + destruct auto_fix_enabled;
        [destruct (issues (validate v (file_content f)
                             (Some (file_episode_number f))));
         [|destruct (auto_fix_run _ _ _ _ _) as [fx b];
           destruct ((0 <? fixed_count fx) && file_writable f)]|];
        cbn [summary written lang_results];
        rewrite readable_files_app, !length_app; simpl; lia.
Qed.

Lemma retry_loop_lengths (config : language_config) (n budget : nat)
    (st : loop_state llm_state) :
  length (readable_files (files_now st)) = n ->
  Forall (fun s => length (lang_results s) = n) (passes st) ->
  Forall (fun s => length (lang_results s) = n)
         (passes (retry_loop llm_execute auto_fix_enabled glossary_terms config
                    budget st)).
Proof.
  revert st. induction budget as [|b IH]; intros st Hn Hp; simpl; [exact Hp|].
  set (p := validation_pass _ _ _ _ _ _).
  set (st' := mkLoop _ _ _ _).
  destruct (episode_loop_lengths
              (new_validator ascii_lower (cfg_source_lang config)
                 (cfg_target_lang config) glossary_terms
                 (Some (cfg_skip_language_mixing config)))
              (files_now st) (mkPassState (mkPass [] 0 0 0) [] (backend_now st)))
    as [H1 H2].
  cbv zeta in H1, H2. simpl in H1, H2.
  fold (validation_pass llm_execute auto_fix_enabled glossary_terms config
          (files_now st) (backend_now st)) in H1, H2.
  fold p in H1, H2.
  assert (Hn' : length (readable_files (files_now st')) = n)
    by (subst st'; simpl; lia).
  assert (Hp' : Forall (fun s => length (lang_results s) = n) (passes st')).
  { subst st'. simpl. apply Forall_app. split; [exact Hp|].
    constructor; [lia | constructor]. }
  destruct (lang_errors (summary p) =? 0); [exact Hp'|].
  destruct (negb auto_fix_enabled); [exact Hp'|].
  destruct ((lang_fixed (summary p) =? 0) && (0 <? lang_errors (summary p)));
    [exact Hp'|].
  exact (IH st' Hn' Hp').
Qed.

(** What the loop stores for a language. *)
Lemma language_result_entry (config : language_config)
    (files : list episode_entry) (llm : option llm_state) (r : language_report) :
  language_result llm_execute auto_fix_enabled max_retries glossary_terms
    config files llm = Some r ->
  report_passed r = (report_error_count r =? 0) /\
  length (report_results r) = length (readable_files files).
Proof.
  unfold language_result.
  pose proof (@retry_loop_lengths config (length (readable_files files))
                max_retries (mkLoop [] 0 files llm) eq_refl (Forall_nil _))
    as Hlen.
  fold (run_retries llm_execute auto_fix_enabled max_retries glossary_terms
          config files llm) in Hlen.
  destruct (rev (passes (run_retries llm_execute auto_fix_enabled max_retries
                           glossary_terms config files llm)))
    as [|s l] eqn:Hrev; [discriminate|].
  intros H. inversion H. subst r. simpl. split; [reflexivity|].
  rewrite Forall_forall in Hlen. apply Hlen.
  apply in_rev. rewrite Hrev. now left.
Qed.

Lemma dict_set_fresh {V : Type} (k : pystr) (v : V) (d : dict V) :
  ~ In k (dict_keys d) -> dict_set k v d = d ++ [(k, v)].
Proof.
  unfold dict_keys. induction d as [|[k0 v0] d IH]; simpl; [reflexivity|].
  intros Hk. destruct (str_eqb k0 k) eqn:E.
  - apply str_eqb_eq in E. tauto.
  - f_equal. apply IH. tauto.
Qed.

Local Abbreviation errors_of :=
  (fun kr : pystr * language_report => report_error_count (snd kr)).
Local Abbreviation warnings_of :=
  (fun kr : pystr * language_report => report_warning_count (snd kr)).
Local Abbreviation fixed_of :=
  (fun kr : pystr * language_report => report_fixed_count (snd kr)).
Local Abbreviation episodes_of :=
  (fun kr : pystr * language_report => length (report_results (snd kr))).
Local Abbreviation consistent :=
  (fun kr : pystr * language_report =>
     report_passed (snd kr) = (report_error_count (snd kr) =? 0)).

Lemma language_loop_totals (langs : list (pystr * list episode_entry))
    (llm llm' : option llm_state) (acc t : stage_totals) :
  NoDup (map fst langs) ->
  (forall k, In k (dict_keys (all_results acc)) -> ~ In k (map fst langs)) ->
  language_loop llm_execute auto_fix_enabled max_retries glossary_terms
    langs llm acc = Some (t, llm') ->
  exists added,
    all_results t = all_results acc ++ added /\
    total_errors t = total_errors acc + list_sum (map errors_of added) /\
    total_warnings t = total_warnings acc + list_sum (map warnings_of added) /\
    total_fixed t = total_fixed acc + list_sum (map fixed_of added) /\
    Forall consistent added /\
    list_sum (map episodes_of added)
    = list_sum (map (fun l => length (readable_files (snd l))) langs).
Proof.
  revert llm acc. induction langs as [|[lang files] langs IH];
    intros llm acc Hnd Hkeys; cbn [language_loop].
  - intros H. inversion H; subst. exists []. rewrite app_nil_r. simpl.
    repeat split; try lia. constructor.
  - cbn [map fst] in Hnd, Hkeys. inversion Hnd as [|? ? Hnotin Hnd']; subst.
    destruct (dict_get lang LANGUAGE_CONFIG) as [config|]; [|discriminate].
    destruct files as [|f files].
    + intros H. apply IH in H; [|exact Hnd'|].
      * destruct H as (added & H). exists added. exact H.
      * intros k Hk Hin. apply (Hkeys k Hk). now right.
    + destruct (language_result llm_execute auto_fix_enabled max_retries
                  glossary_terms config (f :: files) llm) as [r|] eqn:Er;
        [|discriminate].
      destruct (language_result_entry _ _ _ Er) as [Hpass Hlen].
      assert (Hfresh : ~ In lang (dict_keys (all_results acc))).
      { intros Hin. apply (Hkeys lang Hin). now left. }
      rewrite (dict_set_fresh lang r _ Hfresh).
      intros H. apply IH in H; [|exact Hnd'|].
      * destruct H as (added & Ha & He & Hw & Hf & Hc & Hn).
        cbn [all_results total_errors total_warnings total_fixed] in *.
        exists ((lang, r) :: added).
        rewrite Ha, <- app_assoc. split; [reflexivity|].
        cbn [map snd]. rewrite ?list_sum_cons. rewrite Hn, Hlen.
        repeat split; try lia. constructor; [exact Hpass | exact Hc].
      * cbn [all_results]. intros k Hk Hin. unfold dict_keys in Hk.
        rewrite map_app in Hk. apply in_app_or in Hk.
        destruct Hk as [Hk | [Hk | []]].
        -- apply (Hkeys k Hk). now right.
        -- simpl in Hk. subst k. contradiction.
Qed.

End LanguageLoopFacts.

Lemma report_fold (results : dict language_report) (init : qa_report) :
  let report := fold_left report_step results init in
  qa_total_errors report
  = qa_total_errors init
    + list_sum (map (fun kr => report_error_count (snd kr)) results) /\
  qa_total_warnings report
  = qa_total_warnings init
    + list_sum (map (fun kr => report_warning_count (snd kr)) results) /\
  qa_total_episodes report
  = qa_total_episodes init
    + list_sum (map (fun kr => length (report_results (snd kr))) results) /\
  qa_passed report
  = forallb (fun kr => report_passed (snd kr)) results && qa_passed init.
Proof.
  revert init. induction results as [|kr results IH]; intros init; cbv zeta.
  - simpl. repeat split; lia.
  - cbn [fold_left map forallb]. rewrite ?list_sum_cons.
    destruct (IH (report_step init kr)) as (He & Hw & Hn & Hp).
    rewrite He, Hw, Hn, Hp. unfold report_step.
    cbn [qa_total_errors qa_total_warnings qa_total_episodes qa_passed].
    repeat split; try lia.
    destruct (report_passed (snd kr)); simpl; [reflexivity|].
    now rewrite andb_false_r.
Qed.

Lemma all_passed_iff_no_error (results : dict language_report) :
  Forall (fun kr => report_passed (snd kr) = (report_error_count (snd kr) =? 0))
         results ->
  forallb (fun kr => report_passed (snd kr)) results
  = (list_sum (map (fun kr => report_error_count (snd kr)) results) =? 0).
Proof.
  induction 1 as [|kr results Hkr _ IH]; [reflexivity|].
  cbn [forallb map]. rewrite ?list_sum_cons. rewrite Hkr, IH.
  destruct (report_error_count (snd kr)); simpl; [reflexivity|].
  reflexivity.
Qed.

(** X23. The report agrees with the stage. For distinct languages, the
    summary that [generate_qa_report] computes from [all_results] has
    the total errors and warnings that [run_stage_2a] counted itself,
    its ['passed'] is the stage's [overall_pass] (no error in any
    language), which is also what the stage returns under
    [fail_on_error], and ['total_episodes'] is the number of episode
    files of the languages that could be read: a file that cannot be
    read or parsed has no result and is not counted. *)
Theorem report_agrees_with_stage
    (llm_state : Type)
    (llm_execute : llm_state -> pystr -> pystr -> pystr -> list term
                   -> llm_response * llm_state)
    (auto_fix_enabled : bool) (max_retries : nat) (glossary_terms : list term)
    (langs : list (pystr * list episode_entry))
    (llm llm' : option llm_state) (totals : stage_totals) (series_name : pystr) :
  NoDup (map fst langs) ->
  language_loop llm_execute auto_fix_enabled max_retries glossary_terms
    langs llm (mkTotals [] 0 0 0) = Some (totals, llm') ->
  let report := generate_qa_report series_name (all_results totals)
                  glossary_terms in
  qa_total_errors report = total_errors totals /\
  qa_total_warnings report = total_warnings totals /\
  qa_passed report = (total_errors totals =? 0) /\
  stage_returns true totals = qa_passed report /\
  qa_total_episodes report
  = list_sum (map (fun l => length (readable_files (snd l))) langs).
Proof.
  intros Hnd Hloop report.
  destruct (language_loop_totals llm_execute auto_fix_enabled max_retries
              glossary_terms langs llm (mkTotals [] 0 0 0) Hnd
              (fun k (H : In k []) => match H with end) Hloop)
    as (added & Ha & He & Hw & _ & Hc & Hn).
  cbn [all_results total_errors total_warnings app] in Ha, He, Hw.
  destruct (report_fold (all_results totals)
              (mkQAReport series_name (length glossary_terms) [] 0 0 0 true))
    as (Re & Rw & Rn & Rp).
  cbv zeta in Re, Rw, Rn, Rp.
  fold (generate_qa_report series_name (all_results totals) glossary_terms)
    in Re, Rw, Rn, Rp.
  fold report in Re, Rw, Rn, Rp.
  cbn [qa_total_errors qa_total_warnings qa_total_episodes qa_passed] in *.
  rewrite Ha in Re, Rw, Rn, Rp.
  assert (Hp : qa_passed report = (total_errors totals =? 0)).
  { rewrite Rp, andb_true_r, (all_passed_iff_no_error Hc), He. reflexivity. }
  split; [lia|]. split; [lia|]. split; [exact Hp|].
  split; [unfold stage_returns; now rewrite Hp|].
  rewrite Rn, Hn. reflexivity.
Qed.

End ReportFacts.

(** X23, witness: the example episode in a Japanese folder, and, in a
    Korean folder, the same episode after a file that cannot be read;
    without auto-fix. The report counts two episodes for three files. *)
Lemma report_agrees_witness :
  let langs := [(py "japanese", [Examples.mixed_episode]);
                (py "korean", [Stage2a.Unreadable; Examples.mixed_episode])] in
  exists totals llm',
    NoDup (map fst langs) /\
    Reports.language_loop Examples.no_backend false 5 [] langs None
      (Reports.mkTotals [] 0 0 0) = Some (totals, llm') /\
    let report := Reports.generate_qa_report (py "series")
                    (Reports.all_results totals) [] in
    Reports.qa_total_errors report = Reports.total_errors totals /\
    Reports.qa_total_warnings report = Reports.total_warnings totals /\
    Reports.qa_passed report = (Reports.total_errors totals =? 0) /\
    Reports.stage_returns true totals = Reports.qa_passed report /\
    Reports.qa_total_episodes report = 2.
Proof.
  intros langs.
  destruct (Reports.language_loop Examples.no_backend false 5 [] langs None
              (Reports.mkTotals [] 0 0 0)) as [[totals llm']|] eqn:E;
    [|vm_compute in E; discriminate].
  assert (Hnd : NoDup (map fst langs)).
  { repeat constructor; simpl; intros H;
      repeat (destruct H as [H | H]; [vm_compute in H; discriminate|]);
      exact H. }
  exists totals, llm'. split; [exact Hnd|]. split; [reflexivity|].
  exact (@report_agrees_with_stage unit Examples.no_backend false 5 []
           langs None llm' totals (py "series") Hnd E).
Defined.
